(** * OTH Launcher: download queue manager and module manager

    A shallow embedding of [src/downloads/download-queue-manager.js] and
    [src/modules/module-manager.js], and the properties of the launcher's
    specification that concern them.

    Conventions of the embedding.
    - JavaScript strings are [string]s (byte strings; the code below only
      inspects ASCII characters).
    - JavaScript numbers: integers are [Z], exact in JavaScript below
      2^53; the results of [Number(...)] and the download speed are
      rationals [Q] next to [NaN] and the two infinities; the percentage
      of the progress is computed with the rounding of IEEE 754 doubles
      ([Transfers.binary64]).
    - Objects that the code mutates through several references (download
      descriptors) live in a heap and the queues hold references.
    - Code that throws returns [Throw msg] together with the state reached
      at the throw: JavaScript does not roll effects back.
    - Asynchronous code is cut at its [await]s and callbacks.  A call runs
      up to its first [await]; the completion of [fs.mkdir], the HTTP
      response, the chunks, and the events of the request and of the write
      stream are separate steps ([Transfers.Action]).  Which of them the
      runtime delivers, and when, is left open; what each listener does
      is what the code says.
    - The file system is a finite map from paths to what is stored there;
      [path.join] is the one of POSIX and normalises its result. *)

From Stdlib Require Import Ascii String QArith Qround Lqa.
From stdpp Require Import gmap strings list fin_maps pretty.

Open Scope string_scope.
Open Scope Z_scope.

(** ** JavaScript numbers and [Number(string)] *)

Module JS.

Inductive number :=
  | NaN
  | Inf (negative : bool)
  | Fin (q : Q).

Definition of_Z (z : Z) : number := Fin (inject_Z z).

(** [None] when an operand is [NaN]: every relational operator is then false. *)
Definition num_compare (a b : number) : option comparison :=
  match a, b with
  | NaN, _ | _, NaN => None
  | Inf na, Inf nb =>
      Some (match na, nb with
            | true, false => Lt | false, true => Gt | _, _ => Eq end)
  | Inf true, Fin _ => Some Lt
  | Inf false, Fin _ => Some Gt
  | Fin _, Inf true => Some Gt
  | Fin _, Inf false => Some Lt
  | Fin p, Fin q => Some (p ?= q)%Q
  end.

(** [a > b] and [a < b]. *)
Definition num_gt (a b : number) : bool :=
  match num_compare a b with Some Gt => true | _ => false end.
Definition num_lt (a b : number) : bool :=
  match num_compare a b with Some Lt => true | _ => false end.

(** ToBoolean on a number: [NaN] and zero are falsy. *)
Definition num_truthy (a : number) : bool :=
  match a with
  | NaN => false
  | Inf _ => true
  | Fin q => negb (Qeq_bool q 0)
  end.

(** *** Characters *)

Definition code (c : ascii) : Z := Z.of_nat (nat_of_ascii c).

(** The ASCII members of StrWhiteSpaceChar: TAB, LF, VT, FF, CR, SP. *)
Definition is_space (c : ascii) : bool :=
  let n := code c in ((9 <=? n) && (n <=? 13)) || (n =? 32).

(** Value of [c] as a digit in radix [radix], for radix 2, 8, 10 or 16. *)
Definition digit_in (radix : Z) (c : ascii) : option Z :=
  let n := code c in
  let v := if (48 <=? n) && (n <=? 57) then Some (n - 48)
           else if (97 <=? n) && (n <=? 102) then Some (n - 87)
           else if (65 <=? n) && (n <=? 70) then Some (n - 55)
           else None in
  match v with
  | Some d => if d <? radix then Some d else None
  | None => None
  end.

Definition is_digit (c : ascii) : bool :=
  let n := code c in (48 <=? n) && (n <=? 57).

(** Longest prefix of digits of the radix, as digit values, and the rest. *)
Fixpoint read_digits (radix : Z) (s : list ascii) : list Z * list ascii :=
  match s with
  | [] => ([], [])
  | c :: r =>
      match digit_in radix c with
      | Some d => let '(ds, rest) := read_digits radix r in (d :: ds, rest)
      | None => ([], s)
      end
  end.

Definition digits_value (radix : Z) (ds : list Z) : Z :=
  fold_left (fun acc d => radix * acc + d) ds 0.

(** [m * 10^e] for an integer exponent. *)
Definition scale10 (m : Z) (e : Z) : Q :=
  if 0 <=? e then inject_Z (m * 10 ^ e)
  else Qmake m (Z.to_pos (10 ^ (- e))).

Fixpoint drop_spaces (s : list ascii) : list ascii :=
  match s with
  | c :: r => if is_space c then drop_spaces r else s
  | [] => []
  end.

Definition trim (s : list ascii) : list ascii :=
  rev (drop_spaces (rev (drop_spaces s))).
Arguments trim : simpl never.

Definition chars (s : string) : list ascii := list_ascii_of_string s.

(** ExponentPart: [e] or [E], an optional sign, at least one digit, and
    nothing after it. *)
Definition read_exponent (s : list ascii) : option Z :=
  match s with
  | [] => Some 0
  | c :: r =>
      if (code c =? 101) || (code c =? 69) then
        let '(neg, r') :=
          match r with
          | s0 :: r' =>
              if code s0 =? 45 then (true, r')
              else if code s0 =? 43 then (false, r') else (false, r)
          | [] => (false, r)
          end in
        match read_digits 10 r' with
        | (d :: ds, []) =>
            let e := digits_value 10 (d :: ds) in
            Some (if neg then - e else e)
        | _ => None
        end
      else None
  end.

(** StrUnsignedDecimalLiteral. *)
Definition unsigned_decimal (s : list ascii) : number :=
  if decide (s = chars "Infinity") then Inf false
  else
    let '(ip, r1) := read_digits 10 s in
    let '(fp, r2) :=
      match r1 with
      | c :: r => if code c =? 46 then read_digits 10 r else ([], r1)
      | [] => ([], r1)
      end in
    match ip, fp with
    | [], [] => NaN
    | _, _ =>
        match read_exponent r2 with
        | Some e =>
            Fin (scale10 (digits_value 10 (ip ++ fp)) (e - Z.of_nat (length fp)))
        | None => NaN
        end
    end.

Definition negate (a : number) : number :=
  match a with
  | NaN => NaN
  | Inf n => Inf (negb n)
  | Fin q => Fin (- q)%Q
  end.

(** NonDecimalIntegerLiteral: [0x], [0o], [0b] in either case, unsigned. *)
Definition radix_prefix (s : list ascii) : option (Z * list ascii) :=
  match s with
  | z :: x :: r =>
      if code z =? 48 then
        let n := code x in
        if (n =? 120) || (n =? 88) then Some (16, r)
        else if (n =? 111) || (n =? 79) then Some (8, r)
        else if (n =? 98) || (n =? 66) then Some (2, r)
        else None
      else None
  | _ => None
  end.

(** [Number(s)] on a string (StringToNumber): surrounding white space is
    dropped, the empty string is [0], anything outside the numeric grammar
    is [NaN]. *)
Definition Number_chars (s : list ascii) : number :=
  match trim s with
  | [] => of_Z 0
  | c :: r =>
      match radix_prefix (c :: r) with
      | Some (radix, body) =>
          match read_digits radix body with
          | (d :: ds, []) => of_Z (digits_value radix (d :: ds))
          | _ => NaN
          end
      | None =>
          if code c =? 45 then negate (unsigned_decimal r)
          else if code c =? 43 then unsigned_decimal r
          else unsigned_decimal (c :: r)
      end
  end.

Definition Number (s : string) : number := Number_chars (chars s).

(** [s.split('.')]: never empty, [''.split('.')] is [['']]. *)
Fixpoint split_dot (s : string) : list string :=
  match s with
  | EmptyString => [EmptyString]
  | String c r =>
      if code c =? 46 then EmptyString :: split_dot r
      else match split_dot r with
           | h :: t => String c h :: t
           | [] => [String c EmptyString]
           end
  end.

End JS.

(** ** Version comparison ([module-manager.js], [compareVersions]) *)

Module Versions.
Import JS.

(** [parts[i] || 0]: an index past the end reads [undefined]; [undefined],
    [NaN] and [0] are falsy and give [0]. *)
Definition or_zero (part : option number) : number :=
  match part with
  | Some n => if num_truthy n then n else of_Z 0
  | None => of_Z 0
  end.

(** The [for] loop from index [i], with [n] iterations left. *)
Fixpoint compareVersions_loop (parts1 parts2 : list number) (n i : nat) : Z :=
  match n with
  | O => 0
  | S n' =>
      let part1 := or_zero (parts1 !! i) in
      let part2 := or_zero (parts2 !! i) in
      if num_gt part1 part2 then 1
      else if num_lt part1 part2 then -1
      else compareVersions_loop parts1 parts2 n' (S i)
  end.

Definition compareVersions (v1 v2 : string) : Z :=
  let parts1 := Number <$> split_dot v1 in
  let parts2 := Number <$> split_dot v2 in
  compareVersions_loop parts1 parts2
    (Nat.max (length parts1) (length parts2)) 0.

(** The part the loop compares at index [j]. *)
Definition part_at (parts : list number) (j : nat) : number :=
  or_zero (parts !! j).

(** *** The comparison the specification describes *)

(** A numeric component: a non-empty run of decimal digits, below 2^53
    (where JavaScript numbers are exact integers). *)
Definition component_value (s : string) : Z :=
  digits_value 10 (fst (read_digits 10 (chars s))).

Definition numeric_component (s : string) : bool :=
  negb (String.eqb s "") && forallb is_digit (chars s)
  && (component_value s <? 2 ^ 53).

Definition numeric_version (v : string) : bool :=
  forallb numeric_component (split_dot v).

Definition components (v : string) : list Z :=
  component_value <$> split_dot v.

(** Missing components are treated as 0. *)
Definition pad (n : nat) (l : list Z) : list Z :=
  l ++ replicate (n - length l) 0.

(** Component-wise numeric comparison, most significant first. *)
Fixpoint lex_compare (a b : list Z) : comparison :=
  match a, b with
  | x :: a', y :: b' =>
      match x ?= y with
      | Eq => lex_compare a' b'
      | c => c
      end
  | _, _ => Eq
  end.

Definition version_order (v1 v2 : string) : comparison :=
  let a := components v1 in
  let b := components v2 in
  let n := Nat.max (length a) (length b) in
  lex_compare (pad n a) (pad n b).

Definition sign_of (c : comparison) : Z :=
  match c with Gt => 1 | Lt => -1 | Eq => 0 end.

End Versions.


(** ** Code that throws: a state and exception monad *)

Module Effects.

Inductive result (A : Type) :=
  | Ok (a : A)
  | Throw (msg : string).
Arguments Ok {A} a.
Arguments Throw {A} msg.

(** A computation over a state [S]: the outcome and the state it leaves. *)
Definition M (S A : Type) : Type := S -> result A * S.

Definition ret {S A} (a : A) : M S A := fun s => (Ok a, s).

Definition bind {S A B} (c : M S A) (k : A -> M S B) : M S B :=
  fun s =>
    match c s with
    | (Ok a, s') => k a s'
    | (Throw msg, s') => (Throw msg, s')
    end.

Definition throw {S A} (msg : string) : M S A := fun s => (Throw msg, s).

(** [try { c } catch (error) { h error.message }] *)
Definition try_catch {S A} (c : M S A) (h : string -> M S A) : M S A :=
  fun s =>
    match c s with
    | (Ok a, s') => (Ok a, s')
    | (Throw msg, s') => h msg s'
    end.

Definition get {S} : M S S := fun s => (Ok s, s).
Definition gets {S A} (f : S -> A) : M S A := fun s => (Ok (f s), s).
Definition modify {S} (f : S -> S) : M S unit := fun s => (Ok tt, f s).

Definition when {S} (b : bool) (c : M S unit) : M S unit :=
  if b then c else ret tt.

End Effects.

Notation "'let*' x ':=' c 'in' k" := (Effects.bind c (fun x => k))
  (at level 10, x pattern, c at level 100, k at level 200,
   format "'[v' 'let*'  x  ':='  c  'in' '/' k ']'").
Notation "c ';;' k" := (Effects.bind c (fun _ => k))
  (at level 100, k at level 200, right associativity).

(** ** JavaScript collections *)

Module Collections.

(** [Array.prototype.findIndex]; [None] stands for [-1]. *)
Fixpoint findIndex {A} (p : A -> bool) (l : list A) : option nat :=
  match l with
  | [] => None
  | x :: r => if p x then Some O else S <$> findIndex p r
  end.

(** [Array.prototype.find]; [None] stands for [undefined]. *)
Fixpoint find {A} (p : A -> bool) (l : list A) : option A :=
  match l with
  | [] => None
  | x :: r => if p x then Some x else find p r
  end.

(** [l.splice(i, 1)]: the array without its element at index [i]. *)
Definition splice {A} (i : nat) (l : list A) : list A := delete i l.

(** A [Map] keeps its keys in insertion order; [set] on a key that is
    present replaces the value in place. *)
Section OrderedMap.
Context {K V : Type} `{EqDecision K}.

Definition Map_get (k : K) (m : list (K * V)) : option V :=
  snd <$> find (fun e => bool_decide (fst e = k)) m.

Definition Map_has (k : K) (m : list (K * V)) : bool :=
  bool_decide (is_Some (Map_get k m)).

Fixpoint Map_set (k : K) (v : V) (m : list (K * V)) : list (K * V) :=
  match m with
  | [] => [(k, v)]
  | e :: r => if decide (fst e = k) then (k, v) :: r else e :: Map_set k v r
  end.

Definition Map_delete (k : K) (m : list (K * V)) : list (K * V) :=
  filter (fun e => fst e <> k) m.

Definition Map_values (m : list (K * V)) : list V := snd <$> m.
End OrderedMap.

End Collections.

(** ** The download queue manager ([download-queue-manager.js]) *)

Module Downloads.
Import JS Effects Collections.

(** The argument of [addToQueue].  Of the keys that the object spread
    copies into the descriptor, these are the ones the manager reads. *)
Record DownloadInfo := {
  info_id : option string;
  info_name : option string;
  info_displayName : option string;
  info_downloadUrl : option string;
  info_version : option string;
}.

(** A download descriptor.  [status] is one of ['queued'], ['downloading'],
    ['paused'], ['complete'], ['error'], ['cancelled'].  Instants
    ([Date.now()], and the ISO strings of [new Date()]) are milliseconds. *)
Record Download := {
  id : string;
  name : option string;
  displayName : option string;
  downloadUrl : option string;
  version : option string;
  status : string;
  progress : Z;
  downloadedBytes : Z;
  totalBytes : Z;
  speed : number;
  timeRemaining : option number;
  addedAt : Z;
  startedAt : option Z;
  completedAt : option Z;
  error : option string;
  filePath : option string;
}.

(** Assignments to one field of a descriptor. *)
Definition set_status (v : string) (d : Download) : Download :=
  Build_Download (id d) (name d) (displayName d) (downloadUrl d) (version d)
    v (progress d) (downloadedBytes d) (totalBytes d) (speed d)
    (timeRemaining d) (addedAt d) (startedAt d) (completedAt d) (error d)
    (filePath d).
Definition set_progress (v : Z) (d : Download) : Download :=
  Build_Download (id d) (name d) (displayName d) (downloadUrl d) (version d)
    (status d) v (downloadedBytes d) (totalBytes d) (speed d)
    (timeRemaining d) (addedAt d) (startedAt d) (completedAt d) (error d)
    (filePath d).
Definition set_downloadedBytes (v : Z) (d : Download) : Download :=
  Build_Download (id d) (name d) (displayName d) (downloadUrl d) (version d)
    (status d) (progress d) v (totalBytes d) (speed d)
    (timeRemaining d) (addedAt d) (startedAt d) (completedAt d) (error d)
    (filePath d).
Definition set_totalBytes (v : Z) (d : Download) : Download :=
  Build_Download (id d) (name d) (displayName d) (downloadUrl d) (version d)
    (status d) (progress d) (downloadedBytes d) v (speed d)
    (timeRemaining d) (addedAt d) (startedAt d) (completedAt d) (error d)
    (filePath d).
Definition set_speed (v : number) (d : Download) : Download :=
  Build_Download (id d) (name d) (displayName d) (downloadUrl d) (version d)
    (status d) (progress d) (downloadedBytes d) (totalBytes d) v
    (timeRemaining d) (addedAt d) (startedAt d) (completedAt d) (error d)
    (filePath d).
Definition set_timeRemaining (v : option number) (d : Download) : Download :=
  Build_Download (id d) (name d) (displayName d) (downloadUrl d) (version d)
    (status d) (progress d) (downloadedBytes d) (totalBytes d) (speed d)
    v (addedAt d) (startedAt d) (completedAt d) (error d)
    (filePath d).
Definition set_startedAt (v : option Z) (d : Download) : Download :=
  Build_Download (id d) (name d) (displayName d) (downloadUrl d) (version d)
    (status d) (progress d) (downloadedBytes d) (totalBytes d) (speed d)
    (timeRemaining d) (addedAt d) v (completedAt d) (error d)
    (filePath d).
Definition set_completedAt (v : option Z) (d : Download) : Download :=
  Build_Download (id d) (name d) (displayName d) (downloadUrl d) (version d)
    (status d) (progress d) (downloadedBytes d) (totalBytes d) (speed d)
    (timeRemaining d) (addedAt d) (startedAt d) v (error d)
    (filePath d).
Definition set_error (v : option string) (d : Download) : Download :=
  Build_Download (id d) (name d) (displayName d) (downloadUrl d) (version d)
    (status d) (progress d) (downloadedBytes d) (totalBytes d) (speed d)
    (timeRemaining d) (addedAt d) (startedAt d) (completedAt d) v
    (filePath d).
Definition set_filePath (v : option string) (d : Download) : Download :=
  Build_Download (id d) (name d) (displayName d) (downloadUrl d) (version d)
    (status d) (progress d) (downloadedBytes d) (totalBytes d) (speed d)
    (timeRemaining d) (addedAt d) (startedAt d) (completedAt d) (error d)
    v.

(** References to descriptor objects, to [startDownload] invocations and
    to [downloadFile] invocations. *)
Abbreviation ref := nat.
Abbreviation task := nat.
Abbreviation req := nat.

(** An entry of [activeDownloads]: [{ download, abortController: null }],
    to which [downloadFile] adds [request]. *)
Record Handle := {
  download : ref;
  request : option req;
}.

(** What [store.set('download-queues', ...)] writes: the descriptors by
    value, as serialised at the call. *)
Record Queues := {
  q_scheduled : list Download;
  q_complete : list Download;
  q_upNext : list Download;
}.

(** The value of [getAllQueues()] at the time of the call. *)
Record AllQueues := {
  all_scheduled : list Download;
  all_upNext : list Download;
  all_complete : list Download;
  all_activeDownloads : list Download;
}.

(** Events emitted, with the payload as it is at the emission. *)
Inductive Event :=
  | queues_updated (queues : AllQueues)
  | download_started (d : Download)
  | download_progress (d : Download)
  | download_complete (d : Download)
  | download_error (d : Download)
  | download_paused (d : Download)
  | download_cancelled (d : Download).

(** Who awaits a [startDownload] invocation. *)
Inductive Caller :=
  | by_startNextDownload
  | by_resumeDownload.

Inductive TaskPhase :=
  | await_mkdir (downloadPath filePath : string)
  | await_downloadFile (filePath : string)
  | settled (outcome : result unit).

(** One invocation of [startDownload]. *)
Record Task := {
  task_download : ref;
  task_caller : Caller;
  task_phase : TaskPhase;
}.

Inductive StreamState :=
  | no_stream      (* before [createWriteStream] *)
  | stream_open
  | stream_closed. (* after [writeStream.close()] *)

#[global] Instance StreamState_eq_dec : EqDecision StreamState.
Proof. solve_decision. Defined.

(** One invocation of [downloadFile]: its arguments and the variables its
    callbacks close over.  All promises of a redirect chain settle the
    promise that the task awaits. *)
Record Transfer := {
  t_task : task;
  t_url : string;
  t_filePath : string;
  t_download : ref;
  t_https : bool;
  t_startTime : Z;
  t_lastUpdate : Z;
  t_totalBytes : Z;
  t_downloadedBytes : Z;
  t_destroyed : bool;
  t_stream : StreamState;
}.

(** The process environment. *)
Record Env := {
  settings_location : option string;   (* launcher-settings: downloads.location *)
  app_downloads : option string;       (* app.getPath('downloads'); None: it throws *)
  app_documents : string;              (* app.getPath('documents') *)
  OTH_STORE_URL : option string;       (* process.env.OTH_STORE_URL *)
}.

Record Manager := {
  env : Env;
  heap : list Download;                         (* descriptor objects, by reference *)
  scheduled : list ref;
  complete : list ref;
  upNext : list ref;
  activeDownloads : list (string * Handle);     (* Map *)
  pausedDownloads : gset string;                (* Set *)
  store_queues : option Queues;                 (* store key 'download-queues' *)
  emitted : list Event;                         (* oldest first *)
  tasks : list Task;
  transfers : list Transfer;
  files : gmap string Z;                        (* bytes on disk, by path *)
  timers : nat;                                 (* pending [setTimeout] callbacks *)
}.

Definition with_heap v (s : Manager) : Manager :=
  Build_Manager (env s) v (scheduled s) (complete s) (upNext s)
    (activeDownloads s) (pausedDownloads s) (store_queues s) (emitted s)
    (tasks s) (transfers s) (files s) (timers s).
Definition with_scheduled v (s : Manager) : Manager :=
  Build_Manager (env s) (heap s) v (complete s) (upNext s)
    (activeDownloads s) (pausedDownloads s) (store_queues s) (emitted s)
    (tasks s) (transfers s) (files s) (timers s).
Definition with_complete v (s : Manager) : Manager :=
  Build_Manager (env s) (heap s) (scheduled s) v (upNext s)
    (activeDownloads s) (pausedDownloads s) (store_queues s) (emitted s)
    (tasks s) (transfers s) (files s) (timers s).
Definition with_upNext v (s : Manager) : Manager :=
  Build_Manager (env s) (heap s) (scheduled s) (complete s) v
    (activeDownloads s) (pausedDownloads s) (store_queues s) (emitted s)
    (tasks s) (transfers s) (files s) (timers s).
Definition with_activeDownloads v (s : Manager) : Manager :=
  Build_Manager (env s) (heap s) (scheduled s) (complete s) (upNext s)
    v (pausedDownloads s) (store_queues s) (emitted s)
    (tasks s) (transfers s) (files s) (timers s).
Definition with_pausedDownloads v (s : Manager) : Manager :=
  Build_Manager (env s) (heap s) (scheduled s) (complete s) (upNext s)
    (activeDownloads s) v (store_queues s) (emitted s)
    (tasks s) (transfers s) (files s) (timers s).
Definition with_store_queues v (s : Manager) : Manager :=
  Build_Manager (env s) (heap s) (scheduled s) (complete s) (upNext s)
    (activeDownloads s) (pausedDownloads s) v (emitted s)
    (tasks s) (transfers s) (files s) (timers s).
Definition with_emitted v (s : Manager) : Manager :=
  Build_Manager (env s) (heap s) (scheduled s) (complete s) (upNext s)
    (activeDownloads s) (pausedDownloads s) (store_queues s) v
    (tasks s) (transfers s) (files s) (timers s).
Definition with_tasks v (s : Manager) : Manager :=
  Build_Manager (env s) (heap s) (scheduled s) (complete s) (upNext s)
    (activeDownloads s) (pausedDownloads s) (store_queues s) (emitted s)
    v (transfers s) (files s) (timers s).
Definition with_transfers v (s : Manager) : Manager :=
  Build_Manager (env s) (heap s) (scheduled s) (complete s) (upNext s)
    (activeDownloads s) (pausedDownloads s) (store_queues s) (emitted s)
    (tasks s) v (files s) (timers s).
Definition with_files v (s : Manager) : Manager :=
  Build_Manager (env s) (heap s) (scheduled s) (complete s) (upNext s)
    (activeDownloads s) (pausedDownloads s) (store_queues s) (emitted s)
    (tasks s) (transfers s) v (timers s).
Definition with_timers v (s : Manager) : Manager :=
  Build_Manager (env s) (heap s) (scheduled s) (complete s) (upNext s)
    (activeDownloads s) (pausedDownloads s) (store_queues s) (emitted s)
    (tasks s) (transfers s) (files s) v.

Definition Op (A : Type) : Type := M Manager A.

(** *** Descriptor objects *)

(** The objects a list of references denotes. *)
Definition objects (h : list Download) (q : list ref) : list Download :=
  omap (fun r => h !! r) q.

(** [download.field = v] on the object behind [r]. *)
Definition assign (r : ref) (f : Download -> Download) : Op unit :=
  modify (fun s => with_heap (alter f r (heap s)) s).

Definition read (r : ref) : Op (option Download) :=
  gets (fun s => heap s !! r).

(** [d => d.id === downloadId] on a queue of references. *)
Definition has_id (h : list Download) (downloadId : string) (r : ref) : bool :=
  bool_decide (id <$> h !! r = Some downloadId).

(** *** Queues: lines 23-156 *)

Definition getAllQueues (s : Manager) : AllQueues :=
  {| all_scheduled := objects (heap s) (scheduled s);
     all_upNext := objects (heap s) (upNext s);
     all_complete := objects (heap s) (complete s);
     all_activeDownloads :=
       objects (heap s) (download <$> Map_values (activeDownloads s)) |}.

Definition emit (e : Event) : Op unit :=
  modify (fun s => with_emitted (emitted s ++ [e]) s).

Definition saveQueues : Op unit :=
  modify (fun s =>
    with_store_queues
      (Some {| q_scheduled := objects (heap s) (scheduled s);
               q_complete := objects (heap s) (complete s);
               q_upNext := objects (heap s) (upNext s) |}) s) ;;
  let* s := get in
  emit (queues_updated (getAllQueues s)).

(** [a || b] on strings that may be [undefined]: the empty string is falsy. *)
Definition str_or (a : option string) (b : option string) : option string :=
  match a with
  | Some x => if String.eqb x "" then b else a
  | None => b
  end.

(** A value inside a template literal. *)
Definition template (a : option string) : string :=
  default "undefined" a.

Definition generateDownloadId (moduleInfo : DownloadInfo) (now : Z) : string :=
  template (str_or (info_id moduleInfo) (info_name moduleInfo))
    +:+ "-" +:+ pretty now.

(** [addToQueue]: in [{ id: generateDownloadId(info), ...info, status: ... }]
    the spread comes after [id], so an [id] key of [info] replaces the
    generated one; the keys written after the spread replace [info]'s. *)
Definition addToQueue (downloadInfo : DownloadInfo) (now : Z) : Op Download :=
  let download :=
    {| id := default (generateDownloadId downloadInfo now) (info_id downloadInfo);
       name := info_name downloadInfo;
       displayName := info_displayName downloadInfo;
       downloadUrl := info_downloadUrl downloadInfo;
       version := info_version downloadInfo;
       status := "queued";
       progress := 0;
       downloadedBytes := 0;
       totalBytes := 0;
       speed := of_Z 0;
       timeRemaining := None;
       addedAt := now;
       startedAt := None;
       completedAt := None;
       error := None;
       filePath := None |} in
  let* s := get in
  let r := length (heap s) in
  modify (with_heap (heap s ++ [download])) ;;
  modify (fun s => with_scheduled (scheduled s ++ [r]) s) ;;
  saveQueues ;;
  ret download.

Definition moveToUpNext (downloadId : string) : Op (option Download) :=
  let* s := get in
  match findIndex (has_id (heap s) downloadId) (scheduled s) with
  | None => throw "Download not found in scheduled queue"
  | Some index =>
      let download := scheduled s !! index in
      modify (fun s => with_scheduled (splice index (scheduled s)) s) ;;
      modify (fun s => with_upNext (upNext s ++ option_list download) s) ;;
      saveQueues ;;
      ret (download ≫= fun r => heap s !! r)
  end.

Definition moveToScheduled (downloadId : string) : Op (option Download) :=
  let* s := get in
  match findIndex (has_id (heap s) downloadId) (upNext s) with
  | None => throw "Download not found in up next queue"
  | Some index =>
      let download := upNext s !! index in
      modify (fun s => with_upNext (splice index (upNext s)) s) ;;
      modify (fun s => with_scheduled (scheduled s ++ option_list download) s) ;;
      saveQueues ;;
      ret (download ≫= fun r => heap s !! r)
  end.

(** [request.destroy()] *)
Definition destroy (r : req) : Op unit :=
  modify (fun s =>
    with_transfers
      (alter (fun t => Build_Transfer (t_task t) (t_url t) (t_filePath t)
                 (t_download t) (t_https t) (t_startTime t) (t_lastUpdate t)
                 (t_totalBytes t) (t_downloadedBytes t) true (t_stream t))
             r (transfers s)) s).

Definition cancelDownload (downloadId : string) : Op unit :=
  let* s := get in
  match Map_get downloadId (activeDownloads s) with
  | Some activeDownload =>
      match request activeDownload with
      | Some r => destroy r
      | None => ret tt
      end ;;
      modify (fun s =>
        with_activeDownloads (Map_delete downloadId (activeDownloads s)) s)
  | None => ret tt
  end ;;
  modify (fun s => with_pausedDownloads (pausedDownloads s ∖ {[downloadId]}) s) ;;
  let* s := get in
  match findIndex (has_id (heap s) downloadId) (upNext s) with
  | Some index =>
      match upNext s !! index with
      | Some download =>
          assign download (set_status "cancelled") ;;
          let* d := read download in
          match d with
          | Some d => emit (download_cancelled d)
          | None => ret tt
          end
      | None => ret tt
      end
  | None => ret tt
  end.

Definition removeFromQueue (downloadId : string) : Op bool :=
  let found := false in
  let* s := get in
  let* found :=
    match findIndex (has_id (heap s) downloadId) (scheduled s) with
    | Some index =>
        modify (fun s => with_scheduled (splice index (scheduled s)) s) ;;
        ret true
    | None => ret found
    end in
  let* s := get in
  let* found :=
    match findIndex (has_id (heap s) downloadId) (upNext s) with
    | Some index =>
        modify (fun s => with_upNext (splice index (upNext s)) s) ;;
        ret true
    | None => ret found
    end in
  let* s := get in
  let* found :=
    if Map_has downloadId (activeDownloads s)
    then cancelDownload downloadId ;; ret true
    else ret found in
  if found then saveQueues ;; ret true else ret false.

End Downloads.

(** ** Transfers: [startNextDownload], [startDownload], [downloadFile] *)

Module Transfers.
Import JS Effects Collections Downloads.

(** *** Numbers of the progress computation *)

(** [a / b] *)
Definition num_div (a b : number) : number :=
  match a, b with
  | NaN, _ | _, NaN => NaN
  | Inf _, Inf _ => NaN
  | Inf n, Fin q => Inf (if Qle_bool 0 q then n else negb n)
  | Fin _, Inf _ => of_Z 0
  | Fin p, Fin q =>
      if Qeq_bool q 0
      then (if Qeq_bool p 0 then NaN else Inf (negb (Qle_bool 0 p)))
      else Fin (p / q)%Q
  end.

(** [Math.round]: the nearest integer, halves upwards. *)
Definition Math_round (q : Q) : Z := Qfloor (q + (1 # 2))%Q.

(** *** Double precision

    The numbers of JavaScript are IEEE 754 doubles, and [/] and [*] round
    their exact result to the nearest double, a tie to the one with the
    even significand.  [binary64 q] is that double for the rational [q]:
    a significand of 53 bits and an exponent that is not bounded here, so
    it is the result of the operation wherever that is in the normal
    range, as the quotients and products of byte counts are. *)

(** The integer nearest to [n / d], a tie to the even one. *)
Definition round_half_even (n d : Z) : Z :=
  let k := n / d in
  match 2 * (n mod d) ?= d with
  | Lt => k
  | Gt => k + 1
  | Eq => if Z.even k then k else k + 1
  end.

(** [(a / b) / 2 ^ e] as a fraction of integers. *)
Definition scaled (a b e : Z) : Z * Z :=
  (a * 2 ^ Z.max 0 (- e), b * 2 ^ Z.max 0 e).

(** The exponent [e] of the last place of [a / b], for positive [a] and
    [b]: [2^52 <= (a / b) / 2^e < 2^53]. *)
Definition binary64_exponent (a b : Z) : Z :=
  let e := Z.log2 a - Z.log2 b - 52 in
  if 2 ^ 52 * snd (scaled a b e) <=? fst (scaled a b e) then e else e - 1.

Definition binary64_pos (a b : Z) : Q :=
  let e := binary64_exponent a b in
  let m := round_half_even (fst (scaled a b e)) (snd (scaled a b e)) in
  if 0 <=? e then inject_Z (m * 2 ^ e) else Qmake m (Z.to_pos (2 ^ (- e))).

Definition binary64 (q : Q) : Q :=
  match Qnum q with
  | 0 => 0%Q
  | Zpos a => binary64_pos (Zpos a) (Zpos (Qden q))
  | Zneg a => Qopp (binary64_pos (Zpos a) (Zpos (Qden q)))
  end.

(** [(downloadedBytes / totalBytes) * 100] on byte counts, which are
    integers below [2^53] and so doubles themselves. *)
Definition percentage (downloadedBytes totalBytes : Z) : Q :=
  binary64 (binary64 (inject_Z downloadedBytes / inject_Z totalBytes) * 100)%Q.

(** [parseInt(header, 10) || 0] on a header that may be absent. *)
Definition parseInt_or_zero (header : option string) : Z :=
  match header with
  | None => 0
  | Some h =>
      let s := drop_spaces (chars h) in
      let '(neg, body) :=
        match s with
        | c :: r => if code c =? 45 then (true, r)
                    else if code c =? 43 then (false, r) else (false, s)
        | [] => (false, s)
        end in
      match read_digits 10 body with
      | ([], _) => 0
      | (ds, _) => if neg then - digits_value 10 ds else digits_value 10 ds
      end
  end.

(** *** Paths *)

(** [path.join] of Node on POSIX, the platform whose paths the
    environments here use: the arguments that are not empty are joined
    by ['/'] and the result is normalised. *)

(** The pieces of a string between its ['/']. *)
Fixpoint path_segments (s : string) : list string :=
  match s with
  | EmptyString => [EmptyString]
  | String c r =>
      if code c =? 47 then EmptyString :: path_segments r
      else match path_segments r with
           | h :: t => String c h :: t
           | [] => [String c EmptyString]
           end
  end.

(** One segment more for [normalizeString]: empty segments and ['.']
    vanish; ['..'] takes the last segment away, and stays itself where
    there is none to take and the path is relative. *)
Definition normalize_segment (allowAboveRoot : bool) (res : list string)
    (segment : string) : list string :=
  if String.eqb segment "" || String.eqb segment "." then res
  else if String.eqb segment ".." then
    match last res with
    | Some l =>
        if String.eqb l ".." then (res ++ [".."])%list else removelast res
    | None => if allowAboveRoot then [".."] else []
    end
  else (res ++ [segment])%list.

Definition ends_with_slash (s : string) : bool :=
  match last (chars s) with
  | Some c => code c =? 47
  | None => false
  end.

(** [path.normalize] *)
Definition path_normalize (p : string) : string :=
  if String.eqb p "" then "."
  else
    let isAbsolute := String.prefix "/" p in
    let trailingSeparator := ends_with_slash p in
    let res :=
      String.concat "/"
        (fold_left (normalize_segment (negb isAbsolute)) (path_segments p) []) in
    if String.eqb res "" then
      (if isAbsolute then "/" else if trailingSeparator then "./" else ".")
    else
      let res := if trailingSeparator then res +:+ "/" else res in
      if isAbsolute then "/" +:+ res else res.

Definition path_join_all (paths : list string) : string :=
  match List.filter (fun p => negb (String.eqb p "")) paths with
  | [] => "."
  | parts => path_normalize (String.concat "/" parts)
  end.

Definition path_join (dir file : string) : string := path_join_all [dir; file].

(** [s.replace(/[^a-z0-9]/gi, '_')] *)
Definition sanitize_char (c : ascii) : ascii :=
  let n := code c in
  if ((48 <=? n) && (n <=? 57)) || ((65 <=? n) && (n <=? 90))
     || ((97 <=? n) && (n <=? 122))
  then c else "_"%char.

Fixpoint sanitize (s : string) : string :=
  match s with
  | EmptyString => EmptyString
  | String c r => String (sanitize_char c) (sanitize r)
  end.

Definition fileName_of (d : Download) : string :=
  sanitize (default "download" (str_or (name d) (Some "download")))
    +:+ "-v" +:+ default "1.0.0" (str_or (version d) (Some "1.0.0")) +:+ ".zip".

Definition downloadPath_of (e : Env) : string :=
  match str_or (settings_location e) None with
  | Some location => location
  | None =>
      match app_downloads e with
      | Some p => p
      | None => path_join_all [app_documents e; "OTH Downloads"; "Modules"]
      end
  end.

(** *** Bookkeeping of tasks and transfers *)

Definition on_object (r : ref) (k : Download -> Op unit) : Op unit :=
  let* d := read r in
  match d with
  | Some d => k d
  | None => ret tt
  end.

Definition set_phase (k : task) (p : TaskPhase) : Op unit :=
  modify (fun s =>
    with_tasks
      (alter (fun t => Build_Task (task_download t) (task_caller t) p) k
             (tasks s)) s).

Definition update_transfer (r : req) (f : Transfer -> Transfer) : Op unit :=
  modify (fun s => with_transfers (alter f r (transfers s)) s).

Definition set_stream (v : StreamState) (t : Transfer) : Transfer :=
  Build_Transfer (t_task t) (t_url t) (t_filePath t) (t_download t)
    (t_https t) (t_startTime t) (t_lastUpdate t) (t_totalBytes t)
    (t_downloadedBytes t) (t_destroyed t) v.
Definition set_counters (total downloaded : Z) (t : Transfer) : Transfer :=
  Build_Transfer (t_task t) (t_url t) (t_filePath t) (t_download t)
    (t_https t) (t_startTime t) (t_lastUpdate t) total downloaded
    (t_destroyed t) (t_stream t).
Definition set_lastUpdate (v : Z) (t : Transfer) : Transfer :=
  Build_Transfer (t_task t) (t_url t) (t_filePath t) (t_download t)
    (t_https t) (t_startTime t) v (t_totalBytes t)
    (t_downloadedBytes t) (t_destroyed t) (t_stream t).

(** *** [startDownload]: lines 193-269 *)

(** Up to the first [await] ([fs.mkdir]). *)
Definition startDownload (download : ref) (caller : Caller) (now : Z) : Op task :=
  assign download (set_status "downloading") ;;
  assign download (set_startedAt (Some now)) ;;
  saveQueues ;;
  on_object download (fun d =>
    modify (fun s =>
      with_activeDownloads
        (Map_set (id d) {| download := download; request := None |}
                 (activeDownloads s)) s) ;;
    emit (download_started d)) ;;
  let* s := get in
  let* d := read download in
  let downloadPath := downloadPath_of (env s) in
  let filePath :=
    path_join downloadPath (from_option fileName_of "download-v1.0.0.zip" d) in
  let k := length (tasks s) in
  modify (with_tasks
    (tasks s ++ [{| task_download := download; task_caller := caller;
                    task_phase := await_mkdir downloadPath filePath |}])) ;;
  ret k.

(** The [catch] block of [startDownload], and the one of
    [startNextDownload] around it when that is the caller. *)
Definition startDownload_failed (k : task) (message : string) : Op unit :=
  let* s := get in
  match tasks s !! k with
  | None => ret tt
  | Some t =>
      let download := task_download t in
      assign download (set_status "error") ;;
      assign download (set_error (Some message)) ;;
      on_object download (fun d =>
        modify (fun s =>
          with_activeDownloads (Map_delete (id d) (activeDownloads s)) s)) ;;
      saveQueues ;;
      on_object download (fun d => emit (download_error d)) ;;
      set_phase k (settled (Throw message)) ;;
      match task_caller t with
      | by_startNextDownload =>
          assign download (set_status "error") ;;
          assign download (set_error (Some message)) ;;
          saveQueues ;;
          on_object download (fun d => emit (download_error d))
      | by_resumeDownload => ret tt
      end
  end.

(** After [await this.downloadFile(...)] has resolved. *)
Definition startDownload_completed (k : task) (filePath : string) (now : Z)
  : Op unit :=
  let* s := get in
  match tasks s !! k with
  | None => ret tt
  | Some t =>
      let download := task_download t in
      assign download (set_status "complete") ;;
      assign download (set_progress 100) ;;
      assign download (set_completedAt (Some now)) ;;
      assign download (set_filePath (Some filePath)) ;;
      on_object download (fun d =>
        let* s := get in
        match findIndex (has_id (heap s) (id d)) (upNext s) with
        | Some index =>
            modify (fun s => with_upNext (splice index (upNext s)) s)
        | None => ret tt
        end) ;;
      modify (fun s => with_complete (download :: complete s) s) ;;
      on_object download (fun d =>
        modify (fun s =>
          with_activeDownloads (Map_delete (id d) (activeDownloads s)) s)) ;;
      saveQueues ;;
      on_object download (fun d => emit (download_complete d)) ;;
      modify (fun s => with_timers (S (timers s)) s) ;;
      set_phase k (settled (Ok tt))
  end.

(** [resolve()] and [reject(error)] of a [downloadFile] promise: they
    settle the promise the task awaits, once. *)
Definition resolve (k : task) (now : Z) : Op unit :=
  let* s := get in
  match task_phase <$> tasks s !! k with
  | Some (await_downloadFile filePath) => startDownload_completed k filePath now
  | _ => ret tt
  end.

Definition reject (k : task) (message : string) : Op unit :=
  let* s := get in
  match task_phase <$> tasks s !! k with
  | Some (await_downloadFile _) => startDownload_failed k message
  | _ => ret tt
  end.

(** *** [downloadFile]: lines 274-364 *)

(** The promise executor: issue the request and record it in the active
    handle. *)
Definition downloadFile (url filePath : string) (download : ref) (k : task)
    (now : Z) : Op req :=
  let* s := get in
  let r := length (transfers s) in
  modify (with_transfers
    (transfers s ++
       [{| t_task := k; t_url := url; t_filePath := filePath;
           t_download := download; t_https := String.prefix "https" url;
           t_startTime := now; t_lastUpdate := now;
           t_totalBytes := 0; t_downloadedBytes := 0;
           t_destroyed := false; t_stream := no_stream |}])) ;;
  on_object download (fun d =>
    let* s := get in
    match Map_get (id d) (activeDownloads s) with
    | Some activeDownload =>
        modify (fun s =>
          with_activeDownloads
            (Map_set (id d) {| download := Downloads.download activeDownload;
                               request := Some r |}
                     (activeDownloads s)) s)
    | None => ret tt
    end) ;;
  ret r.

(** The callback of [protocol.get]. *)
Definition on_response (r : req) (statusCode : Z) (location : option string)
    (content_length : option string) (now : Z) : Op unit :=
  let* s := get in
  match transfers s !! r with
  | None => ret tt
  | Some t =>
      if (statusCode =? 302) || (statusCode =? 301) then
        match str_or location None with
        | Some redirectUrl =>
            downloadFile redirectUrl (t_filePath t) (t_download t) (t_task t) now ;;
            ret tt
        | None => reject (t_task t) "Redirect location not found"
        end
      else if negb (statusCode =? 200) then
        reject (t_task t) ("Download failed with status " +:+ pretty statusCode)
      else
        let totalBytes := parseInt_or_zero content_length in
        update_transfer r (set_counters totalBytes 0) ;;
        assign (t_download t) (set_totalBytes totalBytes) ;;
        (* createWriteStream(filePath) *)
        update_transfer r (set_stream stream_open) ;;
        modify (fun s => with_files (<[t_filePath t := 0]> (files s)) s)
  end.

(** The body of [if (now - lastUpdate >= 500)] in the data listener:
    speed, time remaining, and a progress event. *)
Definition throttled_update (r : req) (t : Transfer) (downloadedBytes now : Z)
  : Op unit :=
  let totalBytes := t_totalBytes t in
  let elapsed := num_div (of_Z (now - t_startTime t)) (of_Z 1000) in
  let speed := num_div (of_Z downloadedBytes) elapsed in
  assign (t_download t) (set_speed speed) ;;
  when ((0 <? totalBytes) && num_gt speed (of_Z 0))
    (let remainingBytes := totalBytes - downloadedBytes in
     assign (t_download t)
       (set_timeRemaining (Some (num_div (of_Z remainingBytes) speed)))) ;;
  update_transfer r (set_lastUpdate now) ;;
  saveQueues ;;
  on_object (t_download t) (fun d => emit (download_progress d)).

(** The listener that [response.pipe(writeStream)] adds: the chunk goes to
    the file while the stream is open. *)
Definition pipe_write (r : req) (t : Transfer) (chunk_length : Z) : Op unit :=
  let* s := get in
  when (bool_decide ((t_stream <$> transfers s !! r) = Some stream_open))
    (modify (fun s =>
       with_files (alter (Z.add chunk_length) (t_filePath t) (files s)) s)).

(** What the listener of [writeStream.on('error', ...)] does: the
    partial file is deleted and the promise rejected. *)
Definition stream_failed (t : Transfer) (message : string) : Op unit :=
  modify (fun s => with_files (delete (t_filePath t) (files s)) s) ;;
  reject (t_task t) message.

(** [response.on('data', ...)], then the listener of [response.pipe],
    which was added later and gets the same chunk.  In the paused branch
    the data listener has closed the stream by then: the write of [pipe]
    comes after the end, the stream raises an error for it, and its error
    listener deletes the file; the promise is rejected already. *)
Definition on_data (r : req) (chunk_length : Z) (now : Z) : Op unit :=
  let* s := get in
  match transfers s !! r with
  | None => ret tt
  | Some t =>
      if bool_decide (t_stream t = no_stream) || t_destroyed t then ret tt
      else
        let* d := read (t_download t) in
        if bool_decide (from_option id "" d ∈ pausedDownloads s) then
          destroy r ;;
          update_transfer r (set_stream stream_closed) ;;
          reject (t_task t) "Download paused" ;;
          stream_failed t "write after end"
        else
          let totalBytes := t_totalBytes t in
          let downloadedBytes := t_downloadedBytes t + chunk_length in
          update_transfer r (set_counters totalBytes downloadedBytes) ;;
          assign (t_download t) (set_downloadedBytes downloadedBytes) ;;
          when (0 <? totalBytes)
            (assign (t_download t)
               (set_progress
                  (Math_round (percentage downloadedBytes totalBytes)))) ;;
          when (500 <=? now - t_lastUpdate t)
            (throttled_update r t downloadedBytes now) ;;
          pipe_write r t chunk_length
  end.

(** [writeStream.on('finish', ...)] *)
Definition on_finish (r : req) (now : Z) : Op unit :=
  let* s := get in
  match transfers s !! r with
  | None => ret tt
  | Some t =>
      if bool_decide (t_stream t = no_stream) then ret tt
      else
        update_transfer r (set_stream stream_closed) ;;
        resolve (t_task t) now
  end.

(** [writeStream.on('error', ...)]: the partial file is deleted. *)
Definition on_stream_error (r : req) (message : string) : Op unit :=
  let* s := get in
  match transfers s !! r with
  | None => ret tt
  | Some t =>
      if bool_decide (t_stream t = no_stream) then ret tt
      else stream_failed t message
  end.

(** [request.on('error', ...)] *)
Definition on_request_error (r : req) (message : string) : Op unit :=
  let* s := get in
  match transfers s !! r with
  | None => ret tt
  | Some t => reject (t_task t) message
  end.

(** [await fs.mkdir(...)] has returned: the rest of the [try] block up to
    [await this.downloadFile(...)]. *)
Definition on_mkdir (k : task) (failure : option string) (now : Z) : Op unit :=
  let* s := get in
  match tasks s !! k with
  | Some {| task_download := download;
            task_phase := await_mkdir downloadPath filePath |} =>
      match failure with
      | Some message => startDownload_failed k message
      | None =>
          let baseUrl :=
            default "http://localhost:3000"
              (str_or (OTH_STORE_URL (env s)) (Some "http://localhost:3000")) in
          match heap s !! download ≫= downloadUrl with
          | None =>
              startDownload_failed k
                "Cannot read properties of undefined (reading 'startsWith')"
          | Some url =>
              let fullUrl :=
                if String.prefix "/" url then baseUrl +:+ url else url in
              downloadFile fullUrl filePath download k now ;;
              set_phase k (await_downloadFile filePath)
          end
      end
  | _ => ret tt
  end.

(** *** [startNextDownload], pause, resume: lines 161-188, 369-405 *)

(** The value an [async] call has produced so far. *)
Inductive Started :=
  | returned_null
  | awaiting (k : task).

Definition startNextDownload (now : Z) : Op Started :=
  let* s := get in
  match upNext s with
  | [] => ret returned_null
  | download :: _ =>
      if Map_has (from_option id "" (heap s !! download)) (activeDownloads s)
      then ret returned_null
      else
        let* k := startDownload download by_startNextDownload now in
        ret (awaiting k)
  end.

Definition pauseDownload (downloadId : string) : Op (option Download) :=
  let* s := get in
  match Map_get downloadId (activeDownloads s) with
  | None => throw "Download not active"
  | Some activeDownload =>
      modify (fun s =>
        with_pausedDownloads ({[downloadId]} ∪ pausedDownloads s) s) ;;
      let download := Downloads.download activeDownload in
      assign download (set_status "paused") ;;
      saveQueues ;;
      on_object download (fun d => emit (download_paused d)) ;;
      read download
  end.

Definition resumeDownload (downloadId : string) (now : Z) : Op task :=
  let* s := get in
  if negb (bool_decide (downloadId ∈ pausedDownloads s))
  then throw "Download not paused"
  else
    modify (fun s =>
      with_pausedDownloads (pausedDownloads s ∖ {[downloadId]}) s) ;;
    match find (has_id (heap s) downloadId) (upNext s) with
    | None => throw "Download not found"
    | Some download => startDownload download by_resumeDownload now
    end.

(** The callback of [setTimeout(..., 500)] after a completed download. *)
Definition on_timer (now : Z) : Op unit :=
  let* s := get in
  match timers s with
  | O => ret tt
  | S n =>
      modify (with_timers n) ;;
      startNextDownload now ;;
      ret tt
  end.

(** *** The rest of the interface: lines 435-498 *)

Definition clearCompleted : Op unit :=
  modify (with_complete []) ;;
  saveQueues.

Definition removeFromCompleted (downloadId : string) : Op bool :=
  let* s := get in
  match findIndex (has_id (heap s) downloadId) (complete s) with
  | Some index =>
      modify (fun s => with_complete (splice index (complete s)) s) ;;
      saveQueues ;;
      ret true
  | None => ret false
  end.

Definition getDownload (downloadId : string) (s : Manager) : option Download :=
  let lookup q := find (has_id (heap s) downloadId) q ≫= fun r => heap s !! r in
  match lookup (scheduled s) with
  | Some d => Some d
  | None =>
    match lookup (upNext s) with
    | Some d => Some d
    | None =>
      match lookup (complete s) with
      | Some d => Some d
      | None =>
          Map_get downloadId (activeDownloads s)
            ≫= fun h => heap s !! download h
      end
    end
  end.

(** The constructor on a store without saved queues. *)
Definition new_manager (e : Env) : Manager :=
  {| env := e; heap := []; scheduled := []; complete := []; upNext := [];
     activeDownloads := []; pausedDownloads := ∅; store_queues := None;
     emitted := []; tasks := []; transfers := []; files := ∅; timers := O |}.

(** *** Runs *)

(** Calls of the interface and callbacks of the runtime, each with the
    value of [Date.now()] where the code reads it. *)
Inductive Action :=
  | call_addToQueue (info : DownloadInfo) (now : Z)
  | call_moveToUpNext (downloadId : string)
  | call_moveToScheduled (downloadId : string)
  | call_removeFromQueue (downloadId : string)
  | call_startNextDownload (now : Z)
  | call_pauseDownload (downloadId : string)
  | call_resumeDownload (downloadId : string) (now : Z)
  | call_cancelDownload (downloadId : string)
  | mkdir_returned (k : task) (failure : option string) (now : Z)
  | response (r : req) (statusCode : Z) (location content_length : option string)
      (now : Z)
  | data (r : req) (chunk_length : Z) (now : Z)
  | finish (r : req) (now : Z)
  | stream_error (r : req) (message : string)
  | request_error (r : req) (message : string)
  | timer (now : Z).

(** One action; what a call returns or throws is dropped, the state it
    leaves is kept. *)
Definition step (a : Action) (s : Manager) : Manager :=
  match a with
  | call_addToQueue info now => snd (addToQueue info now s)
  | call_moveToUpNext i => snd (moveToUpNext i s)
  | call_moveToScheduled i => snd (moveToScheduled i s)
  | call_removeFromQueue i => snd (removeFromQueue i s)
  | call_startNextDownload now => snd (startNextDownload now s)
  | call_pauseDownload i => snd (pauseDownload i s)
  | call_resumeDownload i now => snd (resumeDownload i now s)
  | call_cancelDownload i => snd (cancelDownload i s)
  | mkdir_returned k failure now => snd (on_mkdir k failure now s)
  | response r c l n now => snd (on_response r c l n now s)
  | data r n now => snd (on_data r n now s)
  | finish r now => snd (on_finish r now s)
  | stream_error r m => snd (on_stream_error r m s)
  | request_error r m => snd (on_request_error r m s)
  | timer now => snd (on_timer now s)
  end.

Definition run (actions : list Action) (s : Manager) : Manager :=
  fold_left (fun s a => step a s) actions s.

(** The ids of the descriptors in a queue. *)
Definition ids (s : Manager) (q : list ref) : list string :=
  id <$> objects (heap s) q.

End Transfers.

(** ** JavaScript values and objects *)

Module Values.

(** The values of manifests (parsed JSON), of installation records and of
    the metadata handed to [installModule]; numbers are integers here. *)
Inductive jsval :=
  | undefined
  | null
  | boolean (b : bool)
  | num (z : Z)
  | str (s : string).

#[global] Instance jsval_eq_dec : EqDecision jsval.
Proof. solve_decision. Defined.

#[global] Instance jsval_countable : Countable jsval.
Proof.
  refine (inj_countable'
    (fun v => match v with
              | undefined => inl (inl tt)
              | null => inl (inr tt)
              | boolean b => inr (inl b)
              | num z => inr (inr (inl z))
              | str s => inr (inr (inr s))
              end)
    (fun e => match e with
              | inl (inl _) => undefined
              | inl (inr _) => null
              | inr (inl b) => boolean b
              | inr (inr (inl z)) => num z
              | inr (inr (inr s)) => str s
              end) _).
  intros []; reflexivity.
Defined.

(** An object: its own keys and their values. *)
Abbreviation object := (gmap string jsval).

(** [o[k]]: a missing key reads [undefined]. *)
Definition get (o : object) (k : string) : jsval := default undefined (o !! k).

(** ToBoolean *)
Definition truthy (v : jsval) : bool :=
  match v with
  | undefined | null => false
  | boolean b => b
  | num z => negb (z =? 0)
  | str s => negb (String.eqb s "")
  end.

(** [a === b] *)
Definition strict_eq (a b : jsval) : bool := bool_decide (a = b).

(** ToString, as in a template literal. *)
Definition to_string (v : jsval) : string :=
  match v with
  | undefined => "undefined"
  | null => "null"
  | boolean true => "true"
  | boolean false => "false"
  | num z => pretty z
  | str s => s
  end.

(** [{ ...a, ...b }]: the keys of [b] win. *)
Definition spread (a b : object) : object := b ∪ a.

End Values.

(** ** The file system under the modules directory *)

Module FS.
Import Effects Values.

(** An absolute, normalised path: its segments. *)
Abbreviation path := (list string).

(** A file: its size, and the object [JSON.parse] makes of its text when
    it does. *)
Record FileData := {
  size : Z;
  json : option object;
}.

(** A zip archive: the files it holds, by sanitised relative path. *)
Abbreviation entries := (list (path * FileData)).

Inductive Node :=
  | directory
  | file (f : FileData)
  | archive (a : entries).

#[global] Instance FileData_eq_dec : EqDecision FileData.
Proof. solve_decision. Defined.
#[global] Instance Node_eq_dec : EqDecision Node.
Proof. solve_decision. Defined.

Abbreviation fs := (gmap path Node).

(** [path.join(base, s)] on POSIX: [s] is cut at ['/'], empty and ['.']
    segments vanish, ['..'] climbs. *)
Fixpoint split_slash (s : string) : list string :=
  match s with
  | EmptyString => [EmptyString]
  | String c r =>
      if JS.code c =? 47 then EmptyString :: split_slash r
      else match split_slash r with
           | h :: t => String c h :: t
           | [] => [String c EmptyString]
           end
  end.

Definition join_segment (p : path) (seg : string) : path :=
  if String.eqb seg "" || String.eqb seg "." then p
  else if String.eqb seg ".." then removelast p
  else (p ++ [seg])%list.

Definition path_join (base : path) (s : string) : path :=
  fold_left join_segment (split_slash s) base.

(** The string of a path. *)
Definition render (p : path) : string :=
  match p with
  | [] => "/"
  | _ => String.concat "" ((fun seg => "/" +:+ seg) <$> p)
  end.

(** The path a string denotes. *)
Definition parse (s : string) : path := path_join [] s.

Definition is_directory (t : fs) (p : path) : bool :=
  bool_decide (t !! p = Some directory).

(** The prefixes of a path, shortest first, the root left out. *)
Definition ancestors_and_self (p : path) : list path :=
  (fun n => take (S n) p) <$> seq 0 (length p).

(** [fs.mkdir(p, { recursive: true })] *)
Definition mkdir_p (p : path) (t : fs) : result unit * fs :=
  if forallb (fun q => bool_decide (t !! q = None) || is_directory t q)
             (ancestors_and_self p)
  then (Ok tt,
        foldr (fun q t => if bool_decide (t !! q = None)
                          then <[q := directory]> t else t)
              t (ancestors_and_self p))
  else (Throw "EEXIST: file already exists, mkdir", t).

(** [fs.rm(p, { recursive: true, force: true })] *)
Definition rm_rf (p : path) (t : fs) : fs :=
  filter (fun kv => ¬ p `prefix_of` kv.1) t.

(** Whether something lies strictly below [p]. *)
Definition non_empty (t : fs) (p : path) : bool :=
  bool_decide (Exists (fun q => p `prefix_of` q ∧ q ≠ p) (map_to_list t).*1).

(** [fs.rename(src, dst)]: the tree at [src] is re-rooted at [dst]. *)
Definition rename (src dst : path) (t : fs) : result unit * fs :=
  if bool_decide (t !! src = None)
  then (Throw "ENOENT: no such file or directory, rename", t)
  else if negb (is_directory t (removelast dst))
  then (Throw "ENOENT: no such file or directory, rename", t)
  else if bool_decide (src `prefix_of` dst)
  then (Throw "EINVAL: invalid argument, rename", t)
  else if negb (bool_decide (t !! dst = None))
          && negb (is_directory t src && is_directory t dst
                   && negb (non_empty t dst))
  then (Throw "ENOTEMPTY: directory not empty, rename", t)
  else
    let moved :=
      omap (fun kv : path * Node =>
              if bool_decide (src `prefix_of` kv.1)
              then Some ((dst ++ drop (length src) kv.1)%list, kv.2) else None)
           (map_to_list t) in
    (Ok tt, list_to_map moved ∪ rm_rf src t).

(** [fs.unlink(p)] *)
Definition unlink (p : path) (t : fs) : result unit * fs :=
  match t !! p with
  | Some (file _) | Some (archive _) => (Ok tt, delete p t)
  | _ => (Throw "ENOENT: no such file or directory, unlink", t)
  end.

(** [fs.readdir(p)]: the names directly below [p]. *)
Definition readdir (p : path) (t : fs) : result (list string) :=
  if is_directory t p
  then Ok (omap (fun q : path =>
                   if bool_decide (p `prefix_of` q)
                   then match drop (length p) q with
                        | [n] => Some n
                        | _ => None
                        end
                   else None)
                (map_to_list t).*1)
  else Throw "ENOENT: no such file or directory, scandir".

(** [zip.extractAllTo(target, true)] *)
Definition extractAllTo (a : entries) (target : path) (t : fs) : fs :=
  foldl (fun t e =>
           let p := (target ++ e.1)%list in
           <[p := file e.2]> (snd (mkdir_p (removelast p) t)))
        t a.

(** The sizes of the files below [p], as [calculateDirSize] adds them up;
    [0] when [p] cannot be listed. *)
Definition dir_size (p : path) (t : fs) : Z :=
  if is_directory t p
  then foldr Z.add 0
         (omap (fun kv : path * Node =>
                  if bool_decide (p `prefix_of` kv.1)
                  then match kv.2 with
                       | file f => Some (size f)
                       | _ => None
                       end
                  else None)
               (map_to_list t))
  else 0.

End FS.

(** ** The module manager ([module-manager.js]) *)

Module Modules.
Import Effects Collections Values FS.

(** A loaded tool: what calling its [cleanup] does, when it has one
    ([Some None]: it returns, [Some (Some msg)]: it throws). *)
Record Tool := {
  cleanup : option (option string);
}.

Record State := {
  userData : path;                          (* app.getPath('userData') *)
  files : fs;
  store_installed : list object;            (* store key 'installed-modules' *)
  installedModules : gmap jsval object;     (* Map, by module id *)
  activeModules : gmap jsval object;        (* Map, by module id *)
  loadedTools : gmap jsval Tool;            (* toolLoader.loadedTools *)
  toolWindows : gset jsval;                 (* toolLoader.toolWindows *)
  hotkeys : bool;                           (* some global shortcut is registered *)
}.

Definition with_files v (s : State) : State :=
  Build_State (userData s) v (store_installed s) (installedModules s)
    (activeModules s) (loadedTools s) (toolWindows s) (hotkeys s).
Definition with_store_installed v (s : State) : State :=
  Build_State (userData s) (files s) v (installedModules s)
    (activeModules s) (loadedTools s) (toolWindows s) (hotkeys s).
Definition with_installedModules v (s : State) : State :=
  Build_State (userData s) (files s) (store_installed s) v
    (activeModules s) (loadedTools s) (toolWindows s) (hotkeys s).
Definition with_activeModules v (s : State) : State :=
  Build_State (userData s) (files s) (store_installed s) (installedModules s)
    v (loadedTools s) (toolWindows s) (hotkeys s).
Definition with_loader tools windows keys (s : State) : State :=
  Build_State (userData s) (files s) (store_installed s) (installedModules s)
    (activeModules s) tools windows keys.

Definition Op (A : Type) : Type := M State A.

(** A file-system call: its effect on [files] and what it throws. *)
Definition fs_call {A} (f : fs -> result A * fs) : Op A :=
  fun s => let '(r, t) := f (files s) in (r, with_files t s).

Definition modulesDir (s : State) : path := (userData s ++ ["modules"])%list.

(** *** [validateManifest]: lines 59-73 *)

Definition required : list string :=
  ["id"; "name"; "version"; "category"; "author"].

Definition validCategories : list jsval :=
  [str "themes"; str "plugins"; str "tools"; str "integrations"].

Definition join_comma (l : list string) : string := String.concat ", " l.

Definition validateManifest (manifest : object) : Op bool :=
  let missing := List.filter (fun field => negb (truthy (get manifest field)))
                   required in
  if (0 <? length missing)%nat
  then throw ("Invalid manifest: missing fields " +:+ join_comma missing)
  else if negb (bool_decide (get manifest "category" ∈ validCategories))
  then throw ("Invalid category: " +:+ to_string (get manifest "category"))
  else ret true.

(** *** The registry: lines 359-387 *)

Definition getInstalledModule (moduleId : jsval) : Op (option object) :=
  let* s := Effects.get in
  match installedModules s !! moduleId with
  | Some module => ret (Some module)
  | None =>
      match find (fun m => strict_eq (get m "id") moduleId) (store_installed s) with
      | Some module =>
          modify (fun s =>
            with_installedModules (<[moduleId := module]> (installedModules s)) s) ;;
          ret (Some module)
      | None => ret None
      end
  end.

Definition getInstalledModules : Op (list object) :=
  let* s := Effects.get in
  let modules := store_installed s in
  modify (fun s =>
    with_installedModules
      (foldl (fun im module => <[get module "id" := module]> im)
             (installedModules s) modules) s) ;;
  ret modules.

(** *** Disabling and uninstalling: lines 176-212, 261-300, 341-354 *)

(** [toolLoader.unloadTool(moduleId)] *)
Definition unloadTool (moduleId : jsval) : Op unit :=
  let* s := Effects.get in
  match loadedTools s !! moduleId with
  | None => ret tt
  | Some tool =>
      match cleanup tool with
      | Some (Some message) => throw message
      | _ => ret tt
      end ;;
      modify (fun s =>
        with_loader (delete moduleId (loadedTools s))
                    (toolWindows s ∖ {[moduleId]}) false s)
  end.

Definition unloadModule (module : object) : Op unit :=
  if strict_eq (get module "category") (str "tools")
  then unloadTool (get module "id")
  else ret tt.

Definition disableModule (moduleId : jsval) : Op string :=
  let* module := getInstalledModule moduleId in
  match module with
  | None => throw "Module not found"
  | Some module =>
      if negb (truthy (get module "enabled"))
      then ret "Module already disabled"
      else
        unloadModule module ;;
        modify (fun s =>
          with_store_installed
            ((fun m => if strict_eq (get m "id") moduleId
                       then <["enabled" := boolean false]> m else m)
               <$> store_installed s) s) ;;
        let module := <["enabled" := boolean false]> module in
        modify (fun s =>
          with_installedModules (<[moduleId := module]> (installedModules s)) s) ;;
        modify (fun s =>
          with_activeModules (delete moduleId (activeModules s)) s) ;;
        ret (to_string (get module "displayName") +:+ " disabled successfully")
  end.

Definition uninstallModule (moduleId : jsval) : Op string :=
  let* module := getInstalledModule moduleId in
  match module with
  | None => throw "Module not found"
  | Some module =>
      (if truthy (get module "enabled")
       then disableModule moduleId ;; ret tt
       else ret tt) ;;
      (if truthy (get module "installPath")
       then match get module "installPath" with
            | str installPath =>
                modify (fun s => with_files (rm_rf (parse installPath) (files s)) s)
            | _ => throw "The path argument must be of type string"
            end
       else ret tt) ;;
      modify (fun s =>
        with_store_installed
          (List.filter (fun m => negb (strict_eq (get m "id") moduleId))
             (store_installed s)) s) ;;
      modify (fun s =>
        with_installedModules (delete moduleId (installedModules s)) s) ;;
      ret (to_string (get module "displayName") +:+ " uninstalled successfully")
  end.

(** *** [installModule]: lines 78-171 *)

(** [path.join(dir, v)] on a value: anything but a string throws. *)
Definition join_value (dir : path) (v : jsval) : Op path :=
  match v with
  | str s => ret (path_join dir s)
  | _ => throw "The path argument must be of type string"
  end.

(** Steps 1 to 3: extract the archive into a fresh staging directory,
    read the manifest and validate it. *)
Definition stage (filePath : path) (now : Z) : Op (path * object) :=
  let* s := Effects.get in
  let* zip :=
    match files s !! filePath with
    | Some (archive a) => ret a
    | _ => throw "Invalid filename"
    end in
  let tempExtractPath :=
    (modulesDir s ++ ["temp"; "install-" +:+ pretty now])%list in
  fs_call (mkdir_p tempExtractPath) ;;
  modify (fun s => with_files (extractAllTo zip tempExtractPath (files s)) s) ;;
  let manifestPath := (tempExtractPath ++ ["module.json"])%list in
  let* s := Effects.get in
  let* manifest :=
    match files s !! manifestPath with
    | Some (file {| json := Some manifest |}) => ret manifest
    | _ => throw "Module manifest (module.json) not found or invalid"
    end in
  validateManifest manifest ;;
  ret (tempExtractPath, manifest).

(** Step 4: an installed module of the same id is a duplicate when the
    versions are identical and is uninstalled otherwise. *)
Definition resolve_existing (manifest : object) : Op unit :=
  let* existingModule := getInstalledModule (get manifest "id") in
  match existingModule with
  | Some existingModule =>
      if strict_eq (get existingModule "version") (get manifest "version")
      then throw ("Module " +:+ to_string (get manifest "displayName") +:+ " v"
                  +:+ to_string (get manifest "version") +:+ " is already installed")
      else uninstallModule (get manifest "id") ;; ret tt
  | None => ret tt
  end.

(** Steps 5 to 7: move the staging directory into place, register the
    installation, delete the archive. *)
Definition place_and_register (filePath tempExtractPath : path)
    (manifest moduleInfo : object) (now : Z) : Op object :=
  let* s := Effects.get in
  let* categoryDir := join_value (modulesDir s) (get manifest "category") in
  let* moduleDir := join_value categoryDir (get manifest "id") in
  fs_call (mkdir_p (removelast moduleDir)) ;;
  fs_call (rename tempExtractPath moduleDir) ;;
  let* s := Effects.get in
  let installation :=
    <["size" := num (dir_size moduleDir (files s))]>
      (<["enabled" := boolean false]>
        (<["installedAt" := num now]>
          (<["installPath" := str (render moduleDir)]>
            (spread manifest moduleInfo)))) in
  modify (fun s =>
    with_store_installed (store_installed s ++ [installation])%list s) ;;
  modify (fun s =>
    with_installedModules
      (<[get manifest "id" := installation]> (installedModules s)) s) ;;
  try_catch (fs_call (unlink filePath)) (fun _ => ret tt) ;;
  ret installation.

(** The [catch] block: every [install-*] entry of the staging root is
    removed, failures to list it are ignored. *)
Definition sweep_staging : Op unit :=
  let* s := Effects.get in
  let tempDir := (modulesDir s ++ ["temp"])%list in
  match readdir tempDir (files s) with
  | Ok tempDirs =>
      modify (fun s =>
        with_files
          (foldl (fun t dir =>
                    if String.prefix "install-" dir
                    then rm_rf (tempDir ++ [dir])%list t else t)
                 (files s) tempDirs) s)
  | Throw _ => ret tt
  end.

Definition installModule (filePath : path) (moduleInfo : object) (now : Z)
  : Op object :=
  try_catch
    (let* staged := stage filePath now in
     let tempExtractPath := fst staged in
     let manifest := snd staged in
     resolve_existing manifest ;;
     place_and_register filePath tempExtractPath manifest moduleInfo now)
    (fun message => sweep_staging ;; throw message).

(** *** [checkForUpdates]: lines 555-587 *)

(** What the catalog request for a module name yields. *)
Inductive Fetched :=
  | fetch_failed
  | fetched (success : bool) (modules : list object).

Record Update := {
  moduleId : jsval;
  currentVersion : jsval;
  latestVersion : jsval;
  updateInfo : object;
}.

(** [compareVersions] on two values: [split] exists on strings only. *)
Definition compareVersions_values (v1 v2 : jsval) : result Z :=
  match v1, v2 with
  | str v1, str v2 => Ok (Versions.compareVersions v1 v2)
  | _, _ => Throw "split is not a function"
  end.

(** One turn of the loop: the update found for [module], if any; what
    the body throws is caught and logged. *)
Definition check_module (catalog : jsval -> Fetched) (module : object)
  : option Update :=
  match catalog (get module "name") with
  | fetched true (latestModule :: _) =>
      match compareVersions_values (get latestModule "version")
                                   (get module "version") with
      | Ok c =>
          if 0 <? c
          then Some {| moduleId := get module "id";
                       currentVersion := get module "version";
                       latestVersion := get latestModule "version";
                       updateInfo := latestModule |}
          else None
      | Throw _ => None
      end
  | _ => None
  end.

Definition checkForUpdates (catalog : jsval -> Fetched)
    (moduleIds : option (list jsval)) : Op (list Update) :=
  let* modules :=
    match moduleIds with
    | Some moduleIds =>
        foldr (fun i rest =>
                 let* m := getInstalledModule i in
                 let* ms := rest in
                 ret (option_list m ++ ms)%list)
              (ret []) moduleIds
    | None => getInstalledModules
    end in
  ret (omap (check_module catalog) modules).

End Modules.

(** ** Concrete runs used as examples *)

Module Scenarios.
Import JS Effects Collections Downloads Transfers.

Definition desktop : Env :=
  {| settings_location := None;
     app_downloads := Some "/home/user/Downloads";
     app_documents := "/home/user/Documents";
     OTH_STORE_URL := None |}.

(** The descriptor of the specification's end-to-end scenario. *)
Definition demo : DownloadInfo :=
  {| info_id := None; info_name := Some "demo"; info_displayName := None;
     info_downloadUrl := Some "/files/demo.zip"; info_version := Some "1.0.0" |}.

(** A catalog entry as the renderer sends it: it carries the module's id. *)
Definition clipper : DownloadInfo :=
  {| info_id := Some "screen-clipper"; info_name := Some "Screen Clipper";
     info_displayName := Some "Screen Clipper";
     info_downloadUrl := Some "/files/clipper.zip"; info_version := Some "1.2.0" |}.

(** [demo] is queued, promoted and started; the server answers 200 with
    [Content-Length: 1000] and a first chunk of 400 bytes arrives. *)
Definition streaming : list Action :=
  [ call_addToQueue demo 1000;
    call_moveToUpNext "demo-1000";
    call_startNextDownload 2000;
    mkdir_returned 0%nat None 2001;
    response 0%nat 200 None (Some "1000") 2002;
    data 0%nat 400 2100 ].

(** The same with [Content-Length: 3] and a chunk of 2 bytes. *)
Definition two_of_three : list Action :=
  [ call_addToQueue demo 1000;
    call_moveToUpNext "demo-1000";
    call_startNextDownload 2000;
    mkdir_returned 0%nat None 2001;
    response 0%nat 200 None (Some "3") 2002;
    data 0%nat 2 2100 ].

(** An entry is queued twice, then an id is promoted. *)
Definition queue_twice_promote (info : DownloadInfo) (now1 now2 : Z)
    (downloadId : string) : list Action :=
  [ call_addToQueue info now1;
    call_addToQueue info now2;
    call_moveToUpNext downloadId ].

(** The same catalog entry is queued twice, then its id is promoted. *)
Definition queued_twice : list Action :=
  queue_twice_promote clipper 1000 5000 "screen-clipper".

(** An entry without id, queued twice within one millisecond. *)
Definition queued_twice_at_once : list Action :=
  queue_twice_promote demo 1000 1000 "demo-1000".

Definition demo_file : string := "/home/user/Downloads/demo-v1.0.0.zip".

(** The descriptor, the [startDownload] invocation and the request of
    [demo] at the end of [streaming]. *)
Definition streaming_descriptor : Download :=
  {| id := "demo-1000"; name := Some "demo"; displayName := None;
     downloadUrl := Some "/files/demo.zip"; version := Some "1.0.0";
     status := "downloading"; progress := 40; downloadedBytes := 400;
     totalBytes := 1000; speed := of_Z 0; timeRemaining := None;
     addedAt := 1000; startedAt := Some 2000; completedAt := None;
     error := None; filePath := None |}.

Definition streaming_task : Task :=
  {| task_download := 0%nat; task_caller := by_startNextDownload;
     task_phase := await_downloadFile demo_file |}.

Definition streaming_transfer : Transfer :=
  {| t_task := 0%nat; t_url := "http://localhost:3000/files/demo.zip";
     t_filePath := demo_file; t_download := 0%nat; t_https := false;
     t_startTime := 2001; t_lastUpdate := 2001; t_totalBytes := 1000;
     t_downloadedBytes := 400; t_destroyed := false; t_stream := stream_open |}.

End Scenarios.

Module ModuleScenarios.
Import Effects Values FS Modules.

(** The manifest of the screen clipper, at a version. *)
Definition manifest_of (v : string) : object :=
  list_to_map
    [ ("id", str "screen-clipper"); ("name", str "Screen Clipper");
      ("displayName", str "Screen Clipper"); ("version", str v);
      ("category", str "tools"); ("author", str "OTH") ].

Definition archive_of (v : string) : entries :=
  [ (["module.json"], {| size := 120; json := Some (manifest_of v) |});
    (["index.js"], {| size := 900; json := None |}) ].

(** A manifest without [author]. *)
Definition archive_without_author : entries :=
  [ (["module.json"],
     {| size := 90; json := Some (delete "author" (manifest_of "1.0.0")) |}) ].

(** Three downloaded archives and an empty registry. *)
Definition fresh : State :=
  {| userData := ["data"];
     files := {[ ["dl"] := directory;
                 ["dl"; "clipper-1.0.0.zip"] := archive (archive_of "1.0.0");
                 ["dl"; "clipper-1.0.0-again.zip"] := archive (archive_of "1.0.0");
                 ["dl"; "clipper-2.0.0.zip"] := archive (archive_of "2.0.0");
                 ["dl"; "broken.zip"] := archive archive_without_author ]};
     store_installed := [];
     installedModules := ∅;
     activeModules := ∅;
     loadedTools := ∅;
     toolWindows := ∅;
     hotkeys := false |}.

(** Version 1.0.0 installed from its archive, without override metadata. *)
Definition installed_v1 : State :=
  snd (installModule ["dl"; "clipper-1.0.0.zip"] ∅ 1000 fresh).

Definition record_v1 : object :=
  <["size" := num 1020]>
    (<["enabled" := boolean false]>
      (<["installedAt" := num 1000]>
        (<["installPath" := str "/data/modules/tools/screen-clipper"]>
          (manifest_of "1.0.0")))).

(** The metadata [install-from-download] hands over: the download
    descriptor, whose [id] is the id of the download. *)
Definition from_download : object :=
  list_to_map
    [ ("id", str "Screen Clipper-1700000000000");
      ("name", str "Screen Clipper"); ("displayName", str "Screen Clipper");
      ("version", str "2.0.0"); ("status", str "complete") ].

Definition record_v2 (moduleInfo : object) : object :=
  <["size" := num 1020]>
    (<["enabled" := boolean false]>
      (<["installedAt" := num 3000]>
        (<["installPath" := str "/data/modules/tools/screen-clipper"]>
          (spread (manifest_of "2.0.0") moduleInfo)))).

End ModuleScenarios.

(** ** Vocabulary of the statements *)

Module Specs.
Import JS Effects Collections Downloads Transfers.

(** The operation always returns. *)
Definition never_throws {S} (c : M S unit) : Prop :=
  forall s, fst (c s) = Ok tt.

(** The operation leaves the byte count and the progress of the descriptor
    behind [r] as they are. *)
Definition keeps_progress (r : ref) (c : Op unit) : Prop :=
  forall s d, heap s !! r = Some d ->
    exists d', heap (snd (c s)) !! r = Some d'
      /\ downloadedBytes d' = downloadedBytes d
      /\ progress d' = progress d.

(** The references of the two waiting queues point into the heap and the
    descriptors they point to have pairwise distinct ids. *)
Definition queue_invariant (s : Manager) : Prop :=
  Forall (fun r => (r < length (heap s))%nat) (scheduled s ++ upNext s)%list
  /\ NoDup (ids s (scheduled s ++ upNext s)%list).

(** What the queue operations other than [addToQueue] do to the waiting
    queues: the references waiting afterwards were waiting before, each as
    often at most, and no descriptor changes its id. *)
Definition rearranges (s s' : Manager) : Prop :=
  (scheduled s' ++ upNext s')%list ⊆+ (scheduled s ++ upNext s)%list
  /\ length (heap s') = length (heap s)
  /\ (forall r, id <$> heap s' !! r = id <$> heap s !! r).

Definition rearranging {A} (c : Op A) : Prop :=
  forall s, rearranges s (snd (c s)).

(** A queue operation that, when it is [addToQueue], yields an id that is
    not waiting yet. *)
Definition admissible (s : Manager) (a : Action) : Prop :=
  match a with
  | call_addToQueue info now =>
      default (generateDownloadId info now) (info_id info)
        ∉ ids s (scheduled s ++ upNext s)%list
  | call_moveToUpNext _ | call_moveToScheduled _ | call_removeFromQueue _ => True
  | _ => False
  end.

Fixpoint admissible_run (s : Manager) (actions : list Action) : Prop :=
  match actions with
  | [] => True
  | a :: rest => admissible s a /\ admissible_run (step a s) rest
  end.

(** The largest relative error of one rounding to a double: [2^-53]. *)
Definition unit_roundoff : Q := 1 # 2 ^ 53.

(** The ids of the [download-error] events emitted so far. *)
Definition errors_of (s : Manager) : list string :=
  omap (fun e => match e with download_error d => Some (id d) | _ => None end)
       (emitted s).

(** Two paths of which one lies on the way to the other. *)
Definition related (a b : FS.path) : Prop :=
  a `prefix_of` b \/ b `prefix_of` a.

(** The records of a persisted list that carry the id [i]. *)
Definition with_id (i : Values.jsval) (l : list Values.object) : list Values.object :=
  List.filter (fun m => Values.strict_eq (Values.get m "id") i) l.

(** What is the same in two states of the module manager: everything but
    the files, which agree away from the staging root. *)
Definition same_but_staging (s s' : Modules.State) : Prop :=
  Modules.userData s' = Modules.userData s
  /\ Modules.store_installed s' = Modules.store_installed s
  /\ Modules.installedModules s' = Modules.installedModules s
  /\ Modules.activeModules s' = Modules.activeModules s
  /\ Modules.loadedTools s' = Modules.loadedTools s
  /\ (forall q, ~ related (Modules.modulesDir s ++ ["temp"])%list q ->
        Modules.files s' !! q = Modules.files s !! q).

(** The message of the duplicate-install error. *)
Definition duplicate_message (manifest : Values.object) : string :=
  "Module " +:+ Values.to_string (Values.get manifest "displayName") +:+ " v"
    +:+ Values.to_string (Values.get manifest "version")
    +:+ " is already installed".

(** The record [getInstalledModule] answers for an id: the cached one,
    else the first persisted one with that id. *)
Definition registered (s : Modules.State) (i : Values.jsval) : option Values.object :=
  match Modules.installedModules s !! i with
  | Some m => Some m
  | None =>
      Collections.find (fun m => Values.strict_eq (Values.get m "id") i)
        (Modules.store_installed s)
  end.

(** The modules [checkForUpdates] looks at. *)
Definition consulted (s : Modules.State) (moduleIds : option (list Values.jsval))
  : list Values.object :=
  match moduleIds with
  | Some ids => omap (registered s) ids
  | None => Modules.store_installed s
  end.

End Specs.

(** ** Enabling and loading modules ([module-manager.js],
    [tool-module-loader.js]) *)

Module Loading.
Import Effects Collections Values FS Modules.

(** What running a tool's [init] does: whether it calls [createWindow],
    whether a [registerHotkey] of it succeeds, and the error it throws
    when it does. *)
Record InitRun := {
  opens_window : bool;
  registers_hotkey : bool;
  init_throws : option string;
}.

(** What [require(toolPath)] yields: the tool and its [init], when it has
    one. *)
Record ToolCode := {
  instance : Tool;
  init : option InitRun;
}.

(** [path.join(module.installPath, module.main || 'index.js')] *)
Definition main_path (module : object) : Op path :=
  match get module "installPath" with
  | str installPath =>
      join_value (parse installPath)
        (if truthy (get module "main") then get module "main"
         else str "index.js")
  | _ => throw "The path argument must be of type string"
  end.

(** [toolLoader.loadTool(module)]: lines 16-47 of the loader.  The tool is
    recorded before its [init] runs. *)
Definition loadTool (require : path -> result ToolCode) (module : object)
  : Op unit :=
  let* toolPath := main_path module in
  match require toolPath with
  | Throw message => throw message
  | Ok toolModule =>
      modify (fun s =>
        with_loader (<[get module "id" := instance toolModule]> (loadedTools s))
                    (toolWindows s) (hotkeys s) s) ;;
      match init toolModule with
      | None => ret tt
      | Some run =>
          when (opens_window run)
            (modify (fun s =>
               with_loader (loadedTools s)
                           ({[get module "id"]} ∪ toolWindows s) (hotkeys s) s)) ;;
          when (registers_hotkey run)
            (modify (fun s =>
               with_loader (loadedTools s) (toolWindows s) true s)) ;;
          match init_throws run with
          | Some message => throw message
          | None => ret tt
          end
      end
  end.

(** [loadModule]: lines 305-336.  The main file's path is computed for
    every category; only tools are loaded. *)
Definition loadModule (require : path -> result ToolCode) (module : object)
  : Op unit :=
  main_path module ;;
  if strict_eq (get module "category") (str "tools")
  then loadTool require module
  else ret tt.

(** [enableModule]: lines 217-256 *)
Definition enableModule (require : path -> result ToolCode) (moduleId : jsval)
  : Op string :=
  let* module := getInstalledModule moduleId in
  match module with
  | None => throw "Module not found"
  | Some module =>
      if truthy (get module "enabled")
      then ret "Module already enabled"
      else
        loadModule require module ;;
        modify (fun s =>
          with_store_installed
            ((fun m => if strict_eq (get m "id") moduleId
                       then <["enabled" := boolean true]> m else m)
               <$> store_installed s) s) ;;
        let module := <["enabled" := boolean true]> module in
        modify (fun s =>
          with_installedModules (<[moduleId := module]> (installedModules s)) s) ;;
        modify (fun s =>
          with_activeModules (<[moduleId := module]> (activeModules s)) s) ;;
        ret (to_string (get module "displayName") +:+ " enabled successfully")
  end.

(** [loadAllModules]: lines 490-506.  A module that fails to load is
    logged and skipped. *)
Definition loadAllModules (require : path -> result ToolCode) : Op unit :=
  let* modules := getInstalledModules in
  let enabled := List.filter (fun m => truthy (get m "enabled")) modules in
  foldl (fun done module =>
           done ;;
           try_catch
             (loadModule require module ;;
              modify (fun s =>
                with_activeModules
                  (<[get module "id" := module]> (activeModules s)) s))
             (fun _ => ret tt))
        (ret tt) enabled.

End Loading.

Module LoadingScenarios.
Import Effects Values FS Modules Loading ModuleScenarios.

Definition clipper_main : path :=
  ["data"; "modules"; "tools"; "screen-clipper"; "index.js"].

(** A tool that opens a window and registers a shortcut in [init], and
    whose [cleanup] returns. *)
Definition clipper_code : ToolCode :=
  {| instance := {| cleanup := Some None |};
     init := Some {| opens_window := true; registers_hotkey := true;
                     init_throws := None |} |}.

(** The same tool with a [cleanup] that throws. *)
Definition stubborn_code : ToolCode :=
  {| instance := {| cleanup := Some (Some "cleanup failed") |};
     init := init clipper_code |}.

(** The same tool with an [init] that throws after opening its window. *)
Definition faulty_code : ToolCode :=
  {| instance := instance clipper_code;
     init := Some {| opens_window := true; registers_hotkey := false;
                     init_throws := Some "init failed" |} |}.

Definition require_from (code : ToolCode) (p : path) : result ToolCode :=
  if decide (p = clipper_main) then Ok code
  else Throw "Cannot find module".

Definition enabled_v1 : State :=
  snd (enableModule (require_from clipper_code) (str "screen-clipper") installed_v1).

Definition enabled_stubborn : State :=
  snd (enableModule (require_from stubborn_code) (str "screen-clipper") installed_v1).

(** [enabled_v1] with a second tool loaded, which has a window too. *)
Definition two_tools : State :=
  with_loader (<[str "ruler" := {| cleanup := None |}]> (loadedTools enabled_v1))
    ({[str "ruler"]} ∪ toolWindows enabled_v1) true enabled_v1.

End LoadingScenarios.

(** ** Restoring the queues ([download-queue-manager.js], lines 13-36) *)

Module Restart.
Import Effects Collections Downloads Transfers.

(** The constructor with [loadQueues], on a store and a disk: the
    persisted descriptors become new objects, one per entry of each queue;
    nothing is active or paused.  A store without the key gives three
    empty queues ([saveQueues] always writes the three of them). *)
Definition loadQueues (e : Env) (stored : option Queues) (disk : gmap string Z)
  : Manager :=
  let queues :=
    default {| q_scheduled := []; q_complete := []; q_upNext := [] |} stored in
  let n1 := length (q_scheduled queues) in
  let n2 := length (q_complete queues) in
  let n3 := length (q_upNext queues) in
  {| env := e;
     heap := (q_scheduled queues ++ q_complete queues ++ q_upNext queues)%list;
     scheduled := seq 0 n1;
     complete := seq n1 n2;
     upNext := seq (n1 + n2) n3;
     activeDownloads := []; pausedDownloads := ∅; store_queues := stored;
     emitted := []; tasks := []; transfers := []; files := disk; timers := O |}.

End Restart.

(** ** More runs of the download queue manager *)

Module QueueScenarios.
Import JS Effects Collections Downloads Transfers Scenarios.

(** [demo] and [clipper] are queued. *)
Definition two_waiting : Manager :=
  run [call_addToQueue demo 1000; call_addToQueue clipper 1000]
      (new_manager desktop).

Definition demo_queued : Download :=
  {| id := "demo-1000"; name := Some "demo"; displayName := None;
     downloadUrl := Some "/files/demo.zip"; version := Some "1.0.0";
     status := "queued"; progress := 0; downloadedBytes := 0;
     totalBytes := 0; speed := of_Z 0; timeRemaining := None;
     addedAt := 1000; startedAt := None; completedAt := None;
     error := None; filePath := None |}.

Definition clipper_queued : Download :=
  {| id := "screen-clipper"; name := Some "Screen Clipper";
     displayName := Some "Screen Clipper";
     downloadUrl := Some "/files/clipper.zip"; version := Some "1.2.0";
     status := "queued"; progress := 0; downloadedBytes := 0;
     totalBytes := 0; speed := of_Z 0; timeRemaining := None;
     addedAt := 1000; startedAt := None; completedAt := None;
     error := None; filePath := None |}.

(** [demo] is queued and promoted. *)
Definition promoted : Manager :=
  run [call_addToQueue demo 1000; call_moveToUpNext "demo-1000"]
      (new_manager desktop).

(** The manager at the end of [streaming], and the active handle of
    [demo] in it. *)
Definition streaming_manager : Manager := run streaming (new_manager desktop).

Definition streaming_handle : Handle :=
  {| download := 0%nat; request := Some 0%nat |}.

End QueueScenarios.

(** ** A module whose id climbs out of its category directory *)

Module TraversalScenarios.
Import Effects Values FS Modules ModuleScenarios.

(** A manifest that [validateManifest] accepts and whose id, joined to
    [modulesDir/tools], names a directory of the staging root. *)
Definition climbing_manifest : object :=
  list_to_map
    [ ("id", str "../temp/install-x"); ("name", str "Climber");
      ("displayName", str "Climber"); ("version", str "1.0.0");
      ("category", str "tools"); ("author", str "OTH") ].

Definition climbing_archive : entries :=
  [ (["module.json"], {| size := 120; json := Some climbing_manifest |});
    (["index.js"], {| size := 900; json := None |}) ].

(** Two copies of the archive and an empty registry. *)
Definition fresh_climbing : State :=
  {| userData := ["data"];
     files := {[ ["dl"] := directory;
                 ["dl"; "climber.zip"] := archive climbing_archive;
                 ["dl"; "climber-again.zip"] := archive climbing_archive ]};
     store_installed := [];
     installedModules := ∅;
     activeModules := ∅;
     loadedTools := ∅;
     toolWindows := ∅;
     hotkeys := false |}.

(** The module installed from the first copy. *)
Definition installed_climbing : State :=
  snd (installModule ["dl"; "climber.zip"] ∅ 1000 fresh_climbing).

Definition climbing_record : object :=
  <["size" := num 1020]>
    (<["enabled" := boolean false]>
      (<["installedAt" := num 1000]>
        (<["installPath" := str "/data/modules/temp/install-x"]>
          climbing_manifest))).

End TraversalScenarios.

(** * Proof tools *)

(** Unfold the combinators of the monad. *)
Ltac op_unfold :=
  unfold Effects.bind, Effects.ret, Effects.get, Effects.gets, Effects.modify,
    Effects.throw, Effects.try_catch, Modules.fs_call in *.

(** Close [l = r] on closed terms by evaluation. *)
Ltac by_evaluation :=
  match goal with |- _ = ?r => vm_cast_no_check (@eq_refl _ r) end.

Ltac conjuncts := repeat match goal with |- _ /\ _ => split end.

(** Evaluate straight-line code on a heap of which [H] gives one object. *)
Ltac heap_eval H :=
  repeat (progress
    (cbn -[Transfers.Math_round Transfers.num_div alter list_alter lookup
           list_lookup Downloads.getAllQueues Downloads.objects];
     rewrite ?list_lookup_alter_eq, ?H;
     cbn [fmap option_fmap option_map])).

(** * Properties of the version comparison *)

Section NumberOnDigits.
Import JS Versions.

Lemma is_digit_code c : is_digit c = true -> 48 <= code c <= 57.
Proof. unfold is_digit. cbv zeta. rewrite andb_true_iff. lia. Qed.

Lemma digit_in_10 c :
  is_digit c = true -> digit_in 10 c = Some (code c - 48).
Proof.
  intros H. pose proof (is_digit_code c H) as Hc.
  unfold digit_in. cbv zeta.
  replace ((48 <=? code c) && (code c <=? 57)) with true
    by (symmetry; apply andb_true_iff; lia).
  replace (code c - 48 <? 10) with true by (symmetry; apply Z.ltb_lt; lia).
  reflexivity.
Qed.

Lemma digit_not_space c : is_digit c = true -> is_space c = false.
Proof.
  intros H. pose proof (is_digit_code c H) as Hc.
  unfold is_space. cbv zeta.
  apply orb_false_iff. split; [apply andb_false_iff|]; lia.
Qed.

Lemma read_digits_all s :
  forallb is_digit s = true ->
  read_digits 10 s = ((fun c => code c - 48) <$> s, []).
Proof.
  induction s as [|c s IH]; simpl; [reflexivity|].
  rewrite andb_true_iff. intros [Hc Hs].
  rewrite (digit_in_10 c Hc), (IH Hs). reflexivity.
Qed.

Lemma drop_spaces_digit c s :
  is_digit c = true -> drop_spaces (c :: s) = c :: s.
Proof. intros H. simpl. now rewrite (digit_not_space c H). Qed.

Lemma trim_digits s : forallb is_digit s = true -> trim s = s.
Proof.
  intros H. unfold trim.
  assert (Hd : forall l, forallb is_digit l = true -> drop_spaces l = l).
  { intros [|c l]; simpl; [reflexivity|].
    rewrite andb_true_iff. intros [Hc _]. now rewrite (digit_not_space c Hc). }
  rewrite (Hd s H), Hd, rev_involutive; [reflexivity|].
  rewrite forallb_forall in *. intros c Hc. apply H, in_rev, Hc.
Qed.

Lemma radix_prefix_digits s :
  forallb is_digit s = true -> radix_prefix s = None.
Proof.
  destruct s as [|z [|x r]]; simpl; try reflexivity.
  rewrite !andb_true_iff. intros (_ & Hx & _).
  pose proof (is_digit_code x Hx) as Hc.
  destruct (code z =? 48); [|reflexivity].
  replace (code x =? 120) with false by (symmetry; apply Z.eqb_neq; lia).
  replace (code x =? 88) with false by (symmetry; apply Z.eqb_neq; lia).
  replace (code x =? 111) with false by (symmetry; apply Z.eqb_neq; lia).
  replace (code x =? 79) with false by (symmetry; apply Z.eqb_neq; lia).
  replace (code x =? 98) with false by (symmetry; apply Z.eqb_neq; lia).
  replace (code x =? 66) with false by (symmetry; apply Z.eqb_neq; lia).
  reflexivity.
Qed.

Lemma unsigned_decimal_digits c s :
  forallb is_digit (c :: s) = true ->
  unsigned_decimal (c :: s)
  = of_Z (digits_value 10 ((fun c => code c - 48) <$> (c :: s))).
Proof.
  intros H. unfold unsigned_decimal.
  destruct (decide (c :: s = chars "Infinity")) as [E|_].
  { exfalso. injection E as -> _. simpl in H. discriminate H. }
  rewrite (read_digits_all _ H). cbn [fmap list_fmap read_exponent].
  rewrite app_nil_r. cbn [length Z.of_nat]. unfold scale10.
  cbn [Z.sub Z.opp Z.add Z.leb Z.compare Z.pow Z.pow_pos Pos.iter].
  unfold of_Z. now rewrite Z.mul_1_r.
Qed.

(** On a non-empty run of decimal digits [Number] is the decimal value. *)
Lemma Number_digits (s : string) :
  s <> "" -> forallb is_digit (chars s) = true ->
  Number s = of_Z (component_value s).
Proof.
  intros Hne H. unfold Number, Number_chars, component_value.
  rewrite (trim_digits _ H), (read_digits_all _ H). cbn [fst].
  destruct (chars s) as [|c r] eqn:E.
  { destruct s; [congruence|discriminate E]. }
  rewrite (radix_prefix_digits _ H).
  assert (Hc : is_digit c = true) by (simpl in H; now apply andb_true_iff in H).
  apply is_digit_code in Hc.
  replace (code c =? 45) with false by (symmetry; apply Z.eqb_neq; lia).
  replace (code c =? 43) with false by (symmetry; apply Z.eqb_neq; lia).
  now apply unsigned_decimal_digits.
Qed.

Lemma or_zero_of_Z z : or_zero (Some (of_Z z)) = of_Z z.
Proof. destruct z; reflexivity. Qed.

Lemma num_compare_of_Z a b : num_compare (of_Z a) (of_Z b) = Some (a ?= b).
Proof.
  unfold of_Z, num_compare, Qcompare. simpl. now rewrite !Z.mul_1_r.
Qed.

Lemma num_gt_of_Z a b : num_gt (of_Z a) (of_Z b) = (b <? a).
Proof.
  unfold num_gt. rewrite num_compare_of_Z, Z.ltb_compare, (Z.compare_antisym a b).
  now destruct (a ?= b).
Qed.

Lemma num_lt_of_Z a b : num_lt (of_Z a) (of_Z b) = (a <? b).
Proof.
  unfold num_lt. rewrite num_compare_of_Z, Z.ltb_compare.
  now destruct (a ?= b).
Qed.

End NumberOnDigits.

Section CompareVersions.
Import JS Versions.

Lemma numeric_component_Number s :
  numeric_component s = true -> Number s = of_Z (component_value s).
Proof.
  unfold numeric_component. rewrite !andb_true_iff, negb_true_iff.
  intros [[Hne Hd] _]. apply Number_digits; [|exact Hd].
  intros ->. discriminate Hne.
Qed.

Lemma numeric_version_parts v :
  numeric_version v = true ->
  Number <$> split_dot v = of_Z <$> components v.
Proof.
  unfold numeric_version, components.
  induction (split_dot v) as [|s l IH]; [reflexivity|].
  cbn [forallb]. rewrite andb_true_iff. intros [Hs Hl].
  rewrite !fmap_cons, (numeric_component_Number s Hs). f_equal. exact (IH Hl).
Qed.

Lemma or_zero_lookup_of_Z (a : list Z) j :
  or_zero ((of_Z <$> a) !! j) = of_Z (default 0 (a !! j)).
Proof.
  rewrite list_lookup_fmap. destruct (a !! j) as [z|]; simpl; [|reflexivity].
  apply or_zero_of_Z.
Qed.

Lemma pad_length n (a : list Z) : length (pad n a) = Nat.max n (length a).
Proof. unfold pad. rewrite length_app, length_replicate. lia. Qed.

Lemma pad_lookup n (a : list Z) j :
  default 0 (pad n a !! j) = default 0 (a !! j).
Proof.
  unfold pad. destruct (decide (j < length a)%nat) as [Hlt|Hge].
  - now rewrite lookup_app_l.
  - rewrite lookup_app_r by lia. rewrite (lookup_ge_None_2 a j) by lia.
    destruct (replicate (n - length a) 0 !! (j - length a)%nat) as [z|] eqn:E;
      [|reflexivity].
    apply lookup_replicate in E as [-> _]. reflexivity.
Qed.

(** The loop over two lists of integers is the lexicographic order of the
    zero-padded lists. *)
Lemma compareVersions_loop_lex (a b pa pb : list Z) n i :
  (forall j, default 0 (pa !! j) = default 0 (a !! j)) ->
  (forall j, default 0 (pb !! j) = default 0 (b !! j)) ->
  length pa = (i + n)%nat -> length pb = (i + n)%nat ->
  compareVersions_loop (of_Z <$> a) (of_Z <$> b) n i
  = sign_of (lex_compare (drop i pa) (drop i pb)).
Proof.
  intros Ha Hb. revert i. induction n as [|n IH]; intros i La Lb.
  - rewrite (drop_ge pa), (drop_ge pb) by lia. reflexivity.
  - destruct (lookup_lt_is_Some_2 pa i) as [x Hx]; [lia|].
    destruct (lookup_lt_is_Some_2 pb i) as [y Hy]; [lia|].
    rewrite (drop_S _ _ _ Hx), (drop_S _ _ _ Hy).
    cbn [compareVersions_loop lex_compare].
    rewrite !or_zero_lookup_of_Z, <- Ha, <- Hb, Hx, Hy.
    cbn [default from_option id].
    rewrite num_gt_of_Z, num_lt_of_Z, !Z.ltb_compare, (Z.compare_antisym x y).
    destruct (x ?= y) eqn:E; cbn [CompOpp sign_of]; try reflexivity.
    apply IH; lia.
Qed.

Lemma compareVersions_order v1 v2 :
  numeric_version v1 = true -> numeric_version v2 = true ->
  compareVersions v1 v2 = sign_of (version_order v1 v2).
Proof.
  intros H1 H2. unfold compareVersions, version_order.
  rewrite (numeric_version_parts v1 H1), (numeric_version_parts v2 H2).
  rewrite !length_fmap.
  set (a := components v1). set (b := components v2).
  set (n := Nat.max (length a) (length b)).
  rewrite <- (drop_0 (pad n a)), <- (drop_0 (pad n b)).
  apply compareVersions_loop_lex; intros; try apply pad_lookup;
    rewrite pad_length; lia.
Qed.

(** What the loop computes on arbitrary parts: the first index at which
    the effective parts are ordered decides. *)
Lemma or_zero_not_NaN p : or_zero p <> NaN.
Proof.
  destruct p as [[| |q]|]; simpl; try discriminate.
  destruct (negb (Qeq_bool q 0)); discriminate.
Qed.

Lemma compareVersions_loop_zero p1 p2 n i :
  compareVersions_loop p1 p2 n i = 0 <->
  forall j, (i <= j < i + n)%nat ->
    num_compare (part_at p1 j) (part_at p2 j) = Some Eq.
Proof.
  revert i. induction n as [|n IH]; intros i; cbn [compareVersions_loop].
  - split; [intros _ j Hj; lia|reflexivity].
  - fold (part_at p1 i) (part_at p2 i). unfold num_gt, num_lt.
    pose proof (or_zero_not_NaN (p1 !! i)) as N1.
    pose proof (or_zero_not_NaN (p2 !! i)) as N2.
    fold (part_at p1 i) in N1. fold (part_at p2 i) in N2.
    destruct (num_compare (part_at p1 i) (part_at p2 i)) as [[]|] eqn:E.
    + rewrite IH. split; intros H j Hj.
      * destruct (decide (j = i)) as [->|]; [exact E|apply H; lia].
      * apply H; lia.
    + split; [discriminate|]. intros H. specialize (H i ltac:(lia)). congruence.
    + split; [discriminate|]. intros H. specialize (H i ltac:(lia)). congruence.
    + exfalso. destruct (part_at p1 i), (part_at p2 i); simpl in E;
        try congruence; destruct negative; try destruct negative0; discriminate.
Qed.

End CompareVersions.

Section FirstDifference.
Import JS Versions.

(** The loop returns the sign of the first comparison that is not a tie. *)
Lemma compareVersions_loop_decides p1 p2 n i (c : comparison) :
  c <> Eq ->
  compareVersions_loop p1 p2 n i = sign_of c <->
  exists j, (i <= j < i + n)%nat
    /\ num_compare (part_at p1 j) (part_at p2 j) = Some c
    /\ forall k, (i <= k < j)%nat ->
         num_compare (part_at p1 k) (part_at p2 k) = Some Eq.
Proof.
  intros Hc. revert i. induction n as [|n IH]; intros i; cbn [compareVersions_loop].
  - split; [destruct c; try discriminate; congruence|].
    intros (j & Hj & _). lia.
  - fold (part_at p1 i) (part_at p2 i). unfold num_gt, num_lt.
    pose proof (or_zero_not_NaN (p1 !! i)) as N1.
    pose proof (or_zero_not_NaN (p2 !! i)) as N2.
    fold (part_at p1 i) in N1. fold (part_at p2 i) in N2.
    destruct (num_compare (part_at p1 i) (part_at p2 i)) as [[]|] eqn:E.
    + rewrite IH. split.
      * intros (j & Hj & Hcj & Hk). exists j. split; [lia|]. split; [exact Hcj|].
        intros k Hkj. destruct (decide (k = i)) as [->|]; [exact E|apply Hk; lia].
      * intros (j & Hj & Hcj & Hk).
        destruct (decide (j = i)) as [->|]; [congruence|].
        exists j. split; [lia|]. split; [exact Hcj|]. intros k Hkj. apply Hk. lia.
    + split.
      * intros H. destruct c; try discriminate; try congruence.
        exists i. split; [lia|]. split; [exact E|]. intros k Hk. lia.
      * intros (j & Hj & Hcj & Hk).
        destruct (decide (j = i)) as [->|].
        -- rewrite E in Hcj. now injection Hcj as <-.
        -- specialize (Hk i ltac:(lia)). congruence.
    + split.
      * intros H. destruct c; try discriminate; try congruence.
        exists i. split; [lia|]. split; [exact E|]. intros k Hk. lia.
      * intros (j & Hj & Hcj & Hk).
        destruct (decide (j = i)) as [->|].
        -- rewrite E in Hcj. now injection Hcj as <-.
        -- specialize (Hk i ltac:(lia)). congruence.
    + exfalso. destruct (part_at p1 i), (part_at p2 i); simpl in E;
        try congruence; destruct negative; try destruct negative0; discriminate.
Qed.

Lemma part_at_beyond (parts : list number) (j : nat) :
  (length parts <= j)%nat -> part_at parts j = of_Z 0.
Proof. intros H. unfold part_at. now rewrite lookup_ge_None_2. Qed.

End FirstDifference.

(** * Properties of the download queue manager *)

Section DownloadRuns.
Import JS Effects Collections Downloads Transfers Scenarios.

Lemma streaming_state :
  let s := run streaming (new_manager desktop) in
  (status <$> heap s !! 0%nat) = Some "downloading"
  /\ (progress <$> heap s !! 0%nat) = Some 40
  /\ files s !! demo_file = Some 400
  /\ Map_has "demo-1000" (activeDownloads s) = true.
Proof. vm_compute. repeat split; reflexivity. Qed.

End DownloadRuns.

Section ChunkProgress.
Import JS Effects Collections Downloads Transfers Specs.

(** One rounding to a double: the nearest integer to the scaled fraction. *)
Lemma round_half_even_near (n d : Z) :
  0 < d -> 2 * Z.abs (round_half_even n d * d - n) <= d.
Proof.
  intros Hd. unfold round_half_even.
  pose proof (Z.div_mod n d ltac:(lia)) as Hdm.
  pose proof (Z.mod_pos_bound n d Hd) as Hm.
  set (k := n / d) in *. set (r := n mod d) in *.
  destruct (Z.compare_spec (2 * r) d); [destruct (Z.even k)|..]; nia.
Qed.

Lemma scaled_positive (a b e : Z) :
  0 < a -> 0 < b -> 0 < fst (scaled a b e) /\ 0 < snd (scaled a b e).
Proof.
  intros Ha Hb. unfold scaled. cbn [fst snd].
  split; apply Z.mul_pos_pos; try assumption; apply Z.pow_pos_nonneg; lia.
Qed.

(** The scaled fraction is at least [2^52]: the significand has 53 bits. *)
Lemma binary64_exponent_low (a b : Z) :
  0 < a -> 0 < b ->
  2 ^ 52 * snd (scaled a b (binary64_exponent a b))
  <= fst (scaled a b (binary64_exponent a b)).
Proof.
  intros Ha Hb. unfold binary64_exponent.
  destruct (Z.leb_spec (2 ^ 52 * snd (scaled a b (Z.log2 a - Z.log2 b - 52)))
              (fst (scaled a b (Z.log2 a - Z.log2 b - 52)))) as [H|_];
    [exact H|].
  destruct (Z.log2_spec a Ha) as [La _]. destruct (Z.log2_spec b Hb) as [_ Lb].
  pose proof (Z.log2_nonneg a) as Na. pose proof (Z.log2_nonneg b) as Nb.
  set (la := Z.log2 a) in *. set (lb := Z.log2 b) in *.
  unfold scaled. cbn [fst snd].
  destruct (Z.le_gt_cases 0 (la - lb - 52 - 1)) as [He|He].
  - rewrite (Z.max_r 0 (la - lb - 52 - 1)) by lia.
    rewrite (Z.max_l 0 (- (la - lb - 52 - 1))) by lia.
    rewrite Z.pow_0_r, Z.mul_1_r.
    apply Z.le_trans with (2 ^ la); [|exact La].
    replace la with (52 + (Z.succ lb + (la - lb - 52 - 1))) at 2 by lia.
    rewrite !Z.pow_add_r by lia.
    assert (0 < 2 ^ (la - lb - 52 - 1)) by (apply Z.pow_pos_nonneg; lia).
    nia.
  - rewrite (Z.max_l 0 (la - lb - 52 - 1)) by lia.
    rewrite (Z.max_r 0 (- (la - lb - 52 - 1))) by lia.
    rewrite Z.pow_0_r, Z.mul_1_r.
    apply Z.le_trans with (2 ^ la * 2 ^ (- (la - lb - 52 - 1))).
    + rewrite <- Z.pow_add_r by lia.
      replace (la + - (la - lb - 52 - 1)) with (52 + Z.succ lb) by lia.
      rewrite Z.pow_add_r by lia. nia.
    + apply Z.mul_le_mono_nonneg_r; [|exact La].
      apply Z.pow_nonneg. lia.
Qed.

(** The relative error of one rounding is at most [2^-53]. *)
Lemma binary64_pos_bounds (a b : positive) :
  ((Zpos a * (2 ^ 53 - 1)) # (b * 2 ^ 53) <= binary64_pos (Zpos a) (Zpos b))%Q
  /\ (binary64_pos (Zpos a) (Zpos b) <= (Zpos a * (2 ^ 53 + 1)) # (b * 2 ^ 53))%Q.
Proof.
  pose proof (binary64_exponent_low (Zpos a) (Zpos b) ltac:(lia) ltac:(lia)) as Hlow.
  unfold binary64_pos.
  set (e := binary64_exponent (Zpos a) (Zpos b)) in *.
  pose proof (scaled_positive (Zpos a) (Zpos b) e ltac:(lia) ltac:(lia)) as [HN HD].
  pose proof (round_half_even_near (fst (scaled (Zpos a) (Zpos b) e))
                (snd (scaled (Zpos a) (Zpos b) e)) HD) as Hm.
  set (m := round_half_even _ _) in *.
  unfold scaled in *. cbn [fst snd] in *.
  assert (H53 : Zpos (2 ^ 53) = 2 ^ 53) by reflexivity.
  destruct (Z.leb_spec 0 e) as [He|He].
  - rewrite (Z.max_r 0 e) in * by lia. rewrite (Z.max_l 0 (- e)) in * by lia.
    rewrite Z.pow_0_r, Z.mul_1_r in *.
    assert (HP : 0 < 2 ^ e) by (apply Z.pow_pos_nonneg; lia).
    set (P := 2 ^ e) in *.
    unfold Qle. cbn [Qnum Qden inject_Z]. rewrite Pos2Z.inj_mul, H53.
    nia.
  - rewrite (Z.max_l 0 e) in * by lia. rewrite (Z.max_r 0 (- e)) in * by lia.
    rewrite Z.pow_0_r, Z.mul_1_r in *.
    assert (HP : 0 < 2 ^ (- e)) by (apply Z.pow_pos_nonneg; lia).
    set (P := 2 ^ (- e)) in *.
    unfold Qle. cbn [Qnum Qden]. rewrite Pos2Z.inj_mul, H53, Z2Pos.id by exact HP.
    nia.
Qed.

Lemma binary64_bounds (q : Q) :
  (0 <= q -> q * (1 - unit_roundoff) <= binary64 q <= q * (1 + unit_roundoff))%Q.
Proof.
  destruct q as [[|a|a] b]; intros Hq.
  - unfold binary64. cbn [Qnum]. split; unfold Qle; cbn; lia.
  - unfold binary64. cbn [Qnum Qden].
    destruct (binary64_pos_bounds a b) as [L U]. split.
    + eapply Qle_trans; [|exact L]. unfold Qle, unit_roundoff. cbn. lia.
    + eapply Qle_trans; [exact U|]. unfold Qle, unit_roundoff. cbn. lia.
  - exfalso. unfold Qle in Hq. cbn in Hq. lia.
Qed.

(** Two roundings: the quotient and the product with 100. *)
Lemma percentage_bounds (d t : Z) :
  0 <= d -> 0 < t ->
  let x := (inject_Z d / inject_Z t)%Q in
  (100 * x * (1 - unit_roundoff) * (1 - unit_roundoff) <= percentage d t
   /\ percentage d t <= 100 * x * (1 + unit_roundoff) * (1 + unit_roundoff))%Q.
Proof.
  intros Hd Ht x.
  assert (Hx : (0 <= x)%Q).
  { subst x. apply Qle_shift_div_l.
    - change 0%Q with (inject_Z 0). rewrite <- Zlt_Qlt. exact Ht.
    - ring_simplify. change 0%Q with (inject_Z 0). rewrite <- Zle_Qle. exact Hd. }
  unfold percentage. fold x.
  destruct (binary64_bounds x Hx) as [L1 U1].
  assert (Hu : (unit_roundoff == 1 # 9007199254740992)%Q) by reflexivity.
  assert (Hy : (0 <= binary64 x * 100)%Q) by (rewrite Hu in *; lra).
  destruct (binary64_bounds _ Hy) as [L2 U2].
  rewrite Hu in *. split; lra.
Qed.

(** The progress written is an integer nearest to the exact percentage,
    as long as fewer than [2^44] bytes have arrived: the two roundings
    move the percentage by less than the distance between any two
    fractions with the denominator [2 * totalBytes]. *)
Lemma Math_round_percentage_nearest (d t : Z) :
  0 <= d < 2 ^ 44 -> 0 < t ->
  2 * Z.abs (Math_round (percentage d t) * t - 100 * d) <= t.
Proof.
  intros [Hd Hd'] Ht.
  destruct (percentage_bounds d t Hd Ht) as [L U]. cbv zeta in L, U.
  unfold Math_round.
  pose proof (Qfloor_le (percentage d t + (1 # 2))) as Fl.
  pose proof (Qlt_floor (percentage d t + (1 # 2))) as Fu.
  set (p := Qfloor (percentage d t + (1 # 2))) in *.
  set (z := percentage d t) in *.
  assert (HT : (0 < inject_Z t)%Q)
    by (change 0%Q with (inject_Z 0); rewrite <- Zlt_Qlt; exact Ht).
  assert (HD : (0 <= inject_Z d)%Q)
    by (change 0%Q with (inject_Z 0); rewrite <- Zle_Qle; exact Hd).
  assert (HD' : (inject_Z d <= inject_Z (2 ^ 44 - 1))%Q)
    by (rewrite <- Zle_Qle; lia).
  assert (Hx : (inject_Z d / inject_Z t * inject_Z t == inject_Z d)%Q)
    by (field; lra).
  set (x := (inject_Z d / inject_Z t)%Q) in *.
  assert (Hu : (unit_roundoff == 1 # 9007199254740992)%Q) by reflexivity.
  assert (A : (inject_Z p * inject_Z t
               <= (100 * x * (1 + unit_roundoff) * (1 + unit_roundoff) + (1 # 2))
                  * inject_Z t)%Q).
  { apply Qmult_le_compat_r; lra. }
  assert (B : ((100 * x * (1 - unit_roundoff) * (1 - unit_roundoff) + (1 # 2))
               * inject_Z t
               <= inject_Z (p + 1) * inject_Z t)%Q).
  { apply Qmult_le_compat_r; lra. }
  assert (EA : ((100 * x * (1 + unit_roundoff) * (1 + unit_roundoff) + (1 # 2))
                * inject_Z t
                == 100 * (1 + unit_roundoff) * (1 + unit_roundoff) * (x * inject_Z t)
                   + (1 # 2) * inject_Z t)%Q) by ring.
  assert (EB : ((100 * x * (1 - unit_roundoff) * (1 - unit_roundoff) + (1 # 2))
                * inject_Z t
                == 100 * (1 - unit_roundoff) * (1 - unit_roundoff) * (x * inject_Z t)
                   + (1 # 2) * inject_Z t)%Q) by ring.
  rewrite EA in A. rewrite EB in B. rewrite Hx in A, B.
  rewrite Hu in A, B.
  assert (H44 : inject_Z (2 ^ 44 - 1) == 17592186044415 # 1) by reflexivity.
  rewrite H44 in HD'.
  assert (A' : 2 * (p * t) < 200 * d + t + 1).
  { rewrite Zlt_Qlt, !inject_Z_plus, !inject_Z_mult.
    change (inject_Z 2) with (2 # 1). change (inject_Z 200) with (200 # 1).
    change (inject_Z 1) with (1 # 1).
    set (P := (inject_Z p * inject_Z t)%Q) in *. lra. }
  assert (B' : 200 * d < 2 * ((p + 1) * t) - t + 1).
  { rewrite Zlt_Qlt. unfold Z.sub.
    rewrite !inject_Z_plus, !inject_Z_opp, !inject_Z_mult.
    change (inject_Z 2) with (2 # 1). change (inject_Z 200) with (200 # 1).
    change (inject_Z 1) with (1 # 1).
    set (P := (inject_Z (p + 1) * inject_Z t)%Q) in *. lra. }
  lia.
Qed.

Lemma bind_never_throws {S B} (c : M S unit) (k : M S B) s :
  never_throws c -> (c ;; k) s = k (snd (c s)).
Proof.
  intros H. unfold Effects.bind. specialize (H s).
  destruct (c s) as [[[]|msg] s']; simpl in *; congruence.
Qed.

Lemma throttled_update_never_throws r t n now :
  never_throws (throttled_update r t n now).
Proof.
  intros s. unfold throttled_update.
  destruct ((0 <? t_totalBytes t) && _);
    cbn -[num_div alter list_alter lookup list_lookup getAllQueues objects];
    repeat case_match; reflexivity.
Qed.

Lemma throttled_update_keeps r t n now :
  keeps_progress (t_download t) (throttled_update r t n now).
Proof.
  intros s d Hd. unfold throttled_update.
  destruct ((0 <? t_totalBytes t) && _); heap_eval Hd;
    eexists; (split; [reflexivity|split; reflexivity]).
Qed.

Lemma pipe_write_keeps r t n : keeps_progress (t_download t) (pipe_write r t n).
Proof.
  intros s d Hd. unfold pipe_write. cbn -[bool_decide].
  destruct (bool_decide _); cbn; eauto.
Qed.

(** The heap after a chunk that is not refused: the descriptor has the new
    byte count, and the rounded progress when the total is known. *)
Lemma on_data_heap (s : Manager) (r : req) (t : Transfer) (d : Download)
    (len now : Z) :
  transfers s !! r = Some t ->
  t_stream t <> no_stream -> t_destroyed t = false ->
  heap s !! t_download t = Some d ->
  id d ∉ pausedDownloads s ->
  exists d',
    heap (snd (on_data r len now s)) !! t_download t = Some d'
    /\ downloadedBytes d' = t_downloadedBytes t + len
    /\ progress d'
       = if 0 <? t_totalBytes t
         then Math_round (percentage (t_downloadedBytes t + len) (t_totalBytes t))
         else progress d.
Proof.
  intros Ht Hs Hd Hh Hp. unfold on_data, Effects.bind at 1, Effects.get at 1.
  rewrite Ht.
  rewrite (bool_decide_eq_false_2 _ Hs), Hd. cbn [orb].
  unfold Effects.bind at 1, read at 1, gets at 1. rewrite Hh.
  cbn [from_option]. rewrite (bool_decide_eq_false_2 _ Hp).
  set (n := t_downloadedBytes t + len).
  set (s1 := snd ((update_transfer r (set_counters (t_totalBytes t) n) ;;
                   assign (t_download t) (set_downloadedBytes n) ;;
                   when (0 <? t_totalBytes t)
                     (assign (t_download t)
                        (set_progress
                           (Math_round (percentage n (t_totalBytes t)))))) s)).
  assert (H1 : exists d1, heap s1 !! t_download t = Some d1
             /\ downloadedBytes d1 = n
             /\ progress d1 = if 0 <? t_totalBytes t
                 then Math_round (percentage n (t_totalBytes t))
                 else progress d).
  { subst s1. destruct (0 <? t_totalBytes t); heap_eval Hh;
      eexists; (split; [reflexivity|split; reflexivity]). }
  destruct H1 as (d1 & Hd1 & Hn1 & Hp1).
  assert (H2 : exists d2,
             heap (snd (when (500 <=? now - t_lastUpdate t)
                          (throttled_update r t n now) s1)) !! t_download t = Some d2
             /\ downloadedBytes d2 = downloadedBytes d1
             /\ progress d2 = progress d1).
  { destruct (500 <=? now - t_lastUpdate t); cbn [when].
    - now apply throttled_update_keeps.
    - cbn. eauto. }
  destruct H2 as (d2 & Hd2 & Hn2 & Hp2).
  destruct (pipe_write_keeps r t len _ _ Hd2) as (d3 & Hd3 & Hn3 & Hp3).
  exists d3. split; [|split; congruence].
  rewrite <- Hd3. f_equal. f_equal. subst s1.
  rewrite (bind_never_throws (update_transfer _ _)) by (intro; reflexivity).
  rewrite (bind_never_throws (assign _ _)) by (intro; reflexivity).
  rewrite (bind_never_throws (when _ _))
    by (intro; destruct (0 <? t_totalBytes t); reflexivity).
  rewrite (bind_never_throws (when _ _)).
  2:{ intro. destruct (500 <=? now - t_lastUpdate t); cbn [when];
      [apply throttled_update_never_throws|reflexivity]. }
  reflexivity.
Qed.

(** C6, as amended.  After a chunk that the data listener accepts (the
    download is not flagged as paused), the descriptor's [downloadedBytes]
    is the running byte count; when the total from [Content-Length] is
    positive its [progress] is [Math.round((downloadedBytes / totalBytes)
    * 100)] as the doubles of JavaScript compute it, which is an integer
    nearest to the percentage, and not its floor, while fewer than [2^44]
    bytes have arrived and the total is below [2^53]; when the total is
    unknown ([0]) the progress is left as it was. *)
Theorem chunk_progress_is_rounded (s : Manager) (r : req) (t : Transfer)
    (d : Download) (len now : Z) :
  transfers s !! r = Some t ->
  t_stream t <> no_stream -> t_destroyed t = false ->
  heap s !! t_download t = Some d ->
  id d ∉ pausedDownloads s ->
  exists d',
    heap (snd (on_data r len now s)) !! t_download t = Some d'
    /\ downloadedBytes d' = t_downloadedBytes t + len
    /\ (0 < t_totalBytes t ->
        progress d'
        = Math_round (percentage (downloadedBytes d') (t_totalBytes t))
        /\ (0 <= downloadedBytes d' < 2 ^ 44 -> t_totalBytes t < 2 ^ 53 ->
            2 * Z.abs (progress d' * t_totalBytes t - 100 * downloadedBytes d')
            <= t_totalBytes t))
    /\ (t_totalBytes t <= 0 -> progress d' = progress d).
Proof.
  intros Ht Hs Hd Hh Hp.
  destruct (on_data_heap s r t d len now Ht Hs Hd Hh Hp) as (d' & H1 & H2 & H3).
  exists d'. split; [exact H1|]. split; [exact H2|]. split.
  - intros Hpos. rewrite (proj2 (Z.ltb_lt _ _) Hpos) in H3.
    rewrite H2. split; [exact H3|]. intros Hn _. rewrite H3.
    now apply Math_round_percentage_nearest.
  - intros Hle. rewrite (proj2 (Z.ltb_ge _ _) Hle) in H3. exact H3.
Qed.

End ChunkProgress.

Section ChunkProgressExamples.
Import JS Effects Collections Downloads Transfers Scenarios.

(** Two bytes of three: the progress written is 67, the floor of the
    percentage is 66. *)
Lemma progress_is_not_the_floor :
  let s := run two_of_three (new_manager desktop) in
  exists d, heap s !! 0%nat = Some d
    /\ totalBytes d = 3 /\ downloadedBytes d = 2
    /\ progress d = 67
    /\ Qfloor (inject_Z (downloadedBytes d) / inject_Z (totalBytes d) * 100)%Q = 66
    /\ progress d
       <> Qfloor (inject_Z (downloadedBytes d) / inject_Z (totalBytes d) * 100)%Q.
Proof. vm_compute. eexists. repeat split; try reflexivity. discriminate. Qed.

(** Where the percentage is exactly halfway between two integers, the
    rounding of the quotient and of the product decides: one byte of
    eight gives 13 (the double is 12.5), 23 of 40 give 57 and 29 of 200
    give 14 (the doubles are just below 57.5 and 14.5). *)
Example progress_at_exact_halves :
  Math_round (percentage 1 8) = 13
  /\ Math_round (percentage 23 40) = 57
  /\ Math_round (percentage 29 200) = 14
  /\ (percentage 23 40 < 575 # 10)%Q.
Proof. vm_compute. repeat split; reflexivity. Qed.

Lemma chunk_progress_is_rounded_witness :
  let s := run (removelast two_of_three) (new_manager desktop) in
  exists d',
    heap (snd (on_data 0%nat 2 2100 s)) !! 0%nat = Some d'
    /\ downloadedBytes d' = 0 + 2
    /\ (0 < 3 ->
        progress d' = Math_round (percentage (downloadedBytes d') 3)
        /\ (0 <= downloadedBytes d' < 2 ^ 44 -> 3 < 2 ^ 53 ->
            2 * Z.abs (progress d' * 3 - 100 * downloadedBytes d') <= 3))
    /\ (3 <= 0 -> progress d' = 0).
Proof.
  intros s.
  refine (chunk_progress_is_rounded s 0%nat
    {| t_task := 0%nat; t_url := "http://localhost:3000/files/demo.zip";
       t_filePath := demo_file; t_download := 0%nat; t_https := false;
       t_startTime := 2001; t_lastUpdate := 2001; t_totalBytes := 3;
       t_downloadedBytes := 0; t_destroyed := false; t_stream := stream_open |}
    {| id := "demo-1000"; name := Some "demo"; displayName := None;
       downloadUrl := Some "/files/demo.zip"; version := Some "1.0.0";
       status := "downloading"; progress := 0; downloadedBytes := 0;
       totalBytes := 3; speed := of_Z 0; timeRemaining := None;
       addedAt := 1000; startedAt := Some 2000; completedAt := None;
       error := None; filePath := None |}
    2 2100 _ _ _ _ _).
  - vm_compute. reflexivity.
  - simpl. discriminate.
  - reflexivity.
  - vm_compute. reflexivity.
  - vm_compute. discriminate.
Defined.

End ChunkProgressExamples.

Section QueueOperations.
Import JS Effects Collections Downloads Transfers Scenarios.

(** C8.  When [upNext] is empty, or its head already has an entry in
    [activeDownloads], [startNextDownload] returns [null] and leaves the
    whole state of the manager as it is: the queues, the active map, the
    paused set, the store, and the list of emitted events. *)
Theorem startNextDownload_noop (s : Manager) (now : Z) :
  upNext s = []
  \/ (exists download rest d,
        upNext s = download :: rest /\ heap s !! download = Some d
        /\ Map_has (id d) (activeDownloads s) = true) ->
  startNextDownload now s = (Ok returned_null, s).
Proof.
  intros [H|(download & rest & d & Hq & Hd & Ha)];
    unfold startNextDownload, Effects.bind, Effects.get; rewrite H || rewrite Hq.
  - reflexivity.
  - rewrite Hd. cbn [from_option]. rewrite Ha. reflexivity.
Qed.

Lemma startNextDownload_noop_witness :
  startNextDownload 2500 (run streaming (new_manager desktop))
  = (Ok returned_null, run streaming (new_manager desktop))
  /\ startNextDownload 7 (new_manager desktop) = (Ok returned_null, new_manager desktop).
Proof.
  split.
  - apply startNextDownload_noop. right.
    exists 0%nat, [].
    eexists. split; [vm_compute; reflexivity|].
    split; [vm_compute; reflexivity|vm_compute; reflexivity].
  - apply startNextDownload_noop. left. reflexivity.
Defined.

(** What [addToQueue] does, for every argument and state. *)
Lemma addToQueue_spec (info : DownloadInfo) (now : Z) (s : Manager) :
  let out := addToQueue info now s in
  let s' := snd out in
  exists d,
    fst out = Ok d
    /\ id d = default (generateDownloadId info now) (info_id info)
    /\ status d = "queued" /\ progress d = 0
    /\ downloadedBytes d = 0 /\ totalBytes d = 0
    /\ heap s' = (heap s ++ [d])%list
    /\ scheduled s' = (scheduled s ++ [length (heap s)])%list
    /\ upNext s' = upNext s /\ complete s' = complete s
    /\ store_queues s'
       = Some {| q_scheduled := objects (heap s') (scheduled s');
                 q_complete := objects (heap s') (complete s');
                 q_upNext := objects (heap s') (upNext s') |}
    /\ emitted s' = (emitted s ++ [queues_updated (getAllQueues s')])%list.
Proof. cbv zeta. eexists. repeat split; reflexivity. Qed.

Lemma append_longer (a b : string) : b <> "" -> a <> a +:+ b.
Proof.
  intros Hb. induction a as [|c a IH]; simpl.
  - intros E. apply Hb. symmetry. exact E.
  - intros E. injection E as E. exact (IH E).
Qed.

Lemma generated_id_differs (info : DownloadInfo) (i : string) (now : Z) :
  info_id info = Some i -> i <> generateDownloadId info now.
Proof.
  intros Hi. unfold generateDownloadId, str_or. rewrite Hi.
  destruct (String.eqb_spec i "") as [->|Hne].
  - destruct (template (info_name info)); discriminate.
  - cbn [template default from_option]. apply append_longer. discriminate.
Qed.

(** C7, on the code.  When the argument of [addToQueue] carries an [id],
    the descriptor returned has that id, and not the id that
    [generateDownloadId] builds from it and the timestamp. *)
Theorem addToQueue_keeps_given_id (info : DownloadInfo) (i : string) (now : Z)
    (s : Manager) :
  info_id info = Some i ->
  exists d, fst (addToQueue info now s) = Ok d
    /\ id d = i /\ id d <> generateDownloadId info now.
Proof.
  intros Hi. destruct (addToQueue_spec info now s) as (d & Hd & Hid & _).
  exists d. rewrite Hi in Hid. cbn in Hid. rewrite Hid.
  split; [exact Hd|]. split; [reflexivity|]. now apply generated_id_differs.
Qed.

Lemma addToQueue_keeps_given_id_witness :
  exists d, fst (addToQueue clipper 1000 (new_manager desktop)) = Ok d
    /\ id d = "screen-clipper"
    /\ id d <> generateDownloadId clipper 1000.
Proof. apply (addToQueue_keeps_given_id clipper "screen-clipper"). reflexivity. Defined.

(** What [addToQueue] does for every argument and state: it returns a new
    descriptor with the status ['queued'], progress 0 and zero byte
    counters, whose id is the generated one when the argument has no [id]
    of its own; the descriptor is appended to the tail of [scheduled], the
    other queues stay, the queues are persisted as they then are, and
    [queues-updated] is the last event emitted. *)
Theorem addToQueue_appends_queued_descriptor (info : DownloadInfo) (now : Z)
    (s : Manager) :
  let out := addToQueue info now s in
  let s' := snd out in
  exists d,
    fst out = Ok d
    /\ (info_id info = None -> id d = generateDownloadId info now)
    /\ status d = "queued" /\ progress d = 0
    /\ downloadedBytes d = 0 /\ totalBytes d = 0
    /\ heap s' !! length (heap s) = Some d
    /\ scheduled s' = (scheduled s ++ [length (heap s)])%list
    /\ upNext s' = upNext s /\ complete s' = complete s
    /\ store_queues s'
       = Some {| q_scheduled := objects (heap s') (scheduled s');
                 q_complete := objects (heap s') (complete s');
                 q_upNext := objects (heap s') (upNext s') |}
    /\ last (emitted s') = Some (queues_updated (getAllQueues s')).
Proof.
  cbv zeta.
  destruct (addToQueue_spec info now s)
    as (d & H1 & H2 & H3 & H4 & H5 & H6 & H7 & H8 & H9 & H10 & H11 & H12).
  exists d. conjuncts; try assumption.
  - intros Hn. rewrite Hn in H2. exact H2.
  - rewrite H7. rewrite lookup_app_r by lia. now rewrite Nat.sub_diag.
  - rewrite H12. apply last_snoc.
Qed.

Example generated_id_of_clipper :
  generateDownloadId clipper 1000 = "screen-clipper-1000".
Proof. reflexivity. Qed.

(** C3, on the code.  An entry that carries an id, queued twice, gives
    two descriptors with that one id; promoting the id moves the first of
    them, and the id is then in [scheduled] and in [upNext]. *)
Theorem same_id_in_both_queues (e : Env) (info : DownloadInfo) (i : string)
    (now1 now2 : Z) :
  info_id info = Some i ->
  let s := run (queue_twice_promote info now1 now2 i) (new_manager e) in
  ids s (scheduled s) = [i]
  /\ ids s (upNext s) = [i]
  /\ i ∈ ids s (scheduled s)
  /\ i ∈ ids s (upNext s).
Proof.
  intros Hi. cbv zeta.
  set (s := run (queue_twice_promote info now1 now2 i) (new_manager e)).
  assert (E : ids s (scheduled s) = [i] /\ ids s (upNext s) = [i]).
  { subst s. unfold queue_twice_promote, run. cbn [fold_left step].
    destruct (addToQueue_spec info now1 (new_manager e))
      as (d1 & _ & A2 & _ & _ & _ & _ & A7 & A8 & A9 & _).
    set (s1 := snd (addToQueue info now1 (new_manager e))) in *. clearbody s1.
    destruct (addToQueue_spec info now2 s1)
      as (d2 & _ & B2 & _ & _ & _ & _ & B7 & B8 & B9 & _).
    set (s2 := snd (addToQueue info now2 s1)) in *. clearbody s2.
    rewrite Hi in A2, B2. cbn [default from_option] in A2, B2.
    rewrite A7 in B7. rewrite A8, A7 in B8. rewrite A9 in B9.
    cbn in B7, B8, B9.
    assert (Hh : has_id (heap s2) i 0%nat = true).
    { unfold has_id. rewrite B7. cbn. rewrite A2.
      apply bool_decide_eq_true_2. reflexivity. }
    unfold ids, moveToUpNext, saveQueues, emit. op_unfold.
    rewrite B8. cbn [findIndex]. rewrite Hh.
    cbn -[getAllQueues objects]. rewrite B8, B9, B7. cbn.
    rewrite A2, B2. split; reflexivity. }
  destruct E as [E1 E2]. rewrite E1, E2.
  conjuncts; try reflexivity; apply list_elem_of_here.
Qed.

Lemma same_id_in_both_queues_witness :
  let s := run queued_twice (new_manager desktop) in
  ids s (scheduled s) = ["screen-clipper"]
  /\ ids s (upNext s) = ["screen-clipper"]
  /\ "screen-clipper" ∈ ids s (scheduled s)
  /\ "screen-clipper" ∈ ids s (upNext s).
Proof.
  apply (same_id_in_both_queues desktop clipper "screen-clipper" 1000 5000).
  reflexivity.
Defined.

(** The same with generated ids, for two calls in one millisecond. *)
Lemma same_generated_id_in_both_queues :
  let s := run queued_twice_at_once (new_manager desktop) in
  ids s (scheduled s) = ["demo-1000"] /\ ids s (upNext s) = ["demo-1000"].
Proof. vm_compute. split; reflexivity. Qed.

End QueueOperations.

Section PauseAndFailure.
Import JS Effects Collections Downloads Transfers Specs.

(** What [pauseDownload] does to an active download. *)
Lemma pauseDownload_state (s : Manager) (i : string) (h : Handle) (d : Download) :
  Map_get i (activeDownloads s) = Some h ->
  heap s !! download h = Some d ->
  let out := pauseDownload i s in
  let s1 := snd out in
  fst out = Ok (Some (set_status "paused" d))
  /\ heap s1 = alter (set_status "paused") (download h) (heap s)
  /\ pausedDownloads s1 = {[i]} ∪ pausedDownloads s
  /\ tasks s1 = tasks s /\ transfers s1 = transfers s
  /\ files s1 = files s
  /\ activeDownloads s1 = activeDownloads s
  /\ errors_of s1 = errors_of s.
Proof.
  intros Ha Hd. cbv zeta.
  unfold pauseDownload, on_object, read, saveQueues, assign, emit.
  op_unfold. rewrite Ha. heap_eval Hd.
  unfold errors_of. rewrite !omap_app. cbn. rewrite !app_nil_r.
  conjuncts; reflexivity.
Qed.

Lemma Map_has_delete {V} (k : string) (m : list (string * V)) :
  Map_has k (Map_delete k m) = false.
Proof.
  unfold Map_has, Map_get, Map_delete. apply bool_decide_eq_false_2.
  intros [v Hv]. apply fmap_Some in Hv as (e & He & _).
  induction m as [|x m IH]; [discriminate|].
  rewrite filter_cons in He. destruct (decide (x.1 <> k)) as [Hx|Hx].
  - cbn in He. rewrite (bool_decide_eq_false_2 _ Hx) in He. auto.
  - auto.
Qed.

(** A chunk that arrives for a paused download: the data listener rejects
    with ['Download paused'], and the [catch] block of the awaiting
    [startDownload] records that as an error; the write of [pipe] on the
    closed stream then has the file deleted. *)
Lemma on_data_paused (s : Manager) (r : req) (t : Transfer) (k : Task)
    (d : Download) (filePath : string) (len now : Z) :
  transfers s !! r = Some t ->
  t_stream t <> no_stream -> t_destroyed t = false ->
  heap s !! t_download t = Some d -> id d ∈ pausedDownloads s ->
  tasks s !! t_task t = Some k -> task_download k = t_download t ->
  task_phase k = await_downloadFile filePath ->
  let s2 := snd (on_data r len now s) in
  (status <$> heap s2 !! t_download t) = Some "error"
  /\ (error <$> heap s2 !! t_download t) = Some (Some "Download paused")
  /\ id d ∈ errors_of s2
  /\ Map_has (id d) (activeDownloads s2) = false
  /\ (task_phase <$> tasks s2 !! t_task t)
     = Some (settled (Throw "Download paused"))
  /\ pausedDownloads s2 = pausedDownloads s
  /\ files s2 = delete (t_filePath t) (files s).
Proof.
  intros Ht Hs Hx Hd Hp Hk Hkd Hph. cbv zeta.
  unfold on_data, stream_failed, Transfers.reject, startDownload_failed,
    on_object, read, saveQueues, assign, emit, update_transfer, destroy,
    set_phase.
  op_unfold. rewrite Ht.
  rewrite (bool_decide_eq_false_2 _ Hs), Hx. cbn [orb]. rewrite Hd.
  cbn [from_option]. rewrite (bool_decide_eq_true_2 _ Hp).
  heap_eval Hk. rewrite Hph. heap_eval Hk. rewrite Hkd. heap_eval Hd.
  destruct (task_caller k); heap_eval Hd; rewrite ?list_lookup_alter_eq, ?Hk; cbn.
  all: conjuncts; rewrite ?list_lookup_alter_eq, ?Hd, ?Hk;
    try reflexivity; try exact (Map_has_delete _ _).
  all: rewrite !omap_app; cbn; set_solver.
Qed.

(** C1, on the code.  For an active download whose transfer is under way,
    [pauseDownload] sets the status ['paused'] and emits no
    [download-error]; the next chunk then finds the paused flag, the data
    listener rejects, and the [catch] block of [startDownload] sets the
    status ['error'] with the message ['Download paused'], drops the
    active handle and emits [download-error] for the descriptor. *)
Theorem pause_abort_becomes_error (s : Manager) (r : req) (t : Transfer)
    (k : Task) (d : Download) (filePath : string) (len now : Z) :
  transfers s !! r = Some t ->
  t_stream t <> no_stream -> t_destroyed t = false ->
  heap s !! t_download t = Some d ->
  Map_get (id d) (activeDownloads s)
  = Some {| download := t_download t; request := Some r |} ->
  tasks s !! t_task t = Some k -> task_download k = t_download t ->
  task_phase k = await_downloadFile filePath ->
  let s1 := snd (pauseDownload (id d) s) in
  let s2 := snd (on_data r len now s1) in
  (status <$> heap s1 !! t_download t) = Some "paused"
  /\ errors_of s1 = errors_of s
  /\ (status <$> heap s2 !! t_download t) = Some "error"
  /\ (error <$> heap s2 !! t_download t) = Some (Some "Download paused")
  /\ id d ∈ errors_of s2
  /\ id d ∈ pausedDownloads s2
  /\ Map_has (id d) (activeDownloads s2) = false.
Proof.
  intros Ht Hs Hx Hd Ha Hk Hkd Hph. cbv zeta.
  destruct (pauseDownload_state s (id d) _ d Ha Hd)
    as (_ & Hh1 & Hp1 & Hk1 & Ht1 & _ & _ & He1).
  cbn [download] in Hh1.
  assert (Hd1 : heap (snd (pauseDownload (id d) s)) !! t_download t
                = Some (set_status "paused" d)).
  { rewrite Hh1, list_lookup_alter_eq, Hd. reflexivity. }
  destruct (on_data_paused (snd (pauseDownload (id d) s)) r t k
              (set_status "paused" d) filePath len now)
    as (H1 & H2 & H3 & H4 & _ & H5 & _); try assumption.
  - now rewrite Ht1.
  - rewrite Hp1. apply elem_of_union_l. now apply elem_of_singleton.
  - now rewrite Hk1.
  - rewrite Hd1. conjuncts; try assumption; try reflexivity.
    rewrite H5, Hp1. apply elem_of_union_l. now apply elem_of_singleton.
Qed.

(** The listeners that reject without touching the file system. *)
Ltac frame_files :=
  unfold Transfers.reject, startDownload_failed, on_object, read,
    saveQueues, assign, emit, update_transfer, destroy, set_phase, downloadFile;
  op_unfold;
  repeat (cbn -[alter list_alter lookup list_lookup getAllQueues objects];
          try reflexivity; case_match; op_unfold; simplify_eq).

Lemma reject_files (k : task) (message : string) (s : Manager) :
  files (snd (Transfers.reject k message s)) = files s.
Proof. frame_files. Qed.

Lemma on_request_error_files (r : req) (message : string) (s : Manager) :
  files (snd (on_request_error r message s)) = files s.
Proof.
  unfold on_request_error, Effects.bind at 1, Effects.get at 1.
  destruct (transfers s !! r); [apply reject_files|reflexivity].
Qed.

Lemma cancelDownload_files (i : string) (s : Manager) :
  files (snd (cancelDownload i s)) = files s.
Proof. unfold cancelDownload. frame_files. Qed.

Lemma on_response_files (r : req) (statusCode : Z)
    (location content_length : option string) (now : Z) (s : Manager) :
  statusCode <> 200 ->
  files (snd (on_response r statusCode location content_length now s)) = files s.
Proof.
  intros Hc. unfold on_response, Effects.bind at 1, Effects.get at 1.
  destruct (transfers s !! r); [|reflexivity].
  destruct (_ || _).
  - destruct (str_or location None); [|apply reject_files].
    frame_files.
  - rewrite (proj2 (Z.eqb_neq _ _) Hc). cbn [negb]. apply reject_files.
Qed.

End PauseAndFailure.

Section PauseAndFailureExamples.
Import JS Effects Collections Downloads Transfers Scenarios Specs.

Lemma pause_abort_becomes_error_witness :
  let s := run streaming (new_manager desktop) in
  let s1 := snd (pauseDownload "demo-1000" s) in
  let s2 := snd (on_data 0%nat 600 2700 s1) in
  (status <$> heap s1 !! 0%nat) = Some "paused"
  /\ errors_of s1 = errors_of s
  /\ (status <$> heap s2 !! 0%nat) = Some "error"
  /\ (error <$> heap s2 !! 0%nat) = Some (Some "Download paused")
  /\ "demo-1000" ∈ errors_of s2
  /\ "demo-1000" ∈ pausedDownloads s2
  /\ Map_has "demo-1000" (activeDownloads s2) = false.
Proof.
  cbv zeta.
  apply (pause_abort_becomes_error (run streaming (new_manager desktop)) 0%nat
           streaming_transfer streaming_task streaming_descriptor demo_file
           600 2700).
  - by_evaluation.
  - discriminate.
  - reflexivity.
  - by_evaluation.
  - by_evaluation.
  - by_evaluation.
  - reflexivity.
  - reflexivity.
Defined.

(** C5, on the code.  The listeners for a request error, for a response
    that is not 200, and [cancelDownload] leave every file as it is.  In
    the run [streaming], with 400 bytes at the destination: a request
    error rejects the transfer and the 400 bytes stay; a cancellation
    leaves them and the transfer pending; the error listener of the write
    stream is the one that deletes the file. *)
Theorem failed_transfer_leaves_partial_file :
  (forall s r message, files (snd (on_request_error r message s)) = files s)
  /\ (forall s r statusCode location content_length now,
        statusCode <> 200 ->
        files (snd (on_response r statusCode location content_length now s))
        = files s)
  /\ (forall s downloadId, files (snd (cancelDownload downloadId s)) = files s)
  /\ let s0 := run streaming (new_manager desktop) in
     let reset := step (request_error 0%nat "read ECONNRESET") s0 in
     let cancelled := step (call_cancelDownload "demo-1000") s0 in
     let disk := step (stream_error 0%nat "ENOSPC: no space left on device") s0 in
     files s0 !! demo_file = Some 400
     /\ (task_phase <$> tasks reset !! 0%nat)
        = Some (settled (Throw "read ECONNRESET"))
     /\ files reset !! demo_file = Some 400
     /\ (task_phase <$> tasks cancelled !! 0%nat)
        = Some (await_downloadFile demo_file)
     /\ files cancelled !! demo_file = Some 400
     /\ (task_phase <$> tasks disk !! 0%nat)
        = Some (settled (Throw "ENOSPC: no space left on device"))
     /\ files disk !! demo_file = None.
Proof.
  split; [intros; apply on_request_error_files|].
  split; [intros; now apply on_response_files|].
  split; [intros; apply cancelDownload_files|].
  vm_compute. repeat split; reflexivity.
Qed.

(** After a pause the file goes as well, though the paused branch has no
    [unlink] of its own: the chunk that finds the flag is written by
    [pipe] to the stream the branch has closed, and the stream's error
    listener deletes the file. *)
Example paused_chunk_deletes_partial_file :
  let s0 := run streaming (new_manager desktop) in
  let paused :=
    step (data 0%nat 600 2700) (step (call_pauseDownload "demo-1000") s0) in
  files s0 !! demo_file = Some 400
  /\ (task_phase <$> tasks paused !! 0%nat)
     = Some (settled (Throw "Download paused"))
  /\ files paused !! demo_file = None.
Proof. vm_compute. repeat split; reflexivity. Qed.

End PauseAndFailureExamples.

(** * Properties of the module manager *)

Section FileSystem.
Import Effects Values FS Specs.

Lemma rm_rf_lookup (p q : path) (t : fs) :
  rm_rf p t !! q = if decide (p `prefix_of` q) then None else t !! q.
Proof.
  unfold rm_rf. destruct (decide (p `prefix_of` q)) as [H|H].
  - apply map_lookup_filter_None. right. intros x _ Hn. apply Hn. exact H.
  - destruct (t !! q) as [x|] eqn:E.
    + apply map_lookup_filter_Some. split; [exact E|exact H].
    + apply map_lookup_filter_None. left. exact E.
Qed.

Lemma ancestors_prefix (p q : path) :
  q ∈ ancestors_and_self p -> q `prefix_of` p.
Proof.
  unfold ancestors_and_self. intros H.
  apply list_elem_of_fmap in H as (n & -> & _). apply prefix_take.
Qed.

Lemma mkdir_p_frame (p q : path) (t : fs) :
  ~ q `prefix_of` p -> snd (mkdir_p p t) !! q = t !! q.
Proof.
  intros Hq. unfold mkdir_p. destruct (forallb _ _); [|reflexivity].
  cbn [snd]. pose proof (ancestors_prefix p) as Ha.
  induction (ancestors_and_self p) as [|a l IH]; [reflexivity|].
  cbn [foldr]. destruct (bool_decide _).
  - rewrite lookup_insert_ne.
    + apply IH. intros x Hx. apply Ha. now right.
    + intros ->. apply Hq, Ha. now left.
  - apply IH. intros x Hx. apply Ha. now right.
Qed.

Lemma removelast_prefix (p : path) : removelast p `prefix_of` p.
Proof.
  induction p as [|a [|b p] IH]; cbn [removelast].
  - reflexivity.
  - apply prefix_nil.
  - apply prefix_cons. exact IH.
Qed.

Lemma extractAllTo_frame (a : entries) (target q : path) (t : fs) :
  ~ related target q -> extractAllTo a target t !! q = t !! q.
Proof.
  intros Hq. unfold extractAllTo. revert t.
  induction a as [|e a IH]; intros t; [reflexivity|].
  cbn [foldl]. rewrite IH. rewrite lookup_insert_ne.
  - apply mkdir_p_frame. intros H. apply Hq.
    assert (H' : q `prefix_of` (target ++ e.1)%list).
    { etransitivity; [exact H|apply removelast_prefix]. }
    destruct (prefix_weak_total target q (target ++ e.1)%list) as [?|?];
      [now apply prefix_app_r|exact H'|now left|now right].
  - intros <-. apply Hq. left. now apply prefix_app_r.
Qed.

End FileSystem.

Section Registry.
Import Effects Collections Values FS Modules Specs.

Lemma find_None_filter {A} (p : A -> bool) (l : list A) :
  Collections.find p l = None -> List.filter p l = [].
Proof.
  induction l as [|x l IH]; cbn; [reflexivity|].
  destruct (p x); [discriminate|exact IH].
Qed.

(** The three ways [getInstalledModule] goes: a cached record, a record
    found in the store and cached, no record. *)
Lemma getInstalledModule_cases (i : jsval) (s : State) :
  (exists m, installedModules s !! i = Some m
     /\ getInstalledModule i s = (Ok (Some m), s))
  \/ (exists m, installedModules s !! i = None
     /\ Collections.find (fun m => strict_eq (get m "id") i) (store_installed s) = Some m
     /\ getInstalledModule i s
        = (Ok (Some m), with_installedModules (<[i := m]> (installedModules s)) s))
  \/ (installedModules s !! i = None
     /\ with_id i (store_installed s) = []
     /\ getInstalledModule i s = (Ok None, s)).
Proof.
  unfold getInstalledModule. op_unfold.
  destruct (installedModules s !! i) as [m|] eqn:E.
  - left. eauto.
  - right. destruct (Collections.find _ _) as [m|] eqn:F.
    + left. eauto.
    + right. split; [reflexivity|]. split; [|reflexivity].
      now apply find_None_filter.
Qed.

Lemma getInstalledModule_found (i : jsval) (s : State) (m : object) :
  fst (getInstalledModule i s) = Ok (Some m) ->
  let s' := snd (getInstalledModule i s) in
  installedModules s' !! i = Some m
  /\ files s' = files s /\ store_installed s' = store_installed s
  /\ userData s' = userData s /\ activeModules s' = activeModules s
  /\ getInstalledModule i s' = (Ok (Some m), s').
Proof.
  destruct (getInstalledModule_cases i s)
    as [(m' & E & ->)|[(m' & E & F & ->)|(E & F & ->)]]; cbn; intros [= <-].
  - repeat split; try assumption;
      try (unfold getInstalledModule; op_unfold; now rewrite E).
  - rewrite lookup_insert_eq. repeat split;
      try (unfold getInstalledModule; op_unfold; cbn; now rewrite lookup_insert_eq).
Qed.

Lemma getInstalledModule_same_registry (i : jsval) (s1 s2 : State) :
  store_installed s1 = store_installed s2 ->
  installedModules s1 = installedModules s2 ->
  fst (getInstalledModule i s1) = fst (getInstalledModule i s2).
Proof.
  intros Hs Hm. unfold getInstalledModule. op_unfold. rewrite Hs, Hm.
  destruct (installedModules s2 !! i); [reflexivity|].
  destruct (Collections.find _ _); reflexivity.
Qed.

End Registry.

Section Install.
Import Effects Collections Values FS Modules Specs.

Lemma unrelated_extension (root x q : path) :
  ~ related root q -> ~ related (root ++ x)%list q.
Proof.
  intros H [R|R]; apply H.
  - left. exact (prefix_app_l _ _ _ R).
  - destruct (prefix_weak_total root q (root ++ x)%list) as [?|?];
      [now apply prefix_app_r|exact R|now left|now right].
Qed.

Lemma same_but_staging_refl s : same_but_staging s s.
Proof. repeat split. Qed.

Lemma stage_frame (filePath : path) (now : Z) (s : State) :
  same_but_staging s (snd (stage filePath now s)).
Proof.
  unfold stage. op_unfold.
  destruct (files s !! filePath) as [[| |a]|]; try apply same_but_staging_refl.
  set (temp := (modulesDir s ++ ["temp"; "install-" +:+ pretty now])%list).
  assert (Hm : forall q, ~ related (modulesDir s ++ ["temp"])%list q ->
             snd (mkdir_p temp (files s)) !! q = files s !! q).
  { intros q Hq. apply mkdir_p_frame. intros R.
    apply (unrelated_extension _ ["install-" +:+ pretty now] _ Hq).
    right. subst temp. now rewrite <- app_assoc. }
  assert (He : forall q, ~ related (modulesDir s ++ ["temp"])%list q ->
             extractAllTo a temp (snd (mkdir_p temp (files s))) !! q = files s !! q).
  { intros q Hq. rewrite extractAllTo_frame; [now apply Hm|].
    subst temp. replace (modulesDir s ++ ["temp"; "install-" +:+ pretty now])%list
      with ((modulesDir s ++ ["temp"]) ++ ["install-" +:+ pretty now])%list
      by now rewrite <- app_assoc.
    now apply unrelated_extension. }
  destruct (mkdir_p temp (files s)) as [[[]|msg] t'] eqn:E; cbn [fst snd] in *.
  - cbn -[extractAllTo]. unfold validateManifest. op_unfold.
    repeat case_match; simplify_eq; cbn -[extractAllTo]; repeat split; assumption.
  - cbn. repeat split; assumption.
Qed.

Lemma sweep_staging_frame (s : State) :
  fst (sweep_staging s) = Ok tt
  /\ userData (snd (sweep_staging s)) = userData s
  /\ store_installed (snd (sweep_staging s)) = store_installed s
  /\ installedModules (snd (sweep_staging s)) = installedModules s
  /\ activeModules (snd (sweep_staging s)) = activeModules s
  /\ loadedTools (snd (sweep_staging s)) = loadedTools s
  /\ (forall q, ~ (modulesDir s ++ ["temp"])%list `prefix_of` q ->
        files (snd (sweep_staging s)) !! q = files s !! q).
Proof.
  unfold sweep_staging. op_unfold.
  destruct (readdir _ _) as [dirs|]; cbn; repeat split.
  intros q Hq. generalize (files s).
  induction dirs as [|d dirs IH]; intros t; [reflexivity|].
  cbn [foldl]. rewrite IH. destruct (String.prefix _ _); [|reflexivity].
  rewrite rm_rf_lookup. destruct (decide _) as [R|_]; [|reflexivity].
  exfalso. apply Hq. exact (prefix_app_l _ _ _ R).
Qed.

Lemma getInstalledModule_cached (i : jsval) (s : State) (m : object) :
  installedModules s !! i = Some m ->
  getInstalledModule i s = (Ok (Some m), s).
Proof. intros H. unfold getInstalledModule. op_unfold. now rewrite H. Qed.

(** A directory below [modulesDir/<category>] is away from the staging
    root [modulesDir/temp] when the category is not [temp]. *)
Lemma category_dir_unrelated (root rest q : path) (category : string) :
  category <> "temp" ->
  (root ++ category :: rest)%list `prefix_of` q ->
  ~ related (root ++ ["temp"])%list q.
Proof.
  intros Hc [k ->] [R|R].
  - rewrite <- app_assoc in R. apply prefix_app_inv in R.
    apply prefix_cons_inv_1 in R. congruence.
  - rewrite <- app_assoc in R. apply prefix_app_inv in R.
    apply prefix_cons_inv_1 in R. congruence.
Qed.

(** A path below one that is away from [root] is away from it too. *)
Lemma below_unrelated (root p q : path) :
  ~ related root p -> p `prefix_of` q -> ~ related root q.
Proof.
  intros H Hpq [R|R]; apply H.
  - destruct (prefix_weak_total root p q R Hpq); [now left|now right].
  - right. now transitivity q.
Qed.

(** C2, as amended.  When the archive stages and validates (steps 1 to 3
    succeed with [manifest]) and the registry already has a module under
    the manifest's id with the same version, [installModule] throws the
    duplicate-install error; the persisted list is the one before the
    call, the registry still answers the existing record for that id, the
    active modules are untouched, and the files agree with those before
    the call everywhere away from the staging root: in every module
    directory [modulesDir/<category>/...], and in the directory of the
    existing module when its [installPath] is away from the staging
    root. *)
Theorem duplicate_install_rejected (s s1 : State) (filePath temp : path)
    (moduleInfo manifest existing : object) (now : Z) :
  stage filePath now s = (Ok (temp, manifest), s1) ->
  fst (getInstalledModule (get manifest "id") s) = Ok (Some existing) ->
  get existing "version" = get manifest "version" ->
  let out := installModule filePath moduleInfo now s in
  fst out = Throw (duplicate_message manifest)
  /\ store_installed (snd out) = store_installed s
  /\ fst (getInstalledModule (get manifest "id") (snd out)) = Ok (Some existing)
  /\ activeModules (snd out) = activeModules s
  /\ (forall q, ~ related (modulesDir s ++ ["temp"])%list q ->
        files (snd out) !! q = files s !! q)
  /\ (forall category rest q,
        category <> "temp" ->
        (modulesDir s ++ category :: rest)%list `prefix_of` q ->
        files (snd out) !! q = files s !! q)
  /\ (forall p q,
        get existing "installPath" = str p ->
        ~ related (modulesDir s ++ ["temp"])%list (parse p) ->
        parse p `prefix_of` q ->
        files (snd out) !! q = files s !! q).
Proof.
  intros Hst Hex Hv out.
  pose proof (stage_frame filePath now s) as F. rewrite Hst in F.
  destruct F as (Fu & Fs & Fm & Fa & Ft & Ff). cbn [snd] in *.
  rewrite <- (getInstalledModule_same_registry _ s1 s Fs Fm) in Hex.
  pose proof (getInstalledModule_found _ _ _ Hex) as G. cbv zeta in G.
  destruct (getInstalledModule (get manifest "id") s1) as [r s2] eqn:E.
  cbn [fst snd] in *. subst r.
  destruct G as (Gm & Gf & Gs & Gu & Ga & _).
  assert (Hout : out = (Throw (duplicate_message manifest), snd (sweep_staging s2))).
  { subst out. unfold installModule, Effects.try_catch, Effects.bind at 1.
    rewrite Hst. cbn [fst snd].
    unfold Effects.bind at 1, resolve_existing, Effects.bind at 1.
    rewrite E. unfold strict_eq.
    rewrite (bool_decide_eq_true_2 _ Hv). unfold Effects.throw at 1.
    unfold Effects.bind, Effects.throw.
    destruct (sweep_staging_frame s2) as (Hok & _).
    destruct (sweep_staging s2) as [r s3]. cbn in Hok. subst r. reflexivity. }
  rewrite Hout. cbn [fst snd].
  destruct (sweep_staging_frame s2) as (_ & Su & Ss & Sm & Sa & _ & Sf).
  assert (Hfiles : forall q, ~ related (modulesDir s ++ ["temp"])%list q ->
            files (snd (sweep_staging s2)) !! q = files s !! q).
  { intros q Hq. rewrite Sf.
    - rewrite Gf. now apply Ff.
    - unfold modulesDir. rewrite Gu, Fu. intros R. apply Hq. now left. }
  split; [reflexivity|]. split; [congruence|]. split.
  { rewrite (getInstalledModule_cached _ _ existing); [reflexivity|].
    now rewrite Sm. }
  split; [congruence|]. split; [exact Hfiles|]. split.
  - intros category rest q Hc Hq. apply Hfiles.
    now apply (category_dir_unrelated _ rest _ category).
  - intros p q _ Hp Hq. apply Hfiles. exact (below_unrelated _ _ _ Hp Hq).
Qed.

Lemma with_id_removed (i : jsval) (l : list object) :
  with_id i (List.filter (fun m => negb (strict_eq (get m "id") i)) l) = [].
Proof.
  unfold with_id. induction l as [|m l IH]; cbn; [reflexivity|].
  destruct (strict_eq (get m "id") i) eqn:E; cbn; [exact IH|].
  now rewrite E.
Qed.




Lemma spread_get (a b : object) (k : string) :
  get (spread a b) k = match b !! k with Some v => v | None => get a k end.
Proof.
  unfold get, spread. destruct (b !! k) as [v|] eqn:E.
  - now rewrite (lookup_union_Some_l b a k v E).
  - now rewrite (lookup_union_r b a k E).
Qed.

(** A successful [installModule] is the three stages in a row. *)
Lemma installModule_ok (s s' : State) (filePath : path)
    (moduleInfo installation : object) (now : Z) :
  installModule filePath moduleInfo now s = (Ok installation, s') ->
  exists temp manifest s1 s2,
    stage filePath now s = (Ok (temp, manifest), s1)
    /\ resolve_existing manifest s1 = (Ok tt, s2)
    /\ place_and_register filePath temp manifest moduleInfo now s2
       = (Ok installation, s').
Proof.
  unfold installModule, Effects.try_catch, Effects.bind at 1.
  destruct (stage filePath now s) as [[[temp manifest]|e] s1] eqn:S.
  2:{ unfold Effects.bind, Effects.throw.
      destruct (sweep_staging s1) as [[[]|?] ?]; discriminate. }
  cbn [fst snd]. unfold Effects.bind at 1.
  destruct (resolve_existing manifest s1) as [[[]|e] s2] eqn:R.
  2:{ unfold Effects.bind, Effects.throw.
      destruct (sweep_staging s2) as [[[]|?] ?]; discriminate. }
  destruct (place_and_register _ _ _ _ _ s2) as [[inst|e] s3] eqn:P.
  2:{ unfold Effects.bind, Effects.throw.
      destruct (sweep_staging s3) as [[[]|?] ?]; discriminate. }
  intros [= -> ->]. exists temp, manifest, s1, s2.
  split; [reflexivity|]. split; [exact R|exact P].
Qed.


End Install.

Section InstallExamples.
Import Effects Collections Values FS Modules Specs ModuleScenarios
  TraversalScenarios.

Lemma installed_v1_state :
  store_installed installed_v1 = [record_v1]
  /\ installedModules installed_v1 !! str "screen-clipper" = Some record_v1
  /\ files installed_v1 !! ["data"; "modules"; "tools"; "screen-clipper"; "index.js"]
     = Some (file {| size := 900; json := None |})
  /\ files installed_v1 !! ["dl"; "clipper-1.0.0.zip"] = None.
Proof. conjuncts; by_evaluation. Qed.

Lemma duplicate_install_rejected_witness :
  let s := installed_v1 in
  let manifest := manifest_of "1.0.0" in
  let out := installModule ["dl"; "clipper-1.0.0-again.zip"] ∅ 2000 s in
  fst out = Throw (duplicate_message manifest)
  /\ store_installed (snd out) = store_installed s
  /\ fst (getInstalledModule (get manifest "id") (snd out)) = Ok (Some record_v1)
  /\ activeModules (snd out) = activeModules s
  /\ (forall q, ~ related (modulesDir s ++ ["temp"])%list q ->
        files (snd out) !! q = files s !! q)
  /\ (forall category rest q,
        category <> "temp" ->
        (modulesDir s ++ category :: rest)%list `prefix_of` q ->
        files (snd out) !! q = files s !! q)
  /\ (forall p q,
        get record_v1 "installPath" = str p ->
        ~ related (modulesDir s ++ ["temp"])%list (parse p) ->
        parse p `prefix_of` q ->
        files (snd out) !! q = files s !! q).
Proof.
  refine (duplicate_install_rejected installed_v1
    (snd (stage ["dl"; "clipper-1.0.0-again.zip"] 2000 installed_v1))
    ["dl"; "clipper-1.0.0-again.zip"]
    ["data"; "modules"; "temp"; "install-2000"]
    ∅ (manifest_of "1.0.0") record_v1 2000 _ _ _); by_evaluation.
Defined.

(** An archive with the id and version of the installed module whose
    manifest lacks [author] is refused by the validation, before the
    registry is consulted. *)
Lemma invalid_duplicate_is_a_validation_error :
  fst (installModule ["dl"; "broken.zip"] ∅ 2000 installed_v1)
  = Throw "Invalid manifest: missing fields author".
Proof. by_evaluation. Qed.

(** C2, as stated, fails in two ways.  An archive with the id and the
    version of the installed module whose manifest lacks [author] is
    refused with the validation error, not the duplicate-install error.
    And a module whose id climbs from its category directory into the
    staging root ([../temp/install-x], which [validateManifest] accepts)
    is installed at [modulesDir/temp/install-x]: installing its archive
    again throws the duplicate-install error, the persisted list still
    names the module, and its directory is gone, removed with the other
    [install-*] entries by the [catch] block. *)
Lemma duplicate_install_can_remove_the_module :
  let invalid := installModule ["dl"; "broken.zip"] ∅ 2000 installed_v1 in
  let out :=
    installModule ["dl"; "climber-again.zip"] ∅ 2000 installed_climbing in
  let moduleDir := ["data"; "modules"; "temp"; "install-x"] in
  (get (delete "author" (manifest_of "1.0.0")) "id" = get record_v1 "id"
   /\ get (delete "author" (manifest_of "1.0.0")) "version"
      = get record_v1 "version"
   /\ fst invalid = Throw "Invalid manifest: missing fields author")
  /\ fst (validateManifest climbing_manifest fresh_climbing) = Ok true
  /\ store_installed installed_climbing = [climbing_record]
  /\ parse "/data/modules/temp/install-x" = moduleDir
  /\ files installed_climbing !! moduleDir = Some directory
  /\ files installed_climbing !! (moduleDir ++ ["index.js"])%list
     = Some (file {| size := 900; json := None |})
  /\ fst out = Throw "Module Climber v1.0.0 is already installed"
  /\ store_installed (snd out) = [climbing_record]
  /\ files (snd out) !! moduleDir = None
  /\ files (snd out) !! (moduleDir ++ ["index.js"])%list = None.
Proof. cbv zeta. conjuncts; by_evaluation. Qed.



(** Without an override id, exactly one record with the id is persisted
    after the update, and the old files are gone before the move. *)
Lemma update_leaves_one_record :
  let out := installModule ["dl"; "clipper-2.0.0.zip"] ∅ 3000 installed_v1 in
  fst out = Ok (record_v2 ∅)
  /\ store_installed (snd out) = [record_v2 ∅]
  /\ with_id (str "screen-clipper") (store_installed (snd out)) = [record_v2 ∅].
Proof. cbv zeta. conjuncts; by_evaluation. Qed.

Example duplicate_message_of_clipper :
  duplicate_message (manifest_of "1.0.0")
  = "Module Screen Clipper v1.0.0 is already installed".
Proof. reflexivity. Qed.

End InstallExamples.

(** * Version comparison and update checks *)

Section Updates.
Import JS Versions Effects Collections Values FS Modules Specs.

Lemma registered_after_lookup (i j : jsval) (s : State) :
  registered (snd (getInstalledModule i s)) j = registered s j
  /\ store_installed (snd (getInstalledModule i s)) = store_installed s
  /\ fst (getInstalledModule i s) = Ok (registered s i).
Proof.
  unfold registered.
  destruct (getInstalledModule_cases i s)
    as [(m & E & ->)|[(m & E & F & ->)|(E & F & ->)]]; cbn [fst snd].
  - rewrite E. auto.
  - cbn. rewrite E, F. split; [|auto].
    destruct (decide (i = j)) as [<-|Hne].
    + now rewrite lookup_insert_eq, E, F.
    + now rewrite lookup_insert_ne.
  - rewrite E. split; [reflexivity|]. split; [reflexivity|].
    unfold with_id in F. destruct (Collections.find _ _) as [m|] eqn:G; [|reflexivity].
    exfalso. clear E. induction (store_installed s) as [|x l IH]; [discriminate|].
    cbn in *. destruct (strict_eq (get x "id") i); [discriminate|auto].
Qed.

Lemma omap_pointwise {A B} (f g : A -> option B) (l : list A) :
  (forall x, f x = g x) -> omap f l = omap g l.
Proof.
  intros H. induction l as [|x l IH]; cbn; [reflexivity|].
  now rewrite H, IH.
Qed.

(** The modules that [checkForUpdates] looks at, in order. *)
Lemma lookup_all (ids : list jsval) (s : State) :
  exists s',
    foldr (fun i rest =>
             let* m := getInstalledModule i in
             let* ms := rest in
             Effects.ret (option_list m ++ ms)%list)
          (Effects.ret []) ids s
    = (Ok (omap (registered s) ids), s').
Proof.
  revert s. induction ids as [|i ids IH]; intros s; cbn [foldr].
  - eexists. reflexivity.
  - unfold Effects.bind at 1.
    pose proof (fun j => proj1 (registered_after_lookup i j s)) as Hj.
    destruct (registered_after_lookup i i s) as (_ & _ & Hr).
    destruct (getInstalledModule i s) as [r s1] eqn:E.
    cbn [fst snd] in *. subst r.
    unfold Effects.bind at 1.
    destruct (IH s1) as (s' & ->). exists s'. unfold Effects.ret.
    rewrite (omap_pointwise _ _ ids Hj). cbn [omap list_omap].
    fold (omap (registered s) ids). destruct (registered s i); reflexivity.
Qed.

Lemma checkForUpdates_result (catalog : jsval -> Fetched)
    (moduleIds : option (list jsval)) (s : State) :
  fst (checkForUpdates catalog moduleIds s)
  = Ok (omap (check_module catalog) (consulted s moduleIds)).
Proof.
  unfold checkForUpdates, consulted. destruct moduleIds as [ids|].
  - unfold Effects.bind at 1. destruct (lookup_all ids s) as (s' & ->).
    reflexivity.
  - reflexivity.
Qed.

(** [compareVersions] returns 1, 0 or -1. *)
Lemma compareVersions_loop_range p1 p2 n i :
  compareVersions_loop p1 p2 n i = 1
  \/ compareVersions_loop p1 p2 n i = 0
  \/ compareVersions_loop p1 p2 n i = -1.
Proof.
  revert i. induction n as [|n IH]; intros i; cbn [compareVersions_loop]; auto.
  destruct (num_gt _ _); auto. destruct (num_lt _ _); auto.
Qed.

Lemma check_module_spec (catalog : jsval -> Fetched) (module : object) (u : Update) :
  check_module catalog module = Some u <->
  exists latest rest latestVersion currentVersion,
    catalog (get module "name") = fetched true (latest :: rest)
    /\ get latest "version" = str latestVersion
    /\ get module "version" = str currentVersion
    /\ compareVersions latestVersion currentVersion = 1
    /\ u = {| moduleId := get module "id";
              currentVersion := get module "version";
              latestVersion := get latest "version";
              updateInfo := latest |}.
Proof.
  unfold check_module, compareVersions_values. split.
  - destruct (catalog (get module "name")) as [|[] [|latest rest]] eqn:Ec;
      try discriminate.
    destruct (get latest "version") as [| | | |v1] eqn:E1; try discriminate.
    destruct (get module "version") as [| | | |v2] eqn:E2; try discriminate.
    destruct (0 <? compareVersions v1 v2) eqn:C; [|discriminate].
    intros [= <-]. exists latest, rest, v1, v2.
    split; [reflexivity|]. split; [exact E1|]. split; [reflexivity|].
    split; [|now rewrite ?E1, ?E2].
    apply Z.ltb_lt in C. unfold compareVersions in *.
    destruct (compareVersions_loop_range (Number <$> split_dot v1)
                (Number <$> split_dot v2)
                (Nat.max (length (Number <$> split_dot v1))
                         (length (Number <$> split_dot v2))) 0) as [H|[H|H]];
      [exact H|lia|lia].
  - intros (latest & rest & v1 & v2 & -> & E1 & E2 & C & ->).
    rewrite E1, E2, C. reflexivity.
Qed.

End Updates.

Section VersionClaims.
Import JS Versions Effects Collections Values FS Modules Specs.

(** The order of the specification is the lexicographic one: two versions
    tie exactly when their zero-padded components are the same. *)
Lemma lex_compare_Eq (a b : list Z) :
  length a = length b -> lex_compare a b = Eq <-> a = b.
Proof.
  revert b. induction a as [|x a IH]; intros [|y b] L; try discriminate L.
  - split; reflexivity.
  - cbn [lex_compare]. injection L as L. destruct (Z.compare_spec x y) as [->|H|H].
    + rewrite (IH b L). split; [now intros ->|now intros [= ->]].
    + split; [discriminate|intros [= -> _]; lia].
    + split; [discriminate|intros [= -> _]; lia].
Qed.

(** C9.  On versions whose dot-separated components are all numeric
    (non-empty runs of decimal digits, below 2^53), [compareVersions]
    returns the sign of the component-wise numeric order with missing
    components read as 0: 1 when the first version is greater, -1 when it
    is smaller, 0 when they tie; [compareVersions("1.2.0", "1.10.0")] is
    -1; and [checkForUpdates] returns exactly one update for each module
    it looks at for which the catalog answers successfully with a first
    entry whose version compares greater than the installed one. *)
Theorem compareVersions_is_numeric_order (v1 v2 : string) :
  numeric_version v1 = true -> numeric_version v2 = true ->
  compareVersions v1 v2 = sign_of (version_order v1 v2)
  /\ (compareVersions v1 v2 = 1 <-> version_order v1 v2 = Gt)
  /\ (compareVersions v1 v2 = -1 <-> version_order v1 v2 = Lt)
  /\ (compareVersions v1 v2 = 0 <-> version_order v1 v2 = Eq)
  /\ compareVersions "1.2.0" "1.10.0" = -1
  /\ forall (catalog : jsval -> Fetched) (moduleIds : option (list jsval))
            (s : State),
       exists updates,
         fst (checkForUpdates catalog moduleIds s) = Ok updates
         /\ forall u, u ∈ updates <->
              exists module latest rest latestVersion currentVersion,
                module ∈ consulted s moduleIds
                /\ catalog (get module "name") = fetched true (latest :: rest)
                /\ get latest "version" = str latestVersion
                /\ get module "version" = str currentVersion
                /\ compareVersions latestVersion currentVersion = 1
                /\ u = {| moduleId := get module "id";
                          currentVersion := get module "version";
                          latestVersion := get latest "version";
                          updateInfo := latest |}.
Proof.
  intros H1 H2. pose proof (compareVersions_order v1 v2 H1 H2) as E.
  split; [exact E|]. rewrite E.
  split; [destruct (version_order v1 v2); cbn; split; congruence|].
  split; [destruct (version_order v1 v2); cbn; split; congruence|].
  split; [destruct (version_order v1 v2); cbn; split; congruence|].
  split; [by_evaluation|].
  intros catalog moduleIds s. eexists. split; [apply checkForUpdates_result|].
  intros u. rewrite list_elem_of_omap. split.
  - intros (module & Hm & Hc). apply check_module_spec in Hc
      as (latest & rest & lv & cv & ?). exists module, latest, rest, lv, cv. tauto.
  - intros (module & latest & rest & lv & cv & Hm & Hrest).
    exists module. split; [exact Hm|]. apply check_module_spec.
    exists latest, rest, lv, cv. exact Hrest.
Qed.

Lemma compareVersions_is_numeric_order_witness :
  compareVersions "2.0" "1.9.9" = sign_of (version_order "2.0" "1.9.9")
  /\ (compareVersions "2.0" "1.9.9" = 1 <-> version_order "2.0" "1.9.9" = Gt)
  /\ (compareVersions "2.0" "1.9.9" = -1 <-> version_order "2.0" "1.9.9" = Lt)
  /\ (compareVersions "2.0" "1.9.9" = 0 <-> version_order "2.0" "1.9.9" = Eq)
  /\ compareVersions "1.2.0" "1.10.0" = -1
  /\ forall (catalog : jsval -> Fetched) (moduleIds : option (list jsval))
            (s : State),
       exists updates,
         fst (checkForUpdates catalog moduleIds s) = Ok updates
         /\ forall u, u ∈ updates <->
              exists module latest rest latestVersion currentVersion,
                module ∈ consulted s moduleIds
                /\ catalog (get module "name") = fetched true (latest :: rest)
                /\ get latest "version" = str latestVersion
                /\ get module "version" = str currentVersion
                /\ compareVersions latestVersion currentVersion = 1
                /\ u = {| moduleId := get module "id";
                          currentVersion := get module "version";
                          latestVersion := get latest "version";
                          updateInfo := latest |}.
Proof.
  apply (compareVersions_is_numeric_order "2.0" "1.9.9"); by_evaluation.
Defined.

Example version_order_examples :
  version_order "1.2.0" "1.10.0" = Lt
  /\ version_order "2.0" "1.9.9" = Gt
  /\ version_order "1.0" "1" = Eq
  /\ compareVersions "1.0" "1" = 0
  /\ compareVersions "2.0" "1.9.9" = 1.
Proof. repeat split; by_evaluation. Qed.

(** C10, as stated, fails: the third component of ["1.0.beta"] is not
    numeric ([Number] gives [NaN]) and the components before it are equal
    to those of ["1.0.1"], yet the result is -1, not 0; and a later
    component still decides in ["1.beta.5"] against ["1.0.3"]. *)
Lemma nonnumeric_component_is_not_a_tie :
  split_dot "1.0.beta" = ["1"; "0"; "beta"]
  /\ split_dot "1.0.1" = ["1"; "0"; "1"]
  /\ Number "beta" = NaN
  /\ compareVersions "1.0.beta" "1.0.1" = -1
  /\ compareVersions "1.0.beta" "1.0.1" <> 0
  /\ compareVersions "1.beta.5" "1.0.3" = 1.
Proof.
  split; [by_evaluation|]. split; [by_evaluation|]. split; [by_evaluation|].
  assert (E : compareVersions "1.0.beta" "1.0.1" = -1) by by_evaluation.
  split; [exact E|]. split; [rewrite E; discriminate|by_evaluation].
Qed.

(** C10, as amended.  A component that is not numeric makes [Number]
    give [NaN], and [NaN || 0] is 0: the loop compares that component as
    0, as it does a missing one, and goes on.  The result is the sign of
    the first pair of components, so read, that differ; it is 0 exactly
    when no pair differs, as for ["1.0.0-beta"] against ["1.0.0"]. *)
Theorem nonnumeric_component_counts_as_zero (v1 v2 : string) :
  let parts1 := Number <$> split_dot v1 in
  let parts2 := Number <$> split_dot v2 in
  (forall j, parts1 !! j = Some NaN -> part_at parts1 j = of_Z 0)
  /\ (forall j, parts2 !! j = Some NaN -> part_at parts2 j = of_Z 0)
  /\ (forall j, parts1 !! j = None -> part_at parts1 j = of_Z 0)
  /\ (compareVersions v1 v2 = 0 <->
      forall j, num_compare (part_at parts1 j) (part_at parts2 j) = Some Eq)
  /\ (compareVersions v1 v2 = 1 <->
      exists j, num_compare (part_at parts1 j) (part_at parts2 j) = Some Gt
        /\ forall k, (k < j)%nat ->
             num_compare (part_at parts1 k) (part_at parts2 k) = Some Eq)
  /\ (compareVersions v1 v2 = -1 <->
      exists j, num_compare (part_at parts1 j) (part_at parts2 j) = Some Lt
        /\ forall k, (k < j)%nat ->
             num_compare (part_at parts1 k) (part_at parts2 k) = Some Eq)
  /\ compareVersions "1.0.0-beta" "1.0.0" = 0
  /\ compareVersions "1.0.beta" "1.0.1" = -1.
Proof.
  intros parts1 parts2.
  assert (Hnan : forall parts j, parts !! j = Some NaN -> part_at parts j = of_Z 0).
  { intros parts j H. unfold part_at. now rewrite H. }
  assert (Hbeyond : forall j,
            (Nat.max (length parts1) (length parts2) <= j)%nat ->
            num_compare (part_at parts1 j) (part_at parts2 j) = Some Eq).
  { intros j Hj. rewrite !part_at_beyond by lia. reflexivity. }
  assert (Hdec : forall c, c <> Eq ->
            compareVersions v1 v2 = sign_of c <->
            exists j, num_compare (part_at parts1 j) (part_at parts2 j) = Some c
              /\ forall k, (k < j)%nat ->
                   num_compare (part_at parts1 k) (part_at parts2 k) = Some Eq).
  { intros c Hc. unfold compareVersions. fold parts1 parts2.
    rewrite (compareVersions_loop_decides _ _ _ _ c Hc). split.
    - intros (j & _ & Hj & Hk). exists j. split; [exact Hj|].
      intros k Hkj. apply Hk. lia.
    - intros (j & Hj & Hk). exists j. split; [|split; [exact Hj|]].
      + destruct (decide (j < Nat.max (length parts1) (length parts2))%nat);
          [lia|]. rewrite Hbeyond in Hj by lia. congruence.
      + intros k Hkj. apply Hk. lia. }
  split; [apply Hnan|]. split; [apply Hnan|].
  split; [intros j H; unfold part_at; now rewrite H|].
  split.
  { unfold compareVersions. fold parts1 parts2.
    rewrite compareVersions_loop_zero. split.
    - intros H j.
      destruct (decide (j < Nat.max (length parts1) (length parts2))%nat);
        [apply H; lia|apply Hbeyond; lia].
    - intros H j _. apply H. }
  split; [exact (Hdec Gt ltac:(discriminate))|].
  split; [exact (Hdec Lt ltac:(discriminate))|].
  split; by_evaluation.
Qed.

End VersionClaims.

(** * The waiting queues when ids are distinct *)

Section QueueInvariant.
Import JS Effects Collections Downloads Transfers Specs.

Lemma ids_omap (s : Manager) (q : list ref) :
  ids s q = omap (fun r => id <$> heap s !! r) q.
Proof.
  unfold ids, objects. induction q as [|r q IH]; [reflexivity|].
  cbn [omap list_omap]. destruct (heap s !! r); cbn; [now f_equal|exact IH].
Qed.

Lemma findIndex_Some {A} (p : A -> bool) (l : list A) (i : nat) :
  findIndex p l = Some i -> exists x, l !! i = Some x /\ p x = true.
Proof.
  revert i. induction l as [|x l IH]; intros i; cbn; [discriminate|].
  destruct (p x) eqn:E.
  - intros [= <-]. eauto.
  - destruct (findIndex p l) as [j|]; [|discriminate].
    intros [= <-]. destruct (IH j eq_refl) as (y & ? & ?). eauto.
Qed.

Lemma omap_delete_sublist {A B} (f : A -> option B) (l : list A) (i : nat) :
  omap f (delete i l) `sublist_of` omap f l.
Proof.
  revert i. induction l as [|x l IH]; intros [|i]; cbn; try reflexivity.
  - destruct (f x); [apply sublist_cons|]; reflexivity.
  - destruct (f x); [apply sublist_skip|]; apply IH.
Qed.

Lemma omap_submseteq {A B} (f : A -> option B) (l k : list A) :
  l ⊆+ k -> omap f l ⊆+ omap f k.
Proof.
  induction 1 as [|x l k _ IH|x y l|x l k _ IH|l k m _ IH1 _ IH2]; cbn.
  - reflexivity.
  - destruct (f x); [now apply submseteq_skip|exact IH].
  - destruct (f x), (f y); try reflexivity. apply submseteq_swap.
  - destruct (f x); [now apply submseteq_cons|exact IH].
  - now transitivity (omap f k).
Qed.

Lemma submseteq_NoDup_r {A} (l k : list A) : l ⊆+ k -> NoDup k -> NoDup l.
Proof.
  intros [m Hm]%submseteq_Permutation Hk. rewrite Hm in Hk.
  now apply NoDup_app in Hk as (? & _ & _).
Qed.

#[local] Instance rearranges_refl : Reflexive rearranges.
Proof. intros s. repeat split; reflexivity. Qed.

#[local] Instance rearranges_trans : Transitive rearranges.
Proof.
  intros s1 s2 s3 (A1 & B1 & C1) (A2 & B2 & C2). split; [|split].
  - now transitivity (scheduled s2 ++ upNext s2)%list.
  - congruence.
  - intros r. now rewrite C2.
Qed.

(** The invariant survives every rearrangement. *)
Lemma rearranges_invariant (s s' : Manager) :
  rearranges s s' -> queue_invariant s -> queue_invariant s'.
Proof.
  intros (Hsub & Hlen & Hid) (Hvalid & Hnodup). split.
  - rewrite Forall_forall in *. intros r Hr. rewrite Hlen.
    apply Hvalid. exact (elem_of_submseteq _ _ _ Hr Hsub).
  - rewrite ids_omap in *.
    rewrite (omap_pointwise _ (fun r => id <$> heap s !! r) _ Hid).
    exact (submseteq_NoDup_r _ _ (omap_submseteq _ _ _ Hsub) Hnodup).
Qed.

(** *** Operations that rearrange *)

Lemma rearranging_ret {A} (a : A) : rearranging (Effects.ret a).
Proof. intros s. reflexivity. Qed.

Lemma rearranging_throw {A} (m : string) : rearranging (@Effects.throw _ A m).
Proof. intros s. reflexivity. Qed.

Lemma rearranging_get : rearranging Effects.get.
Proof. intros s. reflexivity. Qed.

Lemma rearranging_bind {A B} (c : Op A) (k : A -> Op B) :
  rearranging c -> (forall a, rearranging (k a)) -> rearranging (Effects.bind c k).
Proof.
  intros Hc Hk s. unfold Effects.bind. specialize (Hc s).
  destruct (c s) as [[a|m] s1]; cbn [snd] in *; [|exact Hc].
  transitivity s1; [exact Hc|apply Hk].
Qed.

Lemma rearranging_modify (f : Manager -> Manager) :
  (forall s, rearranges s (f s)) -> rearranging (Effects.modify f).
Proof. intros H s. apply H. Qed.

Lemma rearranging_read (r : ref) : rearranging (read r).
Proof. intros s. reflexivity. Qed.

Lemma rearranging_emit (e : Event) : rearranging (emit e).
Proof. intros s. repeat split; reflexivity. Qed.

Lemma rearranging_saveQueues : rearranging saveQueues.
Proof. intros s. repeat split; reflexivity. Qed.

Lemma rearranging_destroy (r : req) : rearranging (destroy r).
Proof. intros s. repeat split; reflexivity. Qed.

Lemma rearranging_assign (r : ref) (f : Download -> Download) :
  (forall d, id (f d) = id d) -> rearranging (assign r f).
Proof.
  intros Hf s. unfold assign, Effects.modify, rearranges.
  cbn [snd heap with_heap scheduled upNext]. split; [reflexivity|].
  split; [apply length_alter|]. intros r'.
  destruct (decide (r = r')) as [<-|Hne].
  - rewrite list_lookup_alter_eq. destruct (heap s !! r); cbn; [|reflexivity].
    now rewrite Hf.
  - now rewrite list_lookup_alter_ne.
Qed.

Lemma rearranging_splice_scheduled (i : nat) :
  rearranging (Effects.modify (fun s => with_scheduled (splice i (scheduled s)) s)).
Proof.
  intros s. cbn. split; [|split; reflexivity].
  apply submseteq_skips_r, submseteq_delete.
Qed.

Lemma rearranging_splice_upNext (i : nat) :
  rearranging (Effects.modify (fun s => with_upNext (splice i (upNext s)) s)).
Proof.
  intros s. cbn. split; [|split; reflexivity].
  apply submseteq_skips_l, submseteq_delete.
Qed.

Lemma rearranging_activeDownloads (f : Manager -> list (string * Handle)) :
  rearranging (Effects.modify (fun s => with_activeDownloads (f s) s)).
Proof. intros s. repeat split; reflexivity. Qed.

Lemma rearranging_pausedDownloads (f : Manager -> gset string) :
  rearranging (Effects.modify (fun s => with_pausedDownloads (f s) s)).
Proof. intros s. repeat split; reflexivity. Qed.

Create HintDb rearrange discriminated.
#[local] Hint Resolve rearranging_ret rearranging_throw rearranging_get
  rearranging_read rearranging_emit rearranging_saveQueues rearranging_destroy
  rearranging_splice_scheduled rearranging_splice_upNext
  rearranging_activeDownloads rearranging_pausedDownloads : rearrange.

(** Descend through binds and case distinctions. *)
Ltac rearrange :=
  repeat first
    [ progress auto with rearrange
    | apply rearranging_bind; [|intros ?]
    | apply rearranging_assign; intros []; reflexivity
    | match goal with
      | |- rearranging (match ?x with _ => _ end) => destruct x
      | |- rearranging (if ?b then _ else _) => destruct b
      end ].

Lemma rearranging_cancelDownload (i : string) : rearranging (cancelDownload i).
Proof. unfold cancelDownload. rearrange. Qed.

Lemma rearranging_removeFromQueue (i : string) : rearranging (removeFromQueue i).
Proof.
  pose proof (rearranging_cancelDownload i).
  unfold removeFromQueue. rearrange.
Qed.

Lemma rearranging_moveToUpNext (i : string) : rearranging (moveToUpNext i).
Proof.
  intros s. unfold moveToUpNext. op_unfold.
  destruct (findIndex _ (scheduled s)) as [index|] eqn:E; [|reflexivity].
  destruct (findIndex_Some _ _ _ E) as (r & Hr & _).
  cbn. rewrite Hr. unfold rearranges. simpl. split; [|split; reflexivity].
  apply Permutation_submseteq.
  rewrite (delete_Permutation (scheduled s) index r Hr) at 2.
  unfold splice. rewrite app_assoc, <- Permutation_cons_append. reflexivity.
Qed.

Lemma rearranging_moveToScheduled (i : string) : rearranging (moveToScheduled i).
Proof.
  intros s. unfold moveToScheduled. op_unfold.
  destruct (findIndex _ (upNext s)) as [index|] eqn:E; [|reflexivity].
  destruct (findIndex_Some _ _ _ E) as (r & Hr & _).
  cbn. rewrite Hr. unfold rearranges. simpl. split; [|split; reflexivity].
  apply Permutation_submseteq.
  rewrite (delete_Permutation (upNext s) index r Hr) at 2.
  unfold splice. rewrite <- app_assoc. apply Permutation_app_head.
  reflexivity.
Qed.

Lemma ids_cons (s : Manager) (r : ref) (q : list ref) :
  ids s (r :: q)
  = match heap s !! r with Some d => id d :: ids s q | None => ids s q end.
Proof. unfold ids, objects. cbn. now destruct (heap s !! r). Qed.

Lemma ids_app (s : Manager) (q1 q2 : list ref) :
  ids s (q1 ++ q2) = (ids s q1 ++ ids s q2)%list.
Proof. unfold ids, objects. now rewrite omap_app, fmap_app. Qed.

Lemma ids_after_allocation (s s' : Manager) (d : Download) (q : list ref) :
  heap s' = (heap s ++ [d])%list ->
  Forall (fun r => (r < length (heap s))%nat) q ->
  ids s' q = ids s q.
Proof.
  intros Hheap Hq. induction Hq as [|r q Hr _ IH]; [reflexivity|].
  rewrite !ids_cons, Hheap, lookup_app_l, IH by exact Hr. reflexivity.
Qed.

Lemma addToQueue_invariant (info : DownloadInfo) (now : Z) (s : Manager) :
  queue_invariant s -> admissible s (call_addToQueue info now) ->
  queue_invariant (snd (addToQueue info now s)).
Proof.
  intros (Hvalid & Hnodup) Hfresh. cbn [admissible] in Hfresh.
  destruct (addToQueue_spec info now s)
    as (d & _ & Hid & _ & _ & _ & _ & Hheap & Hsched & Hup & _).
  set (s' := snd (addToQueue info now s)) in *.
  assert (Hnew : ids s' [length (heap s)] = [id d]).
  { rewrite ids_cons, Hheap, lookup_app_r by lia. now rewrite Nat.sub_diag. }
  apply Forall_app in Hvalid as Hv. destruct Hv as (Hv1 & Hv2).
  split.
  - rewrite Hsched, Hup, Hheap, length_app. cbn [length].
    rewrite <- app_assoc. apply Forall_app. split; [|apply Forall_cons; split].
    + eapply Forall_impl; [exact Hv1|]. cbn. lia.
    + lia.
    + eapply Forall_impl; [exact Hv2|]. cbn. lia.
  - rewrite Hsched, Hup, !ids_app, Hnew.
    rewrite (ids_after_allocation s s' d _ Hheap Hv1).
    rewrite (ids_after_allocation s s' d _ Hheap Hv2).
    rewrite ids_app in Hnodup, Hfresh.
    rewrite <- app_assoc. cbn [app].
    rewrite <- Permutation_middle. apply NoDup_cons. rewrite Hid.
    split; assumption.
Qed.

Lemma step_invariant (a : Action) (s : Manager) :
  queue_invariant s -> admissible s a -> queue_invariant (step a s).
Proof.
  intros Hs Ha. destruct a; cbn [admissible] in Ha; try contradiction; cbn [step].
  - now apply addToQueue_invariant.
  - exact (rearranges_invariant _ _ (rearranging_moveToUpNext _ s) Hs).
  - exact (rearranges_invariant _ _ (rearranging_moveToScheduled _ s) Hs).
  - exact (rearranges_invariant _ _ (rearranging_removeFromQueue _ s) Hs).
Qed.

Lemma run_invariant (actions : list Action) (s : Manager) :
  queue_invariant s -> admissible_run s actions ->
  queue_invariant (run actions s).
Proof.
  revert s. induction actions as [|a actions IH]; intros s Hs Hrun; [exact Hs|].
  destruct Hrun as (Ha & Hrest). unfold run. cbn [fold_left].
  apply IH; [now apply step_invariant|exact Hrest].
Qed.

(** The mutual exclusion of the waiting queues, where it holds: from empty
    queues, through [addToQueue], [moveToUpNext], [moveToScheduled] and
    [removeFromQueue] in any order, as long as every [addToQueue] yields
    an id that is not waiting already, no id is in [scheduled] and in
    [upNext] at once, and none is twice in either. *)
Theorem queues_exclusive_for_distinct_ids (e : Env) (actions : list Action) :
  admissible_run (new_manager e) actions ->
  let s := run actions (new_manager e) in
  NoDup (ids s (scheduled s)) /\ NoDup (ids s (upNext s))
  /\ forall i, i ∈ ids s (scheduled s) -> i ∉ ids s (upNext s).
Proof.
  intros Hrun s.
  assert (H0 : queue_invariant (new_manager e)).
  { split; [constructor|]. cbn. constructor. }
  destruct (run_invariant actions _ H0 Hrun) as (_ & Hnodup). fold s in Hnodup.
  rewrite ids_app in Hnodup.
  apply NoDup_app in Hnodup as (H1 & H2 & H3). auto.
Qed.

Lemma queues_exclusive_for_distinct_ids_witness :
  let s := run [call_addToQueue Scenarios.demo 1000;
                call_addToQueue Scenarios.clipper 1000;
                call_moveToUpNext "demo-1000";
                call_removeFromQueue "screen-clipper"]
               (new_manager Scenarios.desktop) in
  NoDup (ids s (scheduled s)) /\ NoDup (ids s (upNext s))
  /\ forall i, i ∈ ids s (scheduled s) -> i ∉ ids s (upNext s).
Proof.
  apply (queues_exclusive_for_distinct_ids Scenarios.desktop).
  cbn [admissible_run admissible]. split; [|split; [|split; [|split]]]; try exact I.
  - vm_compute. apply not_elem_of_nil.
  - vm_compute. intros H. apply list_elem_of_singleton in H. discriminate H.
Defined.

End QueueInvariant.

(** * [compareVersions] as an order on all strings *)

Section VersionOrder.
Import JS Versions.

Lemma num_compare_total (x y : number) :
  x <> NaN -> y <> NaN -> exists c, num_compare x y = Some c.
Proof.
  destruct x as [|[]|p], y as [|[]|q]; cbn; intros; try congruence; eauto.
Qed.

Lemma num_compare_refl (x : number) : x <> NaN -> num_compare x x = Some Eq.
Proof.
  destruct x as [|[]|p]; cbn; intros; try congruence.
  f_equal. apply Qeq_alt. reflexivity.
Qed.

Lemma num_compare_antisym (x y : number) (c : comparison) :
  num_compare x y = Some c -> num_compare y x = Some (CompOpp c).
Proof.
  destruct x as [|[]|p], y as [|[]|q]; cbn; intros [= <-]; try reflexivity.
  f_equal. symmetry. apply Qcompare_antisym.
Qed.

(** Ties compose with every outcome, and equal strict outcomes compose. *)
Lemma num_compare_trans (x y z : number) (c1 c2 : comparison) :
  num_compare x y = Some c1 -> num_compare y z = Some c2 ->
  (c1 = Eq -> num_compare x z = Some c2)
  /\ (c2 = Eq -> num_compare x z = Some c1)
  /\ (c1 = c2 -> num_compare x z = Some c1).
Proof.
  destruct x as [|[]|p], y as [|[]|q], z as [|[]|r]; cbn;
    intros [= <-] [= <-]; (split; [|split]); intros E; try discriminate E;
    try reflexivity; try (rewrite E; reflexivity);
    try (rewrite <- E; reflexivity); f_equal.
  all: destruct (Qcompare_spec p q) as [H1|H1|H1];
       destruct (Qcompare_spec q r) as [H2|H2|H2]; try discriminate E.
  all: destruct (Qcompare_spec p r) as [H3|H3|H3]; try reflexivity; exfalso; lra.
Qed.


(** The loop over the parts of two versions, as [compareVersions] runs it. *)
Lemma parts_tie_beyond (p1 p2 : list number) (j : nat) :
  (Nat.max (length p1) (length p2) <= j)%nat ->
  num_compare (part_at p1 j) (part_at p2 j) = Some Eq.
Proof.
  intros H. rewrite !part_at_beyond by lia. reflexivity.
Qed.

Lemma loop_first_difference (p1 p2 : list number) (c : comparison) :
  c <> Eq ->
  compareVersions_loop p1 p2 (Nat.max (length p1) (length p2)) 0 = sign_of c <->
  exists j, num_compare (part_at p1 j) (part_at p2 j) = Some c
    /\ forall k, (k < j)%nat -> num_compare (part_at p1 k) (part_at p2 k) = Some Eq.
Proof.
  intros Hc. rewrite (compareVersions_loop_decides _ _ _ _ c Hc). split.
  - intros (j & Hj & H1 & H2). exists j. split; [exact H1|].
    intros k Hk. apply H2. lia.
  - intros (j & H1 & H2). exists j.
    destruct (decide (j < Nat.max (length p1) (length p2))%nat) as [Hlt|Hge].
    + split; [lia|]. split; [exact H1|]. intros k Hk. apply H2. lia.
    + rewrite parts_tie_beyond in H1 by lia. congruence.
Qed.

Lemma loop_tie (p1 p2 : list number) :
  compareVersions_loop p1 p2 (Nat.max (length p1) (length p2)) 0 = 0 <->
  forall j, num_compare (part_at p1 j) (part_at p2 j) = Some Eq.
Proof.
  rewrite compareVersions_loop_zero. split.
  - intros H j.
    destruct (decide (j < Nat.max (length p1) (length p2))%nat) as [Hlt|Hge].
    + apply H. lia.
    + apply parts_tie_beyond. lia.
  - intros H j _. apply H.
Qed.

Lemma part_at_not_NaN (p : list number) (j : nat) : part_at p j <> NaN.
Proof. apply or_zero_not_NaN. Qed.

Lemma loop_antisym (p1 p2 : list number) :
  compareVersions_loop p2 p1 (Nat.max (length p2) (length p1)) 0
  = - compareVersions_loop p1 p2 (Nat.max (length p1) (length p2)) 0.
Proof.
  destruct (compareVersions_loop_range p1 p2 (Nat.max (length p1) (length p2)) 0)
    as [H|[H|H]]; rewrite H.
  - apply (loop_first_difference p1 p2 Gt) in H as (j & H1 & H2); [|discriminate].
    apply (loop_first_difference p2 p1 Lt); [discriminate|].
    exists j. split; [exact (num_compare_antisym _ _ _ H1)|].
    intros k Hk. exact (num_compare_antisym _ _ _ (H2 k Hk)).
  - apply loop_tie. intros j.
    exact (num_compare_antisym _ _ _ (proj1 (loop_tie p1 p2) H j)).
  - apply (loop_first_difference p1 p2 Lt) in H as (j & H1 & H2); [|discriminate].
    apply (loop_first_difference p2 p1 Gt); [discriminate|].
    exists j. split; [exact (num_compare_antisym _ _ _ H1)|].
    intros k Hk. exact (num_compare_antisym _ _ _ (H2 k Hk)).
Qed.

Lemma loop_refl (p : list number) :
  compareVersions_loop p p (Nat.max (length p) (length p)) 0 = 0.
Proof.
  apply loop_tie. intros j. apply num_compare_refl, part_at_not_NaN.
Qed.

(** Not smaller: the parts tie everywhere, or the first pair that does not
    tie is ordered downwards. *)
Lemma loop_nonneg (p1 p2 : list number) :
  0 <= compareVersions_loop p1 p2 (Nat.max (length p1) (length p2)) 0 <->
  (forall j, num_compare (part_at p1 j) (part_at p2 j) = Some Eq)
  \/ exists j, num_compare (part_at p1 j) (part_at p2 j) = Some Gt
       /\ forall k, (k < j)%nat ->
            num_compare (part_at p1 k) (part_at p2 k) = Some Eq.
Proof.
  rewrite <- loop_tie, <- (loop_first_difference p1 p2 Gt) by discriminate.
  cbn [sign_of].
  destruct (compareVersions_loop_range p1 p2 (Nat.max (length p1) (length p2)) 0)
    as [H|[H|H]]; rewrite H; split; intros; try lia; auto.
Qed.

Lemma loop_trans (p1 p2 p3 : list number) :
  0 <= compareVersions_loop p1 p2 (Nat.max (length p1) (length p2)) 0 ->
  0 <= compareVersions_loop p2 p3 (Nat.max (length p2) (length p3)) 0 ->
  0 <= compareVersions_loop p1 p3 (Nat.max (length p1) (length p3)) 0
  /\ (compareVersions_loop p1 p3 (Nat.max (length p1) (length p3)) 0 = 0 ->
      compareVersions_loop p1 p2 (Nat.max (length p1) (length p2)) 0 = 0
      /\ compareVersions_loop p2 p3 (Nat.max (length p2) (length p3)) 0 = 0).
Proof.
  rewrite !loop_nonneg, !loop_tie.
  intros [E1|(j1 & G1 & B1)] [E2|(j2 & G2 & B2)].
  - split; [left|]; intros; [|now split].
    exact (proj1 (num_compare_trans _ _ _ _ _ (E1 j) (E2 j)) eq_refl).
  - split.
    + right. exists j2. split.
      * exact (proj1 (num_compare_trans _ _ _ _ _ (E1 j2) G2) eq_refl).
      * intros k Hk.
        exact (proj1 (num_compare_trans _ _ _ _ _ (E1 k) (B2 k Hk)) eq_refl).
    + intros H. specialize (H j2).
      pose proof (proj1 (num_compare_trans _ _ _ _ _ (E1 j2) G2) eq_refl).
      congruence.
  - split.
    + right. exists j1. split.
      * exact (proj1 (proj2 (num_compare_trans _ _ _ _ _ G1 (E2 j1))) eq_refl).
      * intros k Hk.
        exact (proj1 (num_compare_trans _ _ _ _ _ (B1 k Hk) (E2 k)) eq_refl).
    + intros H. specialize (H j1).
      pose proof (proj1 (proj2 (num_compare_trans _ _ _ _ _ G1 (E2 j1))) eq_refl).
      congruence.
  - assert (H : exists j, num_compare (part_at p1 j) (part_at p3 j) = Some Gt
               /\ forall k, (k < j)%nat ->
                    num_compare (part_at p1 k) (part_at p3 k) = Some Eq).
    { destruct (lt_eq_lt_dec j1 j2) as [[L|L]|L].
      - exists j1. split.
        + exact (proj1 (proj2 (num_compare_trans _ _ _ _ _ G1 (B2 j1 L))) eq_refl).
        + intros k Hk.
          exact (proj1 (num_compare_trans _ _ _ _ _ (B1 k Hk)
                          (B2 k ltac:(lia))) eq_refl).
      - subst j2. exists j1. split.
        + exact (proj2 (proj2 (num_compare_trans _ _ _ _ _ G1 G2)) eq_refl).
        + intros k Hk.
          exact (proj1 (num_compare_trans _ _ _ _ _ (B1 k Hk) (B2 k Hk)) eq_refl).
      - exists j2. split.
        + exact (proj1 (num_compare_trans _ _ _ _ _ (B1 j2 L) G2) eq_refl).
        + intros k Hk.
          exact (proj1 (num_compare_trans _ _ _ _ _ (B1 k ltac:(lia))
                          (B2 k Hk)) eq_refl). }
    split; [now right|]. intros E. destruct H as (j & G & _).
    specialize (E j). congruence.
Qed.

(** [compareVersions] is a comparison on all strings, numeric or not: it
    returns 1, 0 or -1; a version ties with itself; exchanging the
    arguments negates the result. *)
Theorem compareVersions_sign_and_symmetry (v1 v2 : string) :
  (compareVersions v1 v2 = 1 \/ compareVersions v1 v2 = 0
   \/ compareVersions v1 v2 = -1)
  /\ compareVersions v1 v1 = 0
  /\ compareVersions v2 v1 = - compareVersions v1 v2.
Proof.
  unfold compareVersions. split; [apply compareVersions_loop_range|].
  split; [apply loop_refl|apply loop_antisym].
Qed.

(** [compareVersions] is transitive on all strings: when the first version
    is not smaller than the second and the second not smaller than the
    third, the first is not smaller than the third, and they tie only when
    both pairs tie. *)
Theorem compareVersions_transitive (v1 v2 v3 : string) :
  0 <= compareVersions v1 v2 -> 0 <= compareVersions v2 v3 ->
  0 <= compareVersions v1 v3
  /\ (compareVersions v1 v3 = 0 ->
      compareVersions v1 v2 = 0 /\ compareVersions v2 v3 = 0).
Proof. unfold compareVersions. apply loop_trans. Qed.

Lemma compareVersions_transitive_witness :
  0 <= compareVersions "2.0.0" "1.9.3-rc"
  /\ (compareVersions "2.0.0" "1.9.3-rc" = 0 ->
      compareVersions "2.0.0" "1.10" = 0 /\ compareVersions "1.10" "1.9.3-rc" = 0).
Proof.
  apply (compareVersions_transitive "2.0.0" "1.10" "1.9.3-rc");
    vm_compute; discriminate.
Defined.


(** The result depends on the parts the loop reads only. *)
Lemma loop_ext (p1 p1' p2 p2' : list number) :
  (forall j, part_at p1' j = part_at p1 j) ->
  (forall j, part_at p2' j = part_at p2 j) ->
  compareVersions_loop p1' p2' (Nat.max (length p1') (length p2')) 0
  = compareVersions_loop p1 p2 (Nat.max (length p1) (length p2)) 0.
Proof.
  intros H1 H2.
  destruct (compareVersions_loop_range p1 p2 (Nat.max (length p1) (length p2)) 0)
    as [H|[H|H]]; rewrite H.
  - apply (loop_first_difference p1 p2 Gt) in H as (j & G & B); [|discriminate].
    apply (loop_first_difference p1' p2' Gt); [discriminate|].
    exists j. rewrite H1, H2. split; [exact G|].
    intros k Hk. rewrite H1, H2. now apply B.
  - apply loop_tie. intros j. rewrite H1, H2. now apply loop_tie.
  - apply (loop_first_difference p1 p2 Lt) in H as (j & G & B); [|discriminate].
    apply (loop_first_difference p1' p2' Lt); [discriminate|].
    exists j. rewrite H1, H2. split; [exact G|].
    intros k Hk. rewrite H1, H2. now apply B.
Qed.

Lemma split_dot_nonempty (s : string) : split_dot s <> [].
Proof.
  destruct s as [|c s]; cbn; [discriminate|].
  destruct (code c =? 46); [discriminate|].
  destruct (split_dot s); discriminate.
Qed.

Lemma split_dot_app (a c : string) :
  split_dot (a +:+ "." +:+ c) = (split_dot a ++ split_dot c)%list.
Proof.
  induction a as [|x a IH]; [reflexivity|].
  simpl. rewrite IH.
  destruct (code x =? 46); [reflexivity|].
  pose proof (split_dot_nonempty a) as Hne.
  destruct (split_dot a) as [|h t]; [congruence|]. reflexivity.
Qed.

Lemma part_at_snoc_zero (p : list number) (j : nat) :
  part_at (p ++ [of_Z 0]) j = part_at p j.
Proof.
  unfold part_at. destruct (decide (j < length p)%nat) as [Hlt|Hge].
  - now rewrite lookup_app_l.
  - rewrite (lookup_ge_None_2 p j) by lia. rewrite lookup_app_r by lia.
    destruct (j - length p)%nat as [|n]; reflexivity.
Qed.

(** A trailing [.0] does not change how a version compares: ["1.2"] and
    ["1.2.0"] compare alike with every version, on either side. *)
Theorem compareVersions_trailing_zero (v w : string) :
  compareVersions (v +:+ ".0") w = compareVersions v w
  /\ compareVersions w (v +:+ ".0") = compareVersions w v
  /\ compareVersions (v +:+ ".0") v = 0.
Proof.
  assert (P : Number <$> split_dot (v +:+ ".0")
              = ((Number <$> split_dot v) ++ [of_Z 0])%list).
  { change (v +:+ ".0") with (v +:+ "." +:+ "0").
    rewrite (split_dot_app v "0"), fmap_app. reflexivity. }
  unfold compareVersions. rewrite P. split; [|split].
  - apply loop_ext; [apply part_at_snoc_zero|reflexivity].
  - apply loop_ext; [reflexivity|apply part_at_snoc_zero].
  - etransitivity; [|apply (loop_refl (Number <$> split_dot v))].
    apply loop_ext; [apply part_at_snoc_zero|reflexivity].
Qed.

End VersionOrder.

(** * The module manager: manifests, the registry, enabling *)

(** Close [l = r] on closed terms by evaluating both sides to one normal
    form. *)
Ltac by_normal_form :=
  match goal with
  | |- _ = ?r =>
      let r' := eval vm_compute in r in vm_cast_no_check (@eq_refl _ r')
  end.

Section Manifests.
Import Effects Collections Values FS Modules Specs.

(** Which manifests [validateManifest] accepts: those in which [id],
    [name], [version], [category] and [author] are all truthy and the
    category is one of the four known ones.  Every other manifest makes
    it throw; it never returns [false] and never touches the state. *)
Theorem validateManifest_accepts_iff (manifest : object) (s : State) :
  snd (validateManifest manifest s) = s
  /\ (fst (validateManifest manifest s) = Ok true <->
      truthy (get manifest "id") = true
      /\ truthy (get manifest "name") = true
      /\ truthy (get manifest "version") = true
      /\ truthy (get manifest "category") = true
      /\ truthy (get manifest "author") = true
      /\ get manifest "category" ∈ validCategories)
  /\ (fst (validateManifest manifest s) <> Ok true ->
      exists message, fst (validateManifest manifest s) = Throw message).
Proof.
  unfold validateManifest, required. cbn [List.filter].
  destruct (truthy (get manifest "id")), (truthy (get manifest "name")),
    (truthy (get manifest "version")), (truthy (get manifest "category")),
    (truthy (get manifest "author")); cbn [negb length Nat.ltb Nat.leb];
    try (split; [reflexivity|];
         split; [split; [discriminate|intros (?&?&?&?&?&?); discriminate]|];
         intros _; eexists; reflexivity).
  destruct (bool_decide (get manifest "category" ∈ validCategories)) eqn:E;
    cbn [negb].
  - apply bool_decide_eq_true_1 in E.
    split; [reflexivity|]. split; [split; [now intros _|reflexivity]|].
    intros H. now contradiction H.
  - apply bool_decide_eq_false_1 in E.
    split; [reflexivity|].
    split; [split; [discriminate|intros (_&_&_&_&_&?); contradiction]|].
    intros _. eexists. reflexivity.
Qed.

End Manifests.

Section Registry2.
Import Effects Collections Values FS Modules Loading Specs.

Lemma find_no_id (i : jsval) (l : list object) :
  (forall m, m ∈ l -> get m "id" <> i) ->
  Collections.find (fun m => strict_eq (get m "id") i) l = None.
Proof.
  induction l as [|m l IH]; intros H; cbn; [reflexivity|].
  unfold strict_eq at 1.
  rewrite bool_decide_eq_false_2 by (apply H; left).
  apply IH. intros m' Hm'. apply H. now right.
Qed.

Lemma getInstalledModule_unknown (i : jsval) (s : State) :
  installedModules s !! i = None ->
  (forall m, m ∈ store_installed s -> get m "id" <> i) ->
  getInstalledModule i s = (Ok None, s).
Proof.
  intros Hc Hs. unfold getInstalledModule. op_unfold.
  now rewrite Hc, (find_no_id _ _ Hs).
Qed.

(** An id that neither the registry nor the persisted list knows:
    [uninstallModule], [disableModule] and [enableModule] throw
    ['Module not found'] and leave everything as it is. *)
Theorem unknown_module_is_refused (require : path -> result ToolCode)
    (i : jsval) (s : State) :
  installedModules s !! i = None ->
  (forall m, m ∈ store_installed s -> get m "id" <> i) ->
  uninstallModule i s = (Throw "Module not found", s)
  /\ disableModule i s = (Throw "Module not found", s)
  /\ enableModule require i s = (Throw "Module not found", s).
Proof.
  intros Hc Hs. pose proof (getInstalledModule_unknown i s Hc Hs) as G.
  unfold uninstallModule, disableModule, enableModule, Effects.bind.
  rewrite G. repeat split; reflexivity.
Qed.


(** The lookup changes the cache only. *)
Lemma getInstalledModule_frame (i : jsval) (s : State) :
  let s1 := snd (getInstalledModule i s) in
  files s1 = files s /\ store_installed s1 = store_installed s
  /\ userData s1 = userData s /\ activeModules s1 = activeModules s
  /\ loadedTools s1 = loadedTools s /\ toolWindows s1 = toolWindows s
  /\ hotkeys s1 = hotkeys s
  /\ (forall j, j <> i -> installedModules s1 !! j = installedModules s !! j).
Proof.
  destruct (getInstalledModule_cases i s)
    as [(m & E & ->)|[(m & E & F & ->)|(E & F & ->)]]; cbn;
    repeat split; try reflexivity.
  intros j Hj. now rewrite lookup_insert_ne.
Qed.

(** [unloadModule] throws only what the tool's [cleanup] throws, and then
    before anything is changed; otherwise it changes the loader only. *)
Lemma unloadModule_cases (module : object) (s : State) :
  (exists message, unloadModule module s = (Throw message, s))
  \/ ((get module "category" <> str "tools"
       \/ loadedTools s !! get module "id" = None)
      /\ unloadModule module s = (Ok tt, s))
  \/ (get module "category" = str "tools"
      /\ is_Some (loadedTools s !! get module "id")
      /\ unloadModule module s
         = (Ok tt, with_loader (delete (get module "id") (loadedTools s))
                     (toolWindows s ∖ {[get module "id"]}) false s)).
Proof.
  unfold unloadModule, strict_eq.
  destruct (decide (get module "category" = str "tools")) as [Hc|Hc].
  - rewrite (bool_decide_eq_true_2 _ Hc). unfold unloadTool. op_unfold.
    destruct (loadedTools s !! get module "id") as [tool|] eqn:E;
      [|right; left; split; [now right|reflexivity]].
    destruct (cleanup tool) as [[message|]|]; cbn.
    + left. eauto.
    + right. right. eauto.
    + right. right. eauto.
  - rewrite (bool_decide_eq_false_2 _ Hc). right. left. split; [now left|reflexivity].
Qed.

(** The ways [disableModule] goes. *)
Lemma disableModule_cases (i : jsval) (s : State) :
  let s1 := snd (getInstalledModule i s) in
  (fst (getInstalledModule i s) = Ok None
   /\ disableModule i s = (Throw "Module not found", s1))
  \/ exists module,
       fst (getInstalledModule i s) = Ok (Some module)
       /\ ((truthy (get module "enabled") = false
            /\ disableModule i s = (Ok "Module already disabled", s1))
           \/ (truthy (get module "enabled") = true
               /\ exists message,
                    unloadModule module s1 = (Throw message, s1)
                    /\ disableModule i s = (Throw message, s1))
           \/ (truthy (get module "enabled") = true
               /\ exists s2,
                    unloadModule module s1 = (Ok tt, s2)
                    /\ disableModule i s
                       = (Ok (to_string (get module "displayName")
                              +:+ " disabled successfully"),
                          with_activeModules (delete i (activeModules s2))
                            (with_installedModules
                               (<[i := <["enabled" := boolean false]> module]>
                                  (installedModules s2))
                               (with_store_installed
                                  ((fun m => if strict_eq (get m "id") i
                                             then <["enabled" := boolean false]> m
                                             else m) <$> store_installed s2)
                                  s2))))).
Proof.
  cbv zeta. unfold disableModule. op_unfold.
  assert (Hn : forall m : object,
             get (<["enabled" := boolean false]> m) "displayName"
             = get m "displayName").
  { intros m. unfold get. now rewrite lookup_insert_ne. }
  destruct (getInstalledModule_cases i s)
    as [(m & E & G)|[(m & E & F & G)|(E & F & G)]]; rewrite G; cbn [fst snd].
  3: now left.
  all: right; exists m; split; [reflexivity|].
  all: destruct (truthy (get m "enabled")) eqn:T; cbn [negb];
       [right|left; split; reflexivity].
  all: match goal with
       | |- context [unloadModule ?mm ?s1] =>
           destruct (unloadModule_cases mm s1) as [(msg & U)|[(_ & U)|(_ & _ & U)]];
             rewrite U
       end.
  all: try (left; split; [reflexivity|]; eexists; split; reflexivity).
  all: right; split; [reflexivity|]; eexists; split; [reflexivity|].
  all: rewrite Hn; reflexivity.
Qed.


(** A successful [disableModule]: for a module that is enabled, every
    persisted record with the id gets [enabled: false], the registry
    holds the record with [enabled: false], the module leaves the active
    set, and a tool is unloaded under the id of its record; for a module
    that is not enabled nothing but the cache changes.  The files stay in
    both cases. *)
Theorem disableModule_postcondition (i : jsval) (s s' : State) (message : string) :
  disableModule i s = (Ok message, s') ->
  exists module,
    fst (getInstalledModule i s) = Ok (Some module)
    /\ files s' = files s
    /\ ((truthy (get module "enabled") = false
         /\ message = "Module already disabled"
         /\ store_installed s' = store_installed s
         /\ activeModules s' = activeModules s
         /\ loadedTools s' = loadedTools s)
        \/ (truthy (get module "enabled") = true
            /\ message = to_string (get module "displayName")
                         +:+ " disabled successfully"
            /\ store_installed s'
               = (fun m => if strict_eq (get m "id") i
                           then <["enabled" := boolean false]> m else m)
                 <$> store_installed s
            /\ installedModules s' !! i
               = Some (<["enabled" := boolean false]> module)
            /\ activeModules s' = delete i (activeModules s)
            /\ (get module "category" = str "tools" ->
                loadedTools s' !! get module "id" = None)
            /\ (forall j, j <> get module "id" ->
                loadedTools s' !! j = loadedTools s !! j)
            /\ (get module "category" <> str "tools" ->
                loadedTools s' = loadedTools s
                /\ toolWindows s' = toolWindows s
                /\ hotkeys s' = hotkeys s))).
Proof.
  intros H.
  pose proof (getInstalledModule_frame i s) as F. cbv zeta in F.
  destruct F as (Ff & Fs & _ & Fa & Fl & Fw & Fh & _).
  pose proof (disableModule_cases i s) as DC. cbv zeta in DC.
  set (s1 := snd (getInstalledModule i s)) in *. clearbody s1.
  destruct DC
    as [(_ & D)|(module & G & [(T & D)|[(T & msg & _ & D)|(T & s2 & U & D)]])];
    rewrite D in H; try discriminate H.
  - injection H as <- <-. exists module. split; [exact G|]. split; [exact Ff|].
    left. auto.
  - injection H as <- <-. exists module. split; [exact G|].
    destruct (unloadModule_cases module s1)
      as [(msg & U')|[(C & U')|(Hc & Hl & U')]]; rewrite U' in U;
      try discriminate U; injection U as <-; cbn.
    + split; [exact Ff|]. right. rewrite Fs, Fa, Fl, Fw, Fh.
      conjuncts; try reflexivity; try exact T; try (intros; reflexivity).
      * apply lookup_insert_eq.
      * intros Hc. destruct C as [C|C]; [contradiction|]. now rewrite <- Fl.
      * intros _. repeat split.
    + split; [exact Ff|]. right. rewrite Fs, Fa, Fl.
      conjuncts; try reflexivity; try exact T.
      * apply lookup_insert_eq.
      * intros _. apply lookup_delete_eq.
      * intros j Hj. now rewrite lookup_delete_ne.
      * contradiction.
Qed.

(** A [disableModule] that throws has changed nothing but the cache: the
    persisted list, the active set, the loaded tools, their windows, the
    shortcuts and the files are as before.  In particular a tool whose
    [cleanup] throws stays loaded and its module stays enabled. *)
Theorem failed_disableModule_changes_nothing (i : jsval) (s s' : State)
    (message : string) :
  disableModule i s = (Throw message, s') ->
  files s' = files s
  /\ store_installed s' = store_installed s
  /\ activeModules s' = activeModules s
  /\ loadedTools s' = loadedTools s
  /\ toolWindows s' = toolWindows s
  /\ hotkeys s' = hotkeys s
  /\ (forall j, j <> i -> installedModules s' !! j = installedModules s !! j).
Proof.
  intros H.
  pose proof (getInstalledModule_frame i s) as F. cbv zeta in F.
  destruct F as (Ff & Fs & _ & Fa & Fl & Fw & Fh & Fc).
  pose proof (disableModule_cases i s) as DC. cbv zeta in DC.
  set (s1 := snd (getInstalledModule i s)) in *. clearbody s1.
  destruct DC
    as [(_ & D)|(module & G & [(T & D)|[(T & msg & _ & D)|(T & s2 & U & D)]])];
    rewrite D in H; try discriminate H; injection H as <- <-; auto 10.
Qed.


End Registry2.

Section Enabling.
Import Effects Collections Values FS Modules Loading Specs.
Context (require : path -> result ToolCode).

Lemma main_path_state (module : object) (s : State) :
  snd (main_path module s) = s.
Proof.
  unfold main_path, join_value.
  destruct (get module "installPath"); try reflexivity.
  destruct (if truthy (get module "main") then get module "main"
            else str "index.js"); reflexivity.
Qed.

Lemma main_path_fst (module : object) (s s' : State) :
  fst (main_path module s) = fst (main_path module s').
Proof.
  unfold main_path, join_value.
  destruct (get module "installPath"); try reflexivity.
  destruct (if truthy (get module "main") then get module "main"
            else str "index.js"); reflexivity.
Qed.

(** The ways [loadTool] goes: the path or [require] throws and nothing
    changes; or the tool is recorded, the effects of its [init] are
    applied, and [init] returns or throws. *)
Lemma loadTool_cases (module : object) (s : State) :
  (exists message, loadTool require module s = (Throw message, s))
  \/ exists toolPath toolModule,
       fst (main_path module s) = Ok toolPath
       /\ require toolPath = Ok toolModule
       /\ let windows :=
            match init toolModule with
            | Some run => if opens_window run
                          then {[get module "id"]} ∪ toolWindows s
                          else toolWindows s
            | None => toolWindows s
            end in
          let keys :=
            match init toolModule with
            | Some run => if registers_hotkey run then true else hotkeys s
            | None => hotkeys s
            end in
          loadTool require module s
          = (match init toolModule ≫= init_throws with
             | Some message => Throw message
             | None => Ok tt
             end,
             with_loader (<[get module "id" := instance toolModule]> (loadedTools s))
               windows keys s).
Proof.
  unfold loadTool. op_unfold.
  pose proof (main_path_state module s) as P.
  destruct (main_path module s) as [[toolPath|message] s0]; cbn in P; subst s0;
    [|left; eauto].
  destruct (require toolPath) as [toolModule|message] eqn:R; [|left; eauto].
  right. exists toolPath, toolModule. split; [reflexivity|]. split; [exact R|].
  cbv zeta. cbn.
  destruct (init toolModule) as [[[] [] [message|]]|]; cbn;
    destruct s; reflexivity.
Qed.

(** [loadModule] touches the loader only. *)
Lemma loadModule_frame (module : object) (s : State) :
  let s' := snd (loadModule require module s) in
  files s' = files s /\ store_installed s' = store_installed s
  /\ installedModules s' = installedModules s
  /\ activeModules s' = activeModules s /\ userData s' = userData s.
Proof.
  cbv zeta. unfold loadModule. op_unfold.
  pose proof (main_path_state module s) as P.
  destruct (main_path module s) as [[toolPath|message] s0]; cbn in P; subst s0;
    [|repeat split].
  destruct (strict_eq _ _); [|repeat split].
  destruct (loadTool_cases module s) as [(message & ->)|(p & c & _ & _ & H)];
    [repeat split|].
  cbv zeta in H. rewrite H. repeat split.
Qed.

Lemma loadModule_cases (module : object) (s : State) :
  (exists message, loadModule require module s = (Throw message, s))
  \/ (get module "category" <> str "tools"
      /\ loadModule require module s = (Ok tt, s))
  \/ (get module "category" = str "tools"
      /\ exists toolPath toolModule,
           fst (main_path module s) = Ok toolPath
           /\ require toolPath = Ok toolModule
           /\ loadModule require module s
              = (match init toolModule ≫= init_throws with
                 | Some message => Throw message
                 | None => Ok tt
                 end,
                 with_loader
                   (<[get module "id" := instance toolModule]> (loadedTools s))
                   match init toolModule with
                   | Some run => if opens_window run
                                 then {[get module "id"]} ∪ toolWindows s
                                 else toolWindows s
                   | None => toolWindows s
                   end
                   match init toolModule with
                   | Some run => if registers_hotkey run then true else hotkeys s
                   | None => hotkeys s
                   end s)).
Proof.
  unfold loadModule. op_unfold.
  pose proof (main_path_state module s) as P.
  destruct (main_path module s) as [[toolPath|message] s0] eqn:M; cbn in P;
    subst s0; [|left; eauto].
  unfold strict_eq.
  destruct (decide (get module "category" = str "tools")) as [Hc|Hc].
  - rewrite (bool_decide_eq_true_2 _ Hc).
    destruct (loadTool_cases module s) as [(message & ->)|(p & c & Hp & Hr & H)];
      [left; eauto|].
    right. right. split; [exact Hc|]. exists p, c.
    rewrite M in Hp. cbn in Hp. split; [exact Hp|]. split; [exact Hr|].
    exact H.
  - rewrite (bool_decide_eq_false_2 _ Hc). right. left. now split.
Qed.

(** The ways [enableModule] goes. *)
Lemma enableModule_cases (i : jsval) (s : State) :
  let s1 := snd (getInstalledModule i s) in
  (fst (getInstalledModule i s) = Ok None
   /\ enableModule require i s = (Throw "Module not found", s1))
  \/ exists module,
       fst (getInstalledModule i s) = Ok (Some module)
       /\ ((truthy (get module "enabled") = true
            /\ enableModule require i s = (Ok "Module already enabled", s1))
           \/ (truthy (get module "enabled") = false
               /\ exists message s2,
                    loadModule require module s1 = (Throw message, s2)
                    /\ enableModule require i s = (Throw message, s2))
           \/ (truthy (get module "enabled") = false
               /\ exists s2,
                    loadModule require module s1 = (Ok tt, s2)
                    /\ enableModule require i s
                       = (Ok (to_string (get module "displayName")
                              +:+ " enabled successfully"),
                          with_activeModules
                            (<[i := <["enabled" := boolean true]> module]>
                               (activeModules s2))
                            (with_installedModules
                               (<[i := <["enabled" := boolean true]> module]>
                                  (installedModules s2))
                               (with_store_installed
                                  ((fun m => if strict_eq (get m "id") i
                                             then <["enabled" := boolean true]> m
                                             else m) <$> store_installed s2)
                                  s2))))).
Proof.
  cbv zeta. unfold enableModule. op_unfold.
  assert (Hn : forall m : object,
             get (<["enabled" := boolean true]> m) "displayName"
             = get m "displayName").
  { intros m. unfold get. now rewrite lookup_insert_ne. }
  destruct (getInstalledModule_cases i s)
    as [(m & E & G)|[(m & E & F & G)|(E & F & G)]]; rewrite G; cbn [fst snd].
  3: now left.
  all: right; exists m; split; [reflexivity|].
  all: destruct (truthy (get m "enabled")) eqn:T;
       [left; split; reflexivity|right].
  all: match goal with
       | |- context [loadModule require ?mm ?s1] =>
           destruct (loadModule require mm s1) as [[[]|msg] s2] eqn:L
       end.
  all: try (right; split; [reflexivity|]; eexists; split; [reflexivity|];
            rewrite Hn; reflexivity).
  all: left; split; [reflexivity|]; eexists _, _; split; reflexivity.
Qed.


(** A successful [enableModule]: for a module that is not enabled, the
    module is loaded (a tool is required from its main file and recorded
    under the id of its record, and its [init] has returned), every
    persisted record with the id gets [enabled: true], and the registry
    and the active set hold the record with [enabled: true]; for a module
    that is enabled already nothing but the cache changes.  The files stay
    in both cases. *)
Theorem enableModule_postcondition (i : jsval) (s s' : State) (message : string) :
  enableModule require i s = (Ok message, s') ->
  exists module,
    fst (getInstalledModule i s) = Ok (Some module)
    /\ files s' = files s
    /\ ((truthy (get module "enabled") = true
         /\ message = "Module already enabled"
         /\ store_installed s' = store_installed s
         /\ activeModules s' = activeModules s
         /\ loadedTools s' = loadedTools s)
        \/ (truthy (get module "enabled") = false
            /\ message = to_string (get module "displayName")
                         +:+ " enabled successfully"
            /\ store_installed s'
               = (fun m => if strict_eq (get m "id") i
                           then <["enabled" := boolean true]> m else m)
                 <$> store_installed s
            /\ installedModules s' !! i
               = Some (<["enabled" := boolean true]> module)
            /\ activeModules s'
               = <[i := <["enabled" := boolean true]> module]> (activeModules s)
            /\ (get module "category" = str "tools" ->
                exists toolPath toolModule,
                  fst (main_path module s) = Ok toolPath
                  /\ require toolPath = Ok toolModule
                  /\ (init toolModule ≫= init_throws) = None
                  /\ loadedTools s'
                     = <[get module "id" := instance toolModule]> (loadedTools s))
            /\ (get module "category" <> str "tools" ->
                loadedTools s' = loadedTools s
                /\ toolWindows s' = toolWindows s
                /\ hotkeys s' = hotkeys s))).
Proof.
  intros H.
  pose proof (getInstalledModule_frame i s) as F. cbv zeta in F.
  destruct F as (Ff & Fs & _ & Fa & Fl & Fw & Fh & _).
  pose proof (enableModule_cases i s) as EC. cbv zeta in EC.
  set (s1 := snd (getInstalledModule i s)) in *. clearbody s1.
  destruct EC
    as [(_ & D)|(module & G & [(T & D)|[(T & msg & s2 & _ & D)|(T & s2 & L & D)]])];
    rewrite D in H; try discriminate H.
  - injection H as <- <-. exists module. split; [exact G|]. split; [exact Ff|].
    left. auto.
  - injection H as <- <-. exists module. split; [exact G|].
    destruct (loadModule_cases module s1)
      as [(msg & L')|[(C & L')|(C & p & c & Hp & Hr & L')]]; rewrite L' in L;
      try discriminate L.
    + injection L as <-. cbn. split; [exact Ff|]. right.
      rewrite Fs, Fa, Fl, Fw, Fh.
      conjuncts; try reflexivity; try exact T.
      * apply lookup_insert_eq.
      * contradiction.
      * intros _. repeat split.
    + destruct (init c ≫= init_throws) eqn:I; [discriminate L|].
      injection L as <-. cbn. split; [exact Ff|]. right. rewrite Fs, Fa, Fl.
      conjuncts; try reflexivity; try exact T.
      * apply lookup_insert_eq.
      * intros _. exists p, c. split; [|auto].
        now rewrite (main_path_fst module s s1).
      * contradiction.
Qed.


(** An [enableModule] that throws has set no flag: the persisted list,
    the active set and the files are as before.  The loaded tools are as
    before too, unless it is the tool's [init] that threw: the tool was
    recorded before [init] ran and stays recorded. *)
Theorem failed_enableModule_sets_no_flag (i : jsval) (s s' : State)
    (message : string) :
  enableModule require i s = (Throw message, s') ->
  files s' = files s
  /\ store_installed s' = store_installed s
  /\ activeModules s' = activeModules s
  /\ (forall j, j <> i -> installedModules s' !! j = installedModules s !! j)
  /\ (loadedTools s' = loadedTools s
      \/ exists module toolModule,
           fst (getInstalledModule i s) = Ok (Some module)
           /\ (init toolModule ≫= init_throws) = Some message
           /\ loadedTools s'
              = <[get module "id" := instance toolModule]> (loadedTools s)).
Proof.
  intros H.
  pose proof (getInstalledModule_frame i s) as F. cbv zeta in F.
  destruct F as (Ff & Fs & _ & Fa & Fl & Fw & Fh & Fc).
  pose proof (enableModule_cases i s) as EC. cbv zeta in EC.
  set (s1 := snd (getInstalledModule i s)) in *. clearbody s1.
  destruct EC
    as [(_ & D)|(module & G & [(T & D)|[(T & msg & s2 & L & D)|(T & s2 & L & D)]])];
    rewrite D in H; try discriminate H; injection H as <- <-.
  - auto 10.
  - destruct (loadModule_cases module s1)
      as [(msg' & L')|[(C & L')|(C & p & c & Hp & Hr & L')]]; rewrite L' in L;
      try discriminate L.
    + injection L as <- <-. auto 10.
    + destruct (init c ≫= init_throws) as [m|] eqn:I; [|discriminate L].
      injection L as <- <-. cbn. rewrite Fl.
      conjuncts; try assumption. right. exists module, c. auto.
Qed.

Lemma toggle_enabled_back (i : jsval) (l : list object) :
  (forall m, m ∈ l -> get m "id" = i -> m !! "enabled" = Some (boolean false)) ->
  (fun m => if strict_eq (get m "id") i
            then <["enabled" := boolean false]> m else m)
  <$> ((fun m => if strict_eq (get m "id") i
                 then <["enabled" := boolean true]> m else m) <$> l)
  = l.
Proof.
  intros H. rewrite <- list_fmap_compose.
  rewrite <- (list_fmap_id l) at 2.
  apply Forall_fmap_ext_1. apply Forall_forall. intros m Hm. cbn.
  unfold strict_eq.
  destruct (decide (get m "id" = i)) as [E|E].
  - rewrite (bool_decide_eq_true_2 _ E).
    assert (E' : get (<["enabled" := boolean true]> m) "id" = i).
    { unfold get in *. now rewrite lookup_insert_ne. }
    rewrite (bool_decide_eq_true_2 _ E').
    rewrite insert_insert_eq. apply insert_id. now apply H.
  - now rewrite !(bool_decide_eq_false_2 _ E).
Qed.


(** Enabling a module and disabling it again brings the persisted list,
    the active set and the registry's record back to what they were, and
    leaves the files alone; a tool is not loaded afterwards and no global
    shortcut is registered any more.  The module starts out disabled, as
    an installed module does: its record and every persisted record with
    its id say [enabled: false], and it is not in the active set. *)
Theorem enable_then_disable_restores (i : jsval) (s s1 s2 : State)
    (module : object) (m1 m2 : string) :
  fst (getInstalledModule i s) = Ok (Some module) ->
  module !! "enabled" = Some (boolean false) ->
  (forall m, m ∈ store_installed s -> get m "id" = i ->
     m !! "enabled" = Some (boolean false)) ->
  activeModules s !! i = None ->
  enableModule require i s = (Ok m1, s1) ->
  disableModule i s1 = (Ok m2, s2) ->
  store_installed s2 = store_installed s
  /\ activeModules s2 = activeModules s
  /\ installedModules s2 !! i = Some module
  /\ files s2 = files s
  /\ (get module "category" = str "tools" ->
      loadedTools s2 !! get module "id" = None /\ hotkeys s2 = false).
Proof.
  intros Hm Hen Hall Hact He Hd.
  assert (Tm : truthy (get module "enabled") = false).
  { unfold get. now rewrite Hen. }
  pose proof (getInstalledModule_frame i s) as F. cbv zeta in F.
  destruct F as (Ff & Fs & _ & Fa & Fl & _ & _ & _).
  pose proof (enableModule_cases i s) as EC. cbv zeta in EC.
  set (sa := snd (getInstalledModule i s)) in *. clearbody sa.
  destruct EC
    as [(G & _)|(module' & G & [(T & D)|[(T & msg & sl & _ & D)|(T & sl & L & D)]])];
    rewrite Hm in G; try discriminate G; injection G as <-;
    try congruence.
  rewrite D in He. injection He as _ <-.
  pose proof (loadModule_frame module sa) as LF. cbv zeta in LF. rewrite L in LF.
  cbn [snd] in LF. destruct LF as (Lf & Ls & Lc & La & _).
  set (M1 := <["enabled" := boolean true]> module) in *.
  set (s1 := with_activeModules _ _) in *.
  assert (C1 : installedModules s1 !! i = Some M1) by apply lookup_insert_eq.
  assert (G1 : getInstalledModule i s1 = (Ok (Some M1), s1))
    by exact (getInstalledModule_cached _ _ _ C1).
  assert (T1 : truthy (get M1 "enabled") = true).
  { unfold get, M1. now rewrite lookup_insert_eq. }
  assert (I1 : get M1 "id" = get module "id").
  { unfold get, M1. now rewrite lookup_insert_ne. }
  assert (K1 : get M1 "category" = get module "category").
  { unfold get, M1. now rewrite lookup_insert_ne. }
  pose proof (disableModule_cases i s1) as DC. cbv zeta in DC.
  rewrite G1 in DC. cbn [fst snd] in DC.
  destruct DC
    as [(G & _)|(module' & G & [(T' & D')|[(T' & msg & _ & D')|(T' & su & U & D')]])];
    try discriminate G; injection G as <-; try congruence.
  rewrite D' in Hd. injection Hd as _ <-.
  assert (Su : store_installed su = store_installed s1
               /\ activeModules su = activeModules s1
               /\ installedModules su = installedModules s1
               /\ files su = files s1
               /\ (get module "category" = str "tools" ->
                   is_Some (loadedTools s1 !! get M1 "id") ->
                   loadedTools su !! get module "id" = None /\ hotkeys su = false)).
  { destruct (unloadModule_cases M1 s1)
      as [(msg & U')|[(C & U')|(Hc & Hl & U')]]; rewrite U' in U;
      try discriminate U; injection U as <-.
    - conjuncts; try reflexivity. intros Hc Hl. rewrite K1 in C.
      destruct C as [C|C]; [contradiction|]. rewrite C in Hl.
      destruct Hl as [? Hl]. discriminate Hl.
    - cbn. conjuncts; try reflexivity. intros _ _. rewrite <- I1.
      split; [apply lookup_delete_eq|reflexivity]. }
  destruct Su as (Su1 & Su2 & Su3 & Su4 & Su5).
  cbn [store_installed activeModules installedModules files loadedTools hotkeys
       with_activeModules with_installedModules with_store_installed].
  rewrite Su1, Su2, Su4. subst s1.
  cbn [store_installed activeModules installedModules files loadedTools hotkeys
       with_activeModules with_installedModules with_store_installed].
  rewrite Ls, La, Lf, Fs, Fa, Ff.
  conjuncts.
  - now apply toggle_enabled_back.
  - rewrite delete_insert_eq. now apply delete_id.
  - rewrite lookup_insert_eq. f_equal. unfold M1.
    rewrite insert_insert_eq. now apply insert_id.
  - reflexivity.
  - intros Hc. apply Su5; [exact Hc|]. rewrite I1.
    cbn [loadedTools with_activeModules with_installedModules with_store_installed].
    destruct (loadModule_cases module sa)
      as [(msg & L')|[(C & L')|(C & p & c & Hp & Hr & L')]]; rewrite L' in L;
      try discriminate L; [contradiction|].
    destruct (init c ≫= init_throws); [discriminate L|]. injection L as <-.
    cbn. rewrite lookup_insert_eq. eauto.
Qed.

(** Unloading a tool unregisters every global shortcut, not only the
    tool's own ([globalShortcut.unregisterAll]), while the other tools
    stay loaded and keep their windows. *)
Theorem unloadTool_unregisters_every_shortcut (i : jsval) (s : State)
    (tool : Tool) :
  loadedTools s !! i = Some tool ->
  (forall message, cleanup tool <> Some (Some message)) ->
  let s' := snd (unloadTool i s) in
  fst (unloadTool i s) = Ok tt
  /\ hotkeys s' = false
  /\ loadedTools s' !! i = None
  /\ (i ∉ toolWindows s')
  /\ (forall j, j <> i ->
        loadedTools s' !! j = loadedTools s !! j
        /\ (j ∈ toolWindows s' <-> j ∈ toolWindows s)).
Proof.
  intros Hl Hc. cbv zeta. unfold unloadTool. op_unfold. rewrite Hl.
  destruct (cleanup tool) as [[message|]|] eqn:C;
    [now contradiction (Hc message)| |]; cbn.
  all: conjuncts; try reflexivity; try apply lookup_delete_eq.
  all: try (rewrite elem_of_difference, elem_of_singleton; tauto).
  all: intros j Hj; split; [now rewrite lookup_delete_ne|].
  all: rewrite elem_of_difference, elem_of_singleton; tauto.
Qed.

End Enabling.

Section Registry2Examples.
Import Effects Collections Values FS Modules Loading Specs ModuleScenarios.

Lemma unknown_module_is_refused_witness :
  uninstallModule (str "theme-dark") installed_v1
  = (Throw "Module not found", installed_v1)
  /\ disableModule (str "theme-dark") installed_v1
     = (Throw "Module not found", installed_v1)
  /\ enableModule (fun _ => Throw "Cannot find module") (str "theme-dark")
       installed_v1
     = (Throw "Module not found", installed_v1).
Proof.
  apply (unknown_module_is_refused _ (str "theme-dark") installed_v1).
  - by_normal_form.
  - intros m Hm.
    assert (E : store_installed installed_v1 = [record_v1]) by by_normal_form.
    rewrite E in Hm. apply list_elem_of_singleton in Hm. subst m.
    vm_compute. discriminate.
Defined.

End Registry2Examples.

Section Uninstalling.
Import Effects Collections Values FS Modules Loading Specs.

Lemma unloadModule_frame (module : object) (s : State) :
  let s' := snd (unloadModule module s) in
  files s' = files s /\ store_installed s' = store_installed s
  /\ installedModules s' = installedModules s
  /\ activeModules s' = activeModules s.
Proof.
  cbv zeta.
  destruct (unloadModule_cases module s) as [(msg & ->)|[(_ & ->)|(_ & _ & ->)]];
    repeat split.
Qed.

Lemma with_id_filter_other (i j : jsval) (l : list object) :
  j <> i ->
  with_id j (List.filter (fun m => negb (strict_eq (get m "id") i)) l)
  = with_id j l.
Proof.
  intros Hj. unfold with_id. induction l as [|m l IH]; cbn; [reflexivity|].
  unfold strict_eq in *.
  destruct (decide (get m "id" = i)) as [E|E].
  - rewrite (bool_decide_eq_true_2 _ E). cbn.
    rewrite (bool_decide_eq_false_2 (get m "id" = j)) by congruence. exact IH.
  - rewrite (bool_decide_eq_false_2 _ E). cbn.
    destruct (bool_decide (get m "id" = j)); [f_equal|]; exact IH.
Qed.

Lemma with_id_flag_other (i j : jsval) (v : jsval) (l : list object) :
  j <> i ->
  with_id j ((fun m => if strict_eq (get m "id") i
                       then <["enabled" := v]> m else m) <$> l)
  = with_id j l.
Proof.
  intros Hj. unfold with_id. induction l as [|m l IH]; cbn; [reflexivity|].
  unfold strict_eq in *.
  destruct (decide (get m "id" = i)) as [E|E].
  - rewrite (bool_decide_eq_true_2 _ E).
    assert (E' : get (<["enabled" := v]> m) "id" = i).
    { unfold get in *. now rewrite lookup_insert_ne. }
    rewrite (bool_decide_eq_false_2 (get _ "id" = j)) by congruence.
    rewrite (bool_decide_eq_false_2 (get m "id" = j)) by congruence. exact IH.
  - rewrite (bool_decide_eq_false_2 _ E).
    destruct (bool_decide (get m "id" = j)); [f_equal|]; exact IH.
Qed.

Lemma with_id_nil_find (i : jsval) (l : list object) :
  with_id i l = [] ->
  Collections.find (fun m => strict_eq (get m "id") i) l = None.
Proof.
  unfold with_id. induction l as [|m l IH]; cbn; [reflexivity|].
  destruct (strict_eq (get m "id") i); [discriminate|exact IH].
Qed.

(** A successful [uninstallModule]: the module was known; afterwards no
    record with its id is persisted or cached and a lookup of the id finds
    nothing; the records and cache entries of all other ids are as
    before; an enabled module has left the active set; and of the files
    exactly those at or below the record's [installPath] are gone. *)
Theorem uninstallModule_postcondition (i : jsval) (s s' : State)
    (message : string) :
  uninstallModule i s = (Ok message, s') ->
  exists module,
    fst (getInstalledModule i s) = Ok (Some module)
    /\ message = to_string (get module "displayName")
                 +:+ " uninstalled successfully"
    /\ installedModules s' !! i = None
    /\ with_id i (store_installed s') = []
    /\ fst (getInstalledModule i s') = Ok None
    /\ (forall j, j <> i ->
          with_id j (store_installed s') = with_id j (store_installed s)
          /\ installedModules s' !! j = installedModules s !! j)
    /\ (truthy (get module "enabled") = true ->
        activeModules s' = delete i (activeModules s))
    /\ (forall p, get module "installPath" = str p -> p <> "" ->
        forall q, files s' !! q
                  = if decide (parse p `prefix_of` q) then None
                    else files s !! q).
Proof.
  intros H.
  pose proof (getInstalledModule_frame i s) as F. cbv zeta in F.
  destruct F as (Ff & Fs & _ & Fa & _ & _ & _ & Fc).
  unfold uninstallModule in H. unfold Effects.bind at 1 in H.
  destruct (getInstalledModule i s) as [[[module|]|e] s1] eqn:E;
    [|discriminate H|discriminate H].
  cbn [snd] in *.
  pose proof (getInstalledModule_found i s module) as G. rewrite E in G.
  specialize (G eq_refl). cbv zeta in G. cbn [snd] in G.
  destruct G as (Gc & _ & _ & _ & _ & G1).
  exists module. split; [reflexivity|].
  (* the state after the optional [disableModule] *)
  unfold Effects.bind at 1 in H.
  destruct ((if truthy (get module "enabled")
             then disableModule i;; Effects.ret ()
             else Effects.ret ()) s1) as [[[]|e] s2] eqn:D; [|discriminate H].
  assert (S2 : files s2 = files s
               /\ (forall j, j <> i ->
                     with_id j (store_installed s2) = with_id j (store_installed s)
                     /\ installedModules s2 !! j = installedModules s !! j)
               /\ (truthy (get module "enabled") = true ->
                   activeModules s2 = delete i (activeModules s))).
  { destruct (truthy (get module "enabled")) eqn:T.
    - unfold Effects.bind in D.
      pose proof (disableModule_cases i s1) as DC. cbv zeta in DC.
      rewrite G1 in DC. cbn [fst snd] in DC.
      destruct DC as [(X & _)|(module' & X & [(T' & D')|[(T' & msg & _ & D')|(T' & su & U & D')]])];
        try discriminate X; injection X as <-; try congruence;
        rewrite D' in D; try discriminate D.
      injection D as <-.
      pose proof (unloadModule_frame module s1) as UF. cbv zeta in UF.
      rewrite U in UF. cbn [snd] in UF. destruct UF as (Uf & Us & Uc & Ua).
      cbn. rewrite Uf, Us, Uc, Ua, Ff, Fs, Fa.
      split; [reflexivity|]. split; [|reflexivity].
      intros j Hj. split; [now apply with_id_flag_other|].
      rewrite lookup_insert_ne by congruence. now apply Fc.
    - injection D as <-. rewrite Ff, Fs.
      split; [reflexivity|]. split; [|discriminate].
      intros j Hj. split; [reflexivity|now apply Fc]. }
  destruct S2 as (S2f & S2o & S2a).
  assert (Hn : forall s3 : State,
     store_installed s3 = store_installed s2 ->
     installedModules s3 = installedModules s2 ->
     activeModules s3 = activeModules s2 ->
     let s4 := with_installedModules (delete i (installedModules s3))
                 (with_store_installed
                    (List.filter (fun m => negb (strict_eq (get m "id") i))
                       (store_installed s3)) s3) in
     installedModules s4 !! i = None
     /\ with_id i (store_installed s4) = []
     /\ fst (getInstalledModule i s4) = Ok None
     /\ (forall j, j <> i ->
           with_id j (store_installed s4) = with_id j (store_installed s)
           /\ installedModules s4 !! j = installedModules s !! j)
     /\ (truthy (get module "enabled") = true ->
         activeModules s4 = delete i (activeModules s))).
  { intros s3 H1 H2 H3.
    cbn [store_installed installedModules activeModules with_installedModules
         with_store_installed].
    rewrite H1, H2, H3.
    split; [apply lookup_delete_eq|]. split; [apply with_id_removed|].
    split.
    { unfold getInstalledModule. op_unfold. cbn.
      rewrite lookup_delete_eq.
      now rewrite (with_id_nil_find _ _ (with_id_removed i (store_installed s2))). }
    split; [|exact S2a].
    intros j Hj. rewrite with_id_filter_other by exact Hj.
    rewrite lookup_delete_ne by congruence. now apply S2o. }
  destruct (truthy (get module "installPath")) eqn:T.
  - destruct (get module "installPath") as [| | | |installPath] eqn:P;
      try discriminate H.
    cbn in H. injection H as <- <-.
    split; [reflexivity|].
    specialize (Hn (with_files (rm_rf (parse installPath) (files s2)) s2)
                  eq_refl eq_refl eq_refl). cbv zeta in Hn.
    destruct Hn as (N1 & N2 & N3 & N4 & N5).
    conjuncts; try assumption.
    intros p [= <-] _ q. cbn. rewrite rm_rf_lookup, S2f.
    destruct (decide _); reflexivity.
  - cbn in H. injection H as <- <-.
    split; [reflexivity|].
    specialize (Hn s2 eq_refl eq_refl eq_refl). cbv zeta in Hn.
    destruct Hn as (N1 & N2 & N3 & N4 & N5).
    conjuncts; try assumption.
    intros p Hp Hne. rewrite Hp in T. cbn in T.
    apply negb_false_iff, String.eqb_eq in T. contradiction.
Qed.

End Uninstalling.

Section Staging.
Import Effects Collections Values FS Modules Loading Specs.

(** What the [catch] block's sweep leaves: removing only removes, and no
    direct child of the staging root whose name starts with [install-]
    is left when the root can be listed. *)
Lemma sweep_only_removes (tempDir : path) (dirs : list string) (t : fs) (q : path) :
  foldl (fun t dir => if String.prefix "install-" dir
                      then rm_rf (tempDir ++ [dir])%list t else t) t dirs !! q
  = None
  \/ foldl (fun t dir => if String.prefix "install-" dir
                         then rm_rf (tempDir ++ [dir])%list t else t) t dirs !! q
     = t !! q.
Proof.
  revert t. induction dirs as [|d dirs IH]; intros t; [now right|].
  cbn [foldl]. destruct (IH (if String.prefix "install-" d
                              then rm_rf (tempDir ++ [d])%list t else t))
    as [H|H]; [now left|]. rewrite H.
  destruct (String.prefix "install-" d); [|now right].
  rewrite rm_rf_lookup. destruct (decide _); [now left|now right].
Qed.

Lemma sweep_removes_listed (tempDir : path) (dirs : list string) (t : fs)
    (name : string) :
  name ∈ dirs -> String.prefix "install-" name = true ->
  foldl (fun t dir => if String.prefix "install-" dir
                      then rm_rf (tempDir ++ [dir])%list t else t) t dirs
  !! (tempDir ++ [name])%list = None.
Proof.
  intros Hin Hp. revert t. induction dirs as [|d dirs IH]; intros t.
  - inversion Hin.
  - cbn [foldl]. apply elem_of_cons in Hin as [<-|Hin]; [|now apply IH].
    rewrite Hp.
    destruct (sweep_only_removes tempDir dirs (rm_rf (tempDir ++ [name])%list t)
                (tempDir ++ [name])%list) as [H|H]; [exact H|].
    rewrite H, rm_rf_lookup.
    destruct (decide _) as [|N]; [reflexivity|now contradiction N].
Qed.

Lemma readdir_lists_children (p : path) (t : fs) (names : list string)
    (name : string) :
  readdir p t = Ok names -> is_Some (t !! (p ++ [name])%list) -> name ∈ names.
Proof.
  unfold readdir. destruct (is_directory t p); [|discriminate].
  intros [= <-] [x Hx]. apply list_elem_of_omap. exists (p ++ [name])%list. split.
  - apply list_elem_of_fmap. exists ((p ++ [name])%list, x). split; [reflexivity|].
    now apply elem_of_map_to_list.
  - rewrite bool_decide_eq_true_2 by now apply prefix_app_r.
    now rewrite drop_app_length.
Qed.

Lemma sweep_staging_lookup (s : State) (q : path) :
  files (snd (sweep_staging s)) !! q = None
  \/ files (snd (sweep_staging s)) !! q = files s !! q.
Proof.
  unfold sweep_staging. op_unfold.
  destruct (readdir _ _) as [dirs|e]; [|now right].
  cbn. apply sweep_only_removes.
Qed.

Lemma sweep_staging_clears (s : State) (name : string) :
  is_directory (files s) (modulesDir s ++ ["temp"])%list = true ->
  String.prefix "install-" name = true ->
  files (snd (sweep_staging s)) !! (modulesDir s ++ ["temp"; name])%list = None.
Proof.
  intros Hd Hp. unfold sweep_staging. op_unfold.
  destruct (readdir _ _) as [dirs|e] eqn:R.
  2:{ unfold readdir in R. rewrite Hd in R. discriminate R. }
  cbn. replace (modulesDir s ++ ["temp"; name])%list
    with ((modulesDir s ++ ["temp"]) ++ [name])%list by now rewrite <- app_assoc.
  destruct (files s !! ((modulesDir s ++ ["temp"]) ++ [name])%list) as [x|] eqn:E.
  - apply sweep_removes_listed; [|exact Hp].
    apply (readdir_lists_children _ _ _ _ R). now rewrite E.
  - destruct (sweep_only_removes (modulesDir s ++ ["temp"])%list dirs (files s)
                ((modulesDir s ++ ["temp"]) ++ [name])%list) as [H|H];
      [exact H|now rewrite H].
Qed.

(** An archive that cannot be staged (it is missing, has no readable
    [module.json], or its manifest is invalid): [installModule] throws
    the error of the stage; the persisted list, the registry, the active
    set and the files away from the staging root are as before; and when
    the staging root can be listed, no [install-*] entry is left in it. *)
Theorem unstageable_archive_changes_nothing (filePath : path)
    (moduleInfo : object) (now : Z) (s s1 : State) (message : string) :
  stage filePath now s = (Throw message, s1) ->
  let out := installModule filePath moduleInfo now s in
  fst out = Throw message
  /\ same_but_staging s (snd out)
  /\ (is_directory (files (snd out)) (modulesDir s ++ ["temp"])%list = true ->
      forall name, String.prefix "install-" name = true ->
        files (snd out) !! (modulesDir s ++ ["temp"; name])%list = None).
Proof.
  intros Hst out.
  pose proof (stage_frame filePath now s) as F. rewrite Hst in F.
  destruct F as (Fu & Fs & Fm & Fa & Fl & Ff). cbn [snd] in *.
  assert (Hout : out = (Throw message, snd (sweep_staging s1))).
  { subst out. unfold installModule, Effects.try_catch, Effects.bind at 1.
    rewrite Hst. unfold Effects.bind, Effects.throw.
    destruct (sweep_staging_frame s1) as (Hok & _).
    destruct (sweep_staging s1) as [r s3]. cbn in Hok. subst r. reflexivity. }
  rewrite Hout. cbn [fst snd].
  destruct (sweep_staging_frame s1) as (_ & Su & Ss & Sm & Sa & Sl & Sf).
  assert (Md : modulesDir s1 = modulesDir s) by (unfold modulesDir; now rewrite Fu).
  split; [reflexivity|]. split.
  - unfold same_but_staging. conjuncts; try congruence.
    intros q Hq. rewrite Sf; [now apply Ff|].
    rewrite Md. intros R. apply Hq. now left.
  - intros Hd name Hp. rewrite <- Md. apply sweep_staging_clears; [|exact Hp].
    rewrite Md. unfold is_directory in *.
    apply bool_decide_eq_true_1 in Hd. apply bool_decide_eq_true_2.
    destruct (sweep_staging_lookup s1 (modulesDir s ++ ["temp"])%list) as [H|H];
      congruence.
Qed.


Lemma disableModule_userData (i : jsval) (s : State) :
  userData (snd (disableModule i s)) = userData s.
Proof.
  pose proof (getInstalledModule_frame i s) as F. cbv zeta in F.
  destruct F as (_ & _ & Fu & _).
  pose proof (disableModule_cases i s) as DC. cbv zeta in DC.
  destruct DC
    as [(_ & D)|(module & G & [(T & D)|[(T & msg & _ & D)|(T & s2 & U & D)]])];
    rewrite D; cbn; try exact Fu.
  rewrite <- Fu.
  destruct (unloadModule_cases module (snd (getInstalledModule i s)))
    as [(msg & U')|[(_ & U')|(_ & _ & U')]]; rewrite U' in U;
    try discriminate U; now injection U as <-.
Qed.

Lemma uninstallModule_userData (i : jsval) (s : State) :
  userData (snd (uninstallModule i s)) = userData s.
Proof.
  pose proof (getInstalledModule_frame i s) as F. cbv zeta in F.
  destruct F as (_ & _ & Fu & _).
  unfold uninstallModule. unfold Effects.bind at 1.
  destruct (getInstalledModule i s) as [[[module|]|e] s1]; cbn [snd] in *;
    try exact Fu.
  unfold Effects.bind at 1.
  assert (D : userData (snd ((if truthy (get module "enabled")
                              then disableModule i;; Effects.ret ()
                              else Effects.ret ()) s1)) = userData s).
  { destruct (truthy _); [|exact Fu]. unfold Effects.bind.
    pose proof (disableModule_userData i s1) as Du.
    destruct (disableModule i s1) as [[?|?] ?]; cbn in *; congruence. }
  destruct ((if truthy (get module "enabled")
             then disableModule i;; Effects.ret ()
             else Effects.ret ()) s1) as [[[]|e] s2]; cbn [snd] in D;
    [|exact D].
  destruct (truthy (get module "installPath")).
  - destruct (get module "installPath"); cbn; exact D.
  - cbn. exact D.
Qed.

Lemma resolve_existing_userData (manifest : object) (s : State) :
  userData (snd (resolve_existing manifest s)) = userData s.
Proof.
  pose proof (getInstalledModule_frame (get manifest "id") s) as F.
  cbv zeta in F. destruct F as (_ & _ & Fu & _).
  unfold resolve_existing. unfold Effects.bind at 1.
  destruct (getInstalledModule (get manifest "id") s) as [[[existing|]|e] s1];
    cbn [snd] in *; try exact Fu.
  destruct (strict_eq _ _); [exact Fu|].
  unfold Effects.bind.
  pose proof (uninstallModule_userData (get manifest "id") s1) as U.
  destruct (uninstallModule (get manifest "id") s1) as [[?|?] ?]; cbn in *;
    congruence.
Qed.

(** The record a successful [installModule] returns and registers.  Its
    [installPath] is the directory [modulesDir/<category>/<id>] named by
    the manifest, its [installedAt] is the time of the call, its [enabled]
    is [false] and it has a numeric [size], whatever the override metadata
    say; every other key has the override's value when the override has
    the key and the manifest's otherwise.  The record is the last of the
    persisted list and is registered under the manifest's id. *)
Theorem installed_record_fields (filePath : path) (moduleInfo : object)
    (now : Z) (s s' : State) (installation : object) :
  installModule filePath moduleInfo now s = (Ok installation, s') ->
  exists temp manifest s1 category id,
    stage filePath now s = (Ok (temp, manifest), s1)
    /\ get manifest "category" = str category
    /\ get manifest "id" = str id
    /\ get installation "installPath"
       = str (render (path_join (path_join (modulesDir s) category) id))
    /\ get installation "installedAt" = num now
    /\ get installation "enabled" = boolean false
    /\ (exists size, get installation "size" = num size)
    /\ (forall k, k <> "installPath" -> k <> "installedAt" -> k <> "enabled" ->
          k <> "size" ->
          get installation k
          = match moduleInfo !! k with
            | Some v => v
            | None => get manifest k
            end)
    /\ installedModules s' !! str id = Some installation
    /\ last (store_installed s') = Some installation.
Proof.
  intros H.
  destruct (installModule_ok _ _ _ _ _ _ H) as (temp & manifest & s1 & s2 & S & R & P).
  pose proof (stage_frame filePath now s) as F. rewrite S in F.
  destruct F as (Fu & _). cbn [snd] in Fu.
  pose proof (resolve_existing_userData manifest s1) as Ru. rewrite R in Ru.
  cbn [snd] in Ru.
  assert (Md : modulesDir s2 = modulesDir s)
    by (unfold modulesDir; congruence).
  exists temp, manifest, s1.
  unfold place_and_register, join_value in P. op_unfold.
  destruct (get manifest "category") as [| | | |category] eqn:Ec; try discriminate P.
  destruct (get manifest "id") as [| | | |id] eqn:Ei; try discriminate P.
  exists category, id. rewrite Md in P.
  destruct (mkdir_p _ _) as [[[]|e] t1]; [|discriminate P].
  cbn [files with_files] in P.
  destruct (rename _ _ _) as [[[]|e] t2]; [|discriminate P].
  cbn [files with_files store_installed installedModules with_store_installed
       with_installedModules] in P.
  assert (Q : forall t3 : fs,
     let installation :=
       <["size" := num (dir_size (path_join (path_join (modulesDir s) category) id) t2)]>
         (<["enabled" := boolean false]>
           (<["installedAt" := num now]>
             (<["installPath"
                := str (render (path_join (path_join (modulesDir s) category) id))]>
               (spread manifest moduleInfo)))) in
     get installation "installPath"
     = str (render (path_join (path_join (modulesDir s) category) id))
     /\ get installation "installedAt" = num now
     /\ get installation "enabled" = boolean false
     /\ (exists size, get installation "size" = num size)
     /\ (forall k, k <> "installPath" -> k <> "installedAt" -> k <> "enabled" ->
           k <> "size" ->
           get installation k
           = match moduleInfo !! k with
             | Some v => v
             | None => get manifest k
             end)).
  { intros _. cbv zeta.
    assert (Ne : forall (o : object) k k' v, k <> k' ->
               get (<[k := v]> o) k' = get o k').
    { intros o k k' v Hk. unfold get. now rewrite lookup_insert_ne. }
    assert (Eq : forall (o : object) k v, get (<[k := v]> o) k = v).
    { intros o k v. unfold get. now rewrite lookup_insert_eq. }
    split. { now rewrite !Ne, Eq by discriminate. }
    split. { now rewrite !Ne, Eq by discriminate. }
    split. { now rewrite Ne, Eq by discriminate. }
    split. { eexists. apply Eq. }
    intros k K1 K2 K3 K4. rewrite !Ne by congruence. apply spread_get. }
  specialize (Q ∅). cbv zeta in Q.
  destruct (unlink _ _) as [[[]|e] t3]; injection P as <- <-; cbn.
  all: split; [exact S|]; split; [reflexivity|]; split; [reflexivity|].
  all: destruct Q as (Q1 & Q2 & Q3 & Q4 & Q5).
  all: conjuncts; try assumption; try apply lookup_insert_eq; try apply last_snoc.
Qed.

End Staging.

Section EnablingExamples.
Import Effects Collections Values FS Modules Loading Specs ModuleScenarios
  LoadingScenarios.

Lemma enableModule_postcondition_witness :
  let require := require_from clipper_code in
  let i := str "screen-clipper" in
  let s := installed_v1 in
  let s' := enabled_v1 in
  let message := "Screen Clipper enabled successfully" in
  exists module,
    fst (getInstalledModule i s) = Ok (Some module)
    /\ files s' = files s
    /\ ((truthy (get module "enabled") = true
         /\ message = "Module already enabled"
         /\ store_installed s' = store_installed s
         /\ activeModules s' = activeModules s
         /\ loadedTools s' = loadedTools s)
        \/ (truthy (get module "enabled") = false
            /\ message = to_string (get module "displayName")
                         +:+ " enabled successfully"
            /\ store_installed s'
               = (fun m => if strict_eq (get m "id") i
                           then <["enabled" := boolean true]> m else m)
                 <$> store_installed s
            /\ installedModules s' !! i
               = Some (<["enabled" := boolean true]> module)
            /\ activeModules s'
               = <[i := <["enabled" := boolean true]> module]> (activeModules s)
            /\ (get module "category" = str "tools" ->
                exists toolPath toolModule,
                  fst (main_path module s) = Ok toolPath
                  /\ require toolPath = Ok toolModule
                  /\ (init toolModule ≫= init_throws) = None
                  /\ loadedTools s'
                     = <[get module "id" := instance toolModule]> (loadedTools s))
            /\ (get module "category" <> str "tools" ->
                loadedTools s' = loadedTools s
                /\ toolWindows s' = toolWindows s
                /\ hotkeys s' = hotkeys s))).
Proof.
  cbv zeta.
  apply (enableModule_postcondition (require_from clipper_code)
           (str "screen-clipper") installed_v1 enabled_v1
           "Screen Clipper enabled successfully").
  by_normal_form.
Defined.

Lemma failed_enableModule_sets_no_flag_witness :
  let i := str "screen-clipper" in
  let s := installed_v1 in
  let s' := snd (enableModule (require_from faulty_code) i s) in
  let message := "init failed" in
  files s' = files s
  /\ store_installed s' = store_installed s
  /\ activeModules s' = activeModules s
  /\ (forall j, j <> i -> installedModules s' !! j = installedModules s !! j)
  /\ (loadedTools s' = loadedTools s
      \/ exists module toolModule,
           fst (getInstalledModule i s) = Ok (Some module)
           /\ (init toolModule ≫= init_throws) = Some message
           /\ loadedTools s'
              = <[get module "id" := instance toolModule]> (loadedTools s)).
Proof.
  cbv zeta.
  apply (failed_enableModule_sets_no_flag (require_from faulty_code)
           (str "screen-clipper") installed_v1 _ "init failed").
  by_normal_form.
Defined.

(** The tool whose [init] threw is recorded all the same. *)
Example faulty_tool_stays_recorded :
  let s' := snd (enableModule (require_from faulty_code) (str "screen-clipper")
                   installed_v1) in
  loadedTools s' !! str "screen-clipper" = Some (instance faulty_code)
  /\ activeModules s' !! str "screen-clipper" = None
  /\ (fun m => get m "enabled") <$> store_installed s' = [boolean false].
Proof. cbv zeta. conjuncts; by_normal_form. Qed.

Lemma disableModule_postcondition_witness :
  let i := str "screen-clipper" in
  let s := enabled_v1 in
  let s' := snd (disableModule i s) in
  let message := "Screen Clipper disabled successfully" in
  exists module,
    fst (getInstalledModule i s) = Ok (Some module)
    /\ files s' = files s
    /\ ((truthy (get module "enabled") = false
         /\ message = "Module already disabled"
         /\ store_installed s' = store_installed s
         /\ activeModules s' = activeModules s
         /\ loadedTools s' = loadedTools s)
        \/ (truthy (get module "enabled") = true
            /\ message = to_string (get module "displayName")
                         +:+ " disabled successfully"
            /\ store_installed s'
               = (fun m => if strict_eq (get m "id") i
                           then <["enabled" := boolean false]> m else m)
                 <$> store_installed s
            /\ installedModules s' !! i
               = Some (<["enabled" := boolean false]> module)
            /\ activeModules s' = delete i (activeModules s)
            /\ (get module "category" = str "tools" ->
                loadedTools s' !! get module "id" = None)
            /\ (forall j, j <> get module "id" ->
                loadedTools s' !! j = loadedTools s !! j)
            /\ (get module "category" <> str "tools" ->
                loadedTools s' = loadedTools s
                /\ toolWindows s' = toolWindows s
                /\ hotkeys s' = hotkeys s))).
Proof.
  cbv zeta.
  apply (disableModule_postcondition (str "screen-clipper") enabled_v1 _
           "Screen Clipper disabled successfully").
  by_normal_form.
Defined.

Lemma failed_disableModule_changes_nothing_witness :
  let i := str "screen-clipper" in
  let s := enabled_stubborn in
  let s' := snd (disableModule i s) in
  files s' = files s
  /\ store_installed s' = store_installed s
  /\ activeModules s' = activeModules s
  /\ loadedTools s' = loadedTools s
  /\ toolWindows s' = toolWindows s
  /\ hotkeys s' = hotkeys s
  /\ (forall j, j <> i -> installedModules s' !! j = installedModules s !! j).
Proof.
  cbv zeta.
  apply (failed_disableModule_changes_nothing (str "screen-clipper")
           enabled_stubborn _ "cleanup failed").
  by_normal_form.
Defined.

Lemma enable_then_disable_restores_witness :
  let i := str "screen-clipper" in
  let s := installed_v1 in
  let s2 := snd (disableModule i enabled_v1) in
  store_installed s2 = store_installed s
  /\ activeModules s2 = activeModules s
  /\ installedModules s2 !! i = Some record_v1
  /\ files s2 = files s
  /\ (get record_v1 "category" = str "tools" ->
      loadedTools s2 !! get record_v1 "id" = None /\ hotkeys s2 = false).
Proof.
  cbv zeta.
  apply (enable_then_disable_restores (require_from clipper_code)
           (str "screen-clipper") installed_v1 enabled_v1 _ record_v1
           "Screen Clipper enabled successfully"
           "Screen Clipper disabled successfully").
  - by_normal_form.
  - by_normal_form.
  - intros m Hm _.
    assert (E : store_installed installed_v1 = [record_v1]) by by_normal_form.
    rewrite E in Hm. apply list_elem_of_singleton in Hm. subst m. by_normal_form.
  - by_normal_form.
  - by_normal_form.
  - by_normal_form.
Defined.

Lemma unloadTool_unregisters_every_shortcut_witness :
  let i := str "screen-clipper" in
  let s := two_tools in
  let s' := snd (unloadTool i s) in
  fst (unloadTool i s) = Ok tt
  /\ hotkeys s' = false
  /\ loadedTools s' !! i = None
  /\ (i ∉ toolWindows s')
  /\ (forall j, j <> i ->
        loadedTools s' !! j = loadedTools s !! j
        /\ (j ∈ toolWindows s' <-> j ∈ toolWindows s)).
Proof.
  cbv zeta.
  apply (unloadTool_unregisters_every_shortcut (str "screen-clipper") two_tools
           (instance clipper_code)).
  - by_normal_form.
  - intros message. discriminate.
Defined.

(** In [two_tools] the other tool stays loaded, and its shortcut is gone. *)
Example other_tool_loses_its_shortcut :
  let s' := snd (unloadTool (str "screen-clipper") two_tools) in
  hotkeys two_tools = true
  /\ loadedTools s' !! str "ruler" = Some {| cleanup := None |}
  /\ hotkeys s' = false.
Proof. cbv zeta. conjuncts; by_normal_form. Qed.

End EnablingExamples.

Section InstallingExamples.
Import Effects Collections Values FS Modules Loading Specs ModuleScenarios
  LoadingScenarios.

Lemma uninstallModule_postcondition_witness :
  let i := str "screen-clipper" in
  let s := enabled_v1 in
  let s' := snd (uninstallModule i s) in
  exists module,
    fst (getInstalledModule i s) = Ok (Some module)
    /\ "Screen Clipper uninstalled successfully"
       = to_string (get module "displayName") +:+ " uninstalled successfully"
    /\ installedModules s' !! i = None
    /\ with_id i (store_installed s') = []
    /\ fst (getInstalledModule i s') = Ok None
    /\ (forall j, j <> i ->
          with_id j (store_installed s') = with_id j (store_installed s)
          /\ installedModules s' !! j = installedModules s !! j)
    /\ (truthy (get module "enabled") = true ->
        activeModules s' = delete i (activeModules s))
    /\ (forall p, get module "installPath" = str p -> p <> "" ->
        forall q, files s' !! q
                  = if decide (parse p `prefix_of` q) then None
                    else files s !! q).
Proof.
  cbv zeta.
  apply (uninstallModule_postcondition (str "screen-clipper") enabled_v1 _
           "Screen Clipper uninstalled successfully").
  by_normal_form.
Defined.

Lemma unstageable_archive_changes_nothing_witness :
  let s := installed_v1 in
  let out := installModule ["dl"; "broken.zip"] ∅ 2000 s in
  fst out = Throw "Invalid manifest: missing fields author"
  /\ same_but_staging s (snd out)
  /\ (is_directory (files (snd out)) (modulesDir s ++ ["temp"])%list = true ->
      forall name, String.prefix "install-" name = true ->
        files (snd out) !! (modulesDir s ++ ["temp"; name])%list = None).
Proof.
  cbv zeta.
  apply (unstageable_archive_changes_nothing ["dl"; "broken.zip"] ∅ 2000
           installed_v1 (snd (stage ["dl"; "broken.zip"] 2000 installed_v1))
           "Invalid manifest: missing fields author").
  by_normal_form.
Defined.

Lemma installed_record_fields_witness :
  let s := fresh in
  let filePath := ["dl"; "clipper-1.0.0.zip"] in
  let moduleInfo := from_download in
  let installation :=
    <["size" := num 1020]>
      (<["enabled" := boolean false]>
        (<["installedAt" := num 1000]>
          (<["installPath" := str "/data/modules/tools/screen-clipper"]>
            (spread (manifest_of "1.0.0") from_download)))) in
  let s' := snd (installModule filePath moduleInfo 1000 s) in
  exists temp manifest s1 category id,
    stage filePath 1000 s = (Ok (temp, manifest), s1)
    /\ get manifest "category" = str category
    /\ get manifest "id" = str id
    /\ get installation "installPath"
       = str (render (path_join (path_join (modulesDir s) category) id))
    /\ get installation "installedAt" = num 1000
    /\ get installation "enabled" = boolean false
    /\ (exists size, get installation "size" = num size)
    /\ (forall k, k <> "installPath" -> k <> "installedAt" -> k <> "enabled" ->
          k <> "size" ->
          get installation k
          = match moduleInfo !! k with
            | Some v => v
            | None => get manifest k
            end)
    /\ installedModules s' !! str id = Some installation
    /\ last (store_installed s') = Some installation.
Proof.
  cbv zeta.
  apply (installed_record_fields ["dl"; "clipper-1.0.0.zip"] from_download
           1000 fresh).
  by_normal_form.
Defined.

End InstallingExamples.

(** * The download queues: moving, removing, cancelling *)

Section QueueLookups.
Import JS Effects Collections Downloads Transfers Specs.

Lemma findIndex_None_Forall {A} (p : A -> bool) (l : list A) :
  Forall (fun x => p x = false) l -> findIndex p l = None.
Proof.
  induction 1 as [|x l Hx _ IH]; cbn; [reflexivity|]. now rewrite Hx, IH.
Qed.

Lemma find_None_Forall {A} (p : A -> bool) (l : list A) :
  Forall (fun x => p x = false) l -> Collections.find p l = None.
Proof.
  induction 1 as [|x l Hx _ IH]; cbn; [reflexivity|]. now rewrite Hx, IH.
Qed.

Lemma findIndex_first {A} (p : A -> bool) (pre post : list A) (x : A) :
  Forall (fun y => p y = false) pre -> p x = true ->
  findIndex p (pre ++ x :: post) = Some (length pre).
Proof.
  induction 1 as [|y pre Hy _ IH]; intros Hx; cbn.
  - now rewrite Hx.
  - now rewrite Hy, IH.
Qed.

Lemma find_first {A} (p : A -> bool) (pre post : list A) (x : A) :
  Forall (fun y => p y = false) pre -> p x = true ->
  Collections.find p (pre ++ x :: post) = Some x.
Proof.
  induction 1 as [|y pre Hy _ IH]; intros Hx; cbn.
  - now rewrite Hx.
  - now rewrite Hy, IH.
Qed.

Lemma splice_middle {A} (pre post : list A) (x : A) :
  splice (length pre) (pre ++ x :: post) = (pre ++ post)%list.
Proof.
  unfold splice. induction pre as [|y pre IH]; cbn; [reflexivity|].
  f_equal. exact IH.
Qed.

(** A queue without the id: no reference of it passes the test of
    [findIndex]. *)
Lemma has_id_absent (s : Manager) (i : string) (q : list ref) :
  i ∉ ids s q -> Forall (fun r => has_id (heap s) i r = false) q.
Proof.
  rewrite ids_omap. intros H. apply Forall_forall. intros r Hr.
  unfold has_id. apply bool_decide_eq_false_2. intros E. apply H.
  apply list_elem_of_omap. exists r. split; [exact Hr|exact E].
Qed.

Lemma has_id_present (h : list Download) (r : ref) (d : Download) :
  h !! r = Some d -> has_id h (id d) r = true.
Proof.
  intros H. unfold has_id. apply bool_decide_eq_true_2. now rewrite H.
Qed.

Lemma Map_has_false_get {V} (k : string) (m : list (string * V)) :
  Map_has k m = false -> Map_get k m = None.
Proof.
  unfold Map_has. intros H. apply bool_decide_eq_false_1 in H.
  destruct (Map_get k m); [|reflexivity]. exfalso. apply H. eauto.
Qed.

(** An id that a queue does not hold: the moves throw, the removals
    return [false], and in each case the manager is left exactly as it
    was (nothing is persisted, no event is emitted). *)
Theorem unknown_download_is_refused (s : Manager) (i : string) :
  (i ∉ ids s (scheduled s) ->
   moveToUpNext i s = (Throw "Download not found in scheduled queue", s))
  /\ (i ∉ ids s (upNext s) ->
      moveToScheduled i s = (Throw "Download not found in up next queue", s))
  /\ (i ∉ ids s (complete s) -> removeFromCompleted i s = (Ok false, s))
  /\ (i ∉ ids s (scheduled s) -> i ∉ ids s (upNext s) ->
      Map_has i (activeDownloads s) = false ->
      removeFromQueue i s = (Ok false, s)).
Proof.
  conjuncts.
  - intros H. unfold moveToUpNext. op_unfold.
    now rewrite (findIndex_None_Forall _ _ (has_id_absent s i _ H)).
  - intros H. unfold moveToScheduled. op_unfold.
    now rewrite (findIndex_None_Forall _ _ (has_id_absent s i _ H)).
  - intros H. unfold removeFromCompleted. op_unfold.
    now rewrite (findIndex_None_Forall _ _ (has_id_absent s i _ H)).
  - intros H1 H2 H3. unfold removeFromQueue. op_unfold.
    rewrite (findIndex_None_Forall _ _ (has_id_absent s i _ H1)). cbn.
    rewrite (findIndex_None_Forall _ _ (has_id_absent s i _ H2)). cbn.
    now rewrite H3.
Qed.


(** The state after a move that finds its descriptor. *)
Lemma moveToUpNext_first (s : Manager) (i : string) (pre post : list ref)
    (r : ref) (d : Download) :
  scheduled s = (pre ++ r :: post)%list ->
  heap s !! r = Some d -> id d = i -> i ∉ ids s pre ->
  let out := moveToUpNext i s in
  let s' := snd out in
  fst out = Ok (Some d)
  /\ scheduled s' = (pre ++ post)%list
  /\ upNext s' = (upNext s ++ [r])%list
  /\ heap s' = heap s /\ complete s' = complete s
  /\ activeDownloads s' = activeDownloads s
  /\ pausedDownloads s' = pausedDownloads s
  /\ store_queues s'
     = Some {| q_scheduled := objects (heap s') (scheduled s');
               q_complete := objects (heap s') (complete s');
               q_upNext := objects (heap s') (upNext s') |}
  /\ emitted s' = (emitted s ++ [queues_updated (getAllQueues s')])%list.
Proof.
  intros Hq Hd Hi Hpre. cbv zeta. unfold moveToUpNext, saveQueues, emit. op_unfold.
  rewrite Hq.
  rewrite (findIndex_first _ pre post r (has_id_absent s i pre Hpre))
    by (subst i; now apply has_id_present).
  rewrite list_lookup_middle by reflexivity.
  cbn -[getAllQueues objects]. rewrite Hq, splice_middle, Hd.
  conjuncts; reflexivity.
Qed.

Lemma moveToScheduled_first (s : Manager) (i : string) (pre post : list ref)
    (r : ref) (d : Download) :
  upNext s = (pre ++ r :: post)%list ->
  heap s !! r = Some d -> id d = i -> i ∉ ids s pre ->
  let out := moveToScheduled i s in
  let s' := snd out in
  fst out = Ok (Some d)
  /\ upNext s' = (pre ++ post)%list
  /\ scheduled s' = (scheduled s ++ [r])%list
  /\ heap s' = heap s /\ complete s' = complete s
  /\ activeDownloads s' = activeDownloads s
  /\ pausedDownloads s' = pausedDownloads s
  /\ store_queues s'
     = Some {| q_scheduled := objects (heap s') (scheduled s');
               q_complete := objects (heap s') (complete s');
               q_upNext := objects (heap s') (upNext s') |}
  /\ emitted s' = (emitted s ++ [queues_updated (getAllQueues s')])%list.
Proof.
  intros Hq Hd Hi Hpre. cbv zeta. unfold moveToScheduled, saveQueues, emit. op_unfold.
  rewrite Hq.
  rewrite (findIndex_first _ pre post r (has_id_absent s i pre Hpre))
    by (subst i; now apply has_id_present).
  rewrite list_lookup_middle by reflexivity.
  cbn -[getAllQueues objects]. rewrite Hq, splice_middle, Hd.
  conjuncts; reflexivity.
Qed.

Lemma ids_same_heap (s s' : Manager) (q : list ref) :
  heap s' = heap s -> ids s' q = ids s q.
Proof. intros H. unfold ids. now rewrite H. Qed.

(** Promoting a scheduled download and demoting it again: [moveToUpNext]
    takes the first descriptor with the id out of [scheduled] and appends
    it to [upNext]; [moveToScheduled] then takes it out of [upNext] and
    appends it to [scheduled].  [upNext] is back as it was, the
    descriptor is now the last of [scheduled], both calls return it, no
    descriptor is changed, and what is persisted is the queues as they
    are at the end. *)
Theorem promote_then_demote (s : Manager) (i : string) (pre post : list ref)
    (r : ref) (d : Download) :
  scheduled s = (pre ++ r :: post)%list ->
  heap s !! r = Some d -> id d = i ->
  i ∉ ids s pre -> i ∉ ids s (upNext s) ->
  let out1 := moveToUpNext i s in
  let s1 := snd out1 in
  let out2 := moveToScheduled i s1 in
  let s2 := snd out2 in
  fst out1 = Ok (Some d)
  /\ scheduled s1 = (pre ++ post)%list
  /\ upNext s1 = (upNext s ++ [r])%list
  /\ fst out2 = Ok (Some d)
  /\ scheduled s2 = (pre ++ post ++ [r])%list
  /\ upNext s2 = upNext s
  /\ heap s2 = heap s /\ complete s2 = complete s
  /\ store_queues s2
     = Some {| q_scheduled := objects (heap s2) (scheduled s2);
               q_complete := objects (heap s2) (complete s2);
               q_upNext := objects (heap s2) (upNext s2) |}.
Proof.
  intros Hq Hd Hi Hpre Hup. cbv zeta.
  destruct (moveToUpNext_first s i pre post r d Hq Hd Hi Hpre)
    as (A1 & A2 & A3 & A4 & A5 & _).
  set (s1 := snd (moveToUpNext i s)) in *.
  assert (Hd1 : heap s1 !! r = Some d) by now rewrite A4.
  assert (Hup1 : i ∉ ids s1 (upNext s)) by now rewrite (ids_same_heap s s1).
  destruct (moveToScheduled_first s1 i (upNext s) [] r d A3 Hd1 Hi Hup1)
    as (B1 & B2 & B3 & B4 & B5 & _ & _ & B8 & _).
  rewrite app_nil_r in B2.
  conjuncts; try assumption; try congruence.
  rewrite B3, A2. now rewrite <- app_assoc.
Qed.


Lemma ids_app_not_in (s : Manager) (i : string) (q1 q2 : list ref) :
  i ∉ ids s q1 -> i ∉ ids s q2 -> i ∉ ids s (q1 ++ q2)%list.
Proof.
  intros H1 H2. rewrite ids_app. intros H. apply elem_of_app in H as [H|H]; auto.
Qed.

(** Removing a download that is being transferred.  The descriptor leaves
    [upNext], the request is destroyed, the active handle and the paused
    flag go, and the queues are persisted.  The descriptor itself is not
    touched (its status does not become ['cancelled']), the only event is
    [queues-updated], the promise of the transfer is not settled, and the
    files stay: [cancelDownload] looks for the descriptor in [upNext]
    after [removeFromQueue] has taken it out. *)
Theorem removing_an_active_download (s : Manager) (i : string)
    (pre post : list ref) (r : ref) (d : Download) (h : Handle) :
  upNext s = (pre ++ r :: post)%list ->
  heap s !! r = Some d -> id d = i ->
  i ∉ ids s pre -> i ∉ ids s post -> i ∉ ids s (scheduled s) ->
  Map_get i (activeDownloads s) = Some h ->
  let out := removeFromQueue i s in
  let s' := snd out in
  fst out = Ok true
  /\ upNext s' = (pre ++ post)%list
  /\ scheduled s' = scheduled s
  /\ complete s' = complete s
  /\ Map_has i (activeDownloads s') = false
  /\ (i ∉ pausedDownloads s')
  /\ heap s' = heap s
  /\ emitted s' = (emitted s ++ [queues_updated (getAllQueues s')])%list
  /\ tasks s' = tasks s
  /\ files s' = files s
  /\ (forall q, request h = Some q ->
        t_destroyed <$> transfers s' !! q
        = (fun _ => true) <$> transfers s !! q)
  /\ store_queues s'
     = Some {| q_scheduled := objects (heap s') (scheduled s');
               q_complete := objects (heap s') (complete s');
               q_upNext := objects (heap s') (upNext s') |}.
Proof.
  intros Hq Hd Hi Hpre Hpost Hs Ha. cbv zeta.
  assert (Hh : Map_has i (activeDownloads s) = true).
  { unfold Map_has. apply bool_decide_eq_true_2. rewrite Ha. eauto. }
  assert (Hrest : findIndex (has_id (heap s) i) (pre ++ post) = None).
  { apply findIndex_None_Forall, has_id_absent. now apply ids_app_not_in. }
  unfold removeFromQueue, cancelDownload, saveQueues, emit, destroy, assign, read.
  op_unfold.
  rewrite (findIndex_None_Forall _ _ (has_id_absent s i _ Hs)).
  cbn -[getAllQueues objects Map_get Map_has Map_delete findIndex].
  rewrite Hq.
  rewrite (findIndex_first _ pre post r (has_id_absent s i pre Hpre))
    by (subst i; now apply has_id_present).
  cbn -[getAllQueues objects Map_get Map_has Map_delete findIndex].
  rewrite Hh. cbn -[getAllQueues objects Map_get Map_has Map_delete findIndex].
  rewrite Ha, ?Hq, ?splice_middle.
  destruct (request h) as [q|] eqn:Rq;
    cbn -[getAllQueues objects Map_get Map_has Map_delete findIndex];
    rewrite ?Hq, ?splice_middle, Hrest;
    cbn -[getAllQueues objects Map_get Map_has Map_delete findIndex].
  all: conjuncts; try reflexivity; try exact (Map_has_delete _ _);
       try (rewrite elem_of_difference, elem_of_singleton; tauto).
  - intros q' [= <-]. rewrite list_lookup_alter_eq.
    now destruct (transfers s !! q).
  - intros q' [=].
Qed.

Lemma Map_get_set {V} (k : string) (v : V) (m : list (string * V)) :
  Map_get k (Map_set k v m) = Some v.
Proof.
  unfold Map_get. induction m as [|[k' v'] m IH]; cbn.
  - now rewrite bool_decide_eq_true_2 by reflexivity.
  - destruct (decide (k' = k)) as [->|N]; cbn.
    + now rewrite bool_decide_eq_true_2 by reflexivity.
    + rewrite (bool_decide_eq_false_2 _ N). exact IH.
Qed.

Lemma Map_has_set {V} (k : string) (v : V) (m : list (string * V)) :
  Map_has k (Map_set k v m) = true.
Proof.
  unfold Map_has. apply bool_decide_eq_true_2. rewrite Map_get_set. eauto.
Qed.

(** The state in which [startNextDownload] leaves the manager when it
    starts the head of [upNext]. *)
Lemma startNextDownload_state (s : Manager) (now : Z) (r : ref)
    (rest : list ref) (d : Download) :
  upNext s = r :: rest -> heap s !! r = Some d ->
  Map_has (id d) (activeDownloads s) = false ->
  let out := startNextDownload now s in
  let s' := snd out in
  let d' := set_startedAt (Some now) (set_status "downloading" d) in
  let downloadPath := downloadPath_of (env s) in
  fst out = Ok (awaiting (length (tasks s)))
  /\ heap s' = alter (set_startedAt (Some now))
                 r (alter (set_status "downloading") r (heap s))
  /\ heap s' !! r = Some d'
  /\ activeDownloads s'
     = Map_set (id d) {| download := r; request := None |} (activeDownloads s)
  /\ upNext s' = upNext s /\ scheduled s' = scheduled s
  /\ complete s' = complete s
  /\ pausedDownloads s' = pausedDownloads s
  /\ tasks s'
     = (tasks s ++
        [{| task_download := r; task_caller := by_startNextDownload;
            task_phase := await_mkdir downloadPath
                            (path_join downloadPath (fileName_of d')) |}])%list
  /\ transfers s' = transfers s
  /\ files s' = files s
  /\ store_queues s'
     = Some {| q_scheduled := objects (heap s') (scheduled s');
               q_complete := objects (heap s') (complete s');
               q_upNext := objects (heap s') (upNext s') |}
  /\ (exists queues,
        emitted s'
        = (emitted s ++ [queues_updated queues; download_started d'])%list).
Proof.
  intros Hq Hd Hn. cbv zeta.
  unfold startNextDownload, startDownload, saveQueues, emit, assign, read, on_object.
  op_unfold. rewrite Hq, Hd. cbn [from_option]. rewrite Hn.
  cbn -[getAllQueues objects Map_get Map_has Map_delete Map_set findIndex alter
        list_alter lookup list_lookup fileName_of downloadPath_of].
  rewrite !list_lookup_alter_eq, Hd.
  cbn -[getAllQueues objects Map_get Map_has Map_delete Map_set findIndex alter
        list_alter lookup list_lookup fileName_of downloadPath_of].
  rewrite ?Hq. conjuncts; rewrite ?list_lookup_alter_eq, ?Hd; try reflexivity.
  eexists. rewrite <- app_assoc. reflexivity.
Qed.

(** [cancelDownload] does not take the download out of its queue: the
    descriptor stays in [upNext] with the status ['cancelled'],
    [download-cancelled] is emitted, the active handle goes, and nothing
    is persisted.  When it is the head of [upNext], the next
    [startNextDownload] starts it again. *)
Theorem cancelled_download_stays_queued (s : Manager) (i : string)
    (rest : list ref) (r : ref) (d : Download) (h : Handle) (now : Z) :
  upNext s = r :: rest ->
  heap s !! r = Some d -> id d = i ->
  Map_get i (activeDownloads s) = Some h ->
  let s1 := snd (cancelDownload i s) in
  let out := startNextDownload now s1 in
  let s2 := snd out in
  upNext s1 = upNext s /\ scheduled s1 = scheduled s /\ complete s1 = complete s
  /\ heap s1 !! r = Some (set_status "cancelled" d)
  /\ emitted s1
     = (emitted s ++ [download_cancelled (set_status "cancelled" d)])%list
  /\ Map_has i (activeDownloads s1) = false
  /\ store_queues s1 = store_queues s
  /\ files s1 = files s
  /\ fst out = Ok (awaiting (length (tasks s)))
  /\ (status <$> heap s2 !! r) = Some "downloading"
  /\ Map_has i (activeDownloads s2) = true
  /\ upNext s2 = upNext s.
Proof.
  intros Hq Hd Hi Ha. cbv zeta.
  assert (Hr : has_id (heap s) i r = true) by (subst i; now apply has_id_present).
  assert (S1 : let s1 := snd (cancelDownload i s) in
               upNext s1 = upNext s /\ scheduled s1 = scheduled s
               /\ complete s1 = complete s
               /\ heap s1 = alter (set_status "cancelled") r (heap s)
               /\ emitted s1
                  = (emitted s ++ [download_cancelled (set_status "cancelled" d)])%list
               /\ activeDownloads s1 = Map_delete i (activeDownloads s)
               /\ store_queues s1 = store_queues s
               /\ files s1 = files s /\ tasks s1 = tasks s).
  { cbv zeta. unfold cancelDownload, emit, destroy, assign, read. op_unfold.
    rewrite Ha.
    destruct (request h) as [q|];
      cbn -[getAllQueues objects Map_get Map_has Map_delete findIndex];
      rewrite Hq; cbn [findIndex]; rewrite Hr;
      cbn -[getAllQueues objects Map_get Map_has Map_delete findIndex];
      rewrite list_lookup_alter_eq, Hd;
      cbn -[getAllQueues objects Map_get Map_has Map_delete findIndex];
      conjuncts; rewrite ?Hq; reflexivity. }
  cbv zeta in S1.
  set (s1 := snd (cancelDownload i s)) in *.
  destruct S1 as (C1 & C2 & C3 & C4 & C5 & C6 & C7 & C8 & C9).
  assert (Hd1 : heap s1 !! r = Some (set_status "cancelled" d)).
  { now rewrite C4, list_lookup_alter_eq, Hd. }
  assert (Hn : Map_has i (activeDownloads s1) = false).
  { rewrite C6. apply Map_has_delete. }
  split; [exact C1|]. split; [exact C2|]. split; [exact C3|].
  split; [exact Hd1|]. split; [exact C5|]. split; [exact Hn|].
  split; [exact C7|]. split; [exact C8|].
  rewrite <- Hi in Hn.
  assert (Hq1 : upNext s1 = r :: rest) by congruence.
  destruct (startNextDownload_state s1 now r rest _ Hq1 Hd1 Hn)
    as (N1 & _ & N3 & N4 & N5 & _).
  rewrite N1, N3, N4, N5, C9, C1.
  conjuncts; try reflexivity.
  rewrite <- Hi. apply (Map_has_set (id d)).
Qed.


(** The next download is started: the counterpart of the two cases in
    which [startNextDownload] does nothing.  The head of [upNext] gets the
    status ['downloading'] and its start time, an active handle without a
    request is recorded under its id, the queues are persisted,
    [queues-updated] and [download-started] are emitted in this order, and
    the call is left waiting for [fs.mkdir] of the download directory,
    with the destination [<directory>/<name>-v<version>.zip]; no file is
    touched yet and the queues hold what they held. *)
Theorem startNextDownload_starts_head (s : Manager) (now : Z) (r : ref)
    (rest : list ref) (d : Download) :
  upNext s = r :: rest -> heap s !! r = Some d ->
  Map_has (id d) (activeDownloads s) = false ->
  let out := startNextDownload now s in
  let s' := snd out in
  let d' := set_startedAt (Some now) (set_status "downloading" d) in
  let downloadPath := downloadPath_of (env s) in
  fst out = Ok (awaiting (length (tasks s)))
  /\ heap s' !! r = Some d'
  /\ Map_get (id d) (activeDownloads s')
     = Some {| download := r; request := None |}
  /\ upNext s' = upNext s /\ scheduled s' = scheduled s
  /\ complete s' = complete s
  /\ tasks s'
     = (tasks s ++
        [{| task_download := r; task_caller := by_startNextDownload;
            task_phase := await_mkdir downloadPath
                            (path_join downloadPath (fileName_of d')) |}])%list
  /\ files s' = files s
  /\ store_queues s'
     = Some {| q_scheduled := objects (heap s') (scheduled s');
               q_complete := objects (heap s') (complete s');
               q_upNext := objects (heap s') (upNext s') |}
  /\ (exists queues,
        emitted s'
        = (emitted s ++ [queues_updated queues; download_started d'])%list).
Proof.
  intros Hq Hd Hn. cbv zeta.
  destruct (startNextDownload_state s now r rest d Hq Hd Hn)
    as (N1 & N2 & N3 & N4 & N5 & N6 & N7 & N8 & N9 & N10 & N11 & N12 & N13).
  conjuncts; try assumption. rewrite N4. apply Map_get_set.
Qed.


End QueueLookups.

Section TransferOutcomes.
Import JS Effects Collections Downloads Transfers Specs.




(** The [catch] blocks after a rejection of the awaited transfer. *)
Lemma reject_marks_error (s : Manager) (kn : task) (k : Task) (d : Download)
    (filePath message : string) :
  tasks s !! kn = Some k ->
  task_phase k = await_downloadFile filePath ->
  heap s !! task_download k = Some d ->
  let s' := snd (Transfers.reject kn message s) in
  heap s' !! task_download k
  = Some (set_error (Some message) (set_status "error" d))
  /\ id d ∈ errors_of s'
  /\ activeDownloads s' = Map_delete (id d) (activeDownloads s)
  /\ upNext s' = upNext s /\ scheduled s' = scheduled s
  /\ complete s' = complete s
  /\ pausedDownloads s' = pausedDownloads s
  /\ files s' = files s /\ transfers s' = transfers s
  /\ length (tasks s') = length (tasks s)
  /\ (task_phase <$> tasks s' !! kn) = Some (settled (Throw message))
  /\ store_queues s'
     = Some {| q_scheduled := objects (heap s') (scheduled s');
               q_complete := objects (heap s') (complete s');
               q_upNext := objects (heap s') (upNext s') |}.
Proof.
  intros Hk Hph Hd. cbv zeta.
  unfold Transfers.reject, startDownload_failed, on_object, read,
    saveQueues, assign, emit, set_phase.
  op_unfold. rewrite Hk. cbn [fmap option_fmap option_map]. rewrite Hph.
  repeat (progress
    (cbn -[getAllQueues objects Map_get Map_has Map_delete findIndex alter
           list_alter lookup list_lookup];
     rewrite ?list_lookup_alter_eq, ?Hd, ?Hk)).
  destruct (task_caller k);
  repeat (progress
    (cbn -[getAllQueues objects Map_get Map_has Map_delete findIndex alter
           list_alter lookup list_lookup];
     rewrite ?list_lookup_alter_eq, ?Hd, ?Hk, ?length_alter)).
  all: conjuncts; try reflexivity.
  all: unfold errors_of;
    cbn -[getAllQueues objects Map_get Map_has Map_delete findIndex alter
          list_alter lookup list_lookup];
    rewrite !omap_app; cbn; rewrite !elem_of_app, !elem_of_cons; tauto.
Qed.

(** A request error fails the download: the descriptor gets the status
    ['error'] and the message, [download-error] is emitted, the active
    handle goes and the awaiting call is rejected.  The descriptor stays
    where it is in [upNext] and the file is left; when it is the head of
    [upNext], the next [startNextDownload] starts it again, and the old
    error message stays on the descriptor. *)
Theorem failed_download_is_retried (s : Manager) (r : req) (t : Transfer)
    (k : Task) (d : Download) (filePath message : string) (rest : list ref)
    (now : Z) :
  transfers s !! r = Some t ->
  tasks s !! t_task t = Some k ->
  task_phase k = await_downloadFile filePath ->
  heap s !! task_download k = Some d ->
  upNext s = task_download k :: rest ->
  let s1 := snd (on_request_error r message s) in
  let out := startNextDownload now s1 in
  let s2 := snd out in
  (status <$> heap s1 !! task_download k) = Some "error"
  /\ (error <$> heap s1 !! task_download k) = Some (Some message)
  /\ id d ∈ errors_of s1
  /\ Map_has (id d) (activeDownloads s1) = false
  /\ (task_phase <$> tasks s1 !! t_task t) = Some (settled (Throw message))
  /\ upNext s1 = upNext s
  /\ files s1 = files s
  /\ fst out = Ok (awaiting (length (tasks s)))
  /\ (status <$> heap s2 !! task_download k) = Some "downloading"
  /\ (error <$> heap s2 !! task_download k) = Some (Some message)
  /\ Map_has (id d) (activeDownloads s2) = true.
Proof.
  intros Ht Hk Hph Hd Hq. cbv zeta.
  assert (E : snd (on_request_error r message s)
              = snd (Transfers.reject (t_task t) message s)).
  { unfold on_request_error. op_unfold. now rewrite Ht. }
  rewrite E.
  destruct (reject_marks_error s (t_task t) k d filePath message Hk Hph Hd)
    as (R1 & R2 & R3 & R4 & _ & _ & _ & R8 & _ & R10 & R11 & _).
  set (s1 := snd (Transfers.reject (t_task t) message s)) in *.
  assert (Hn : Map_has (id (set_error (Some message) (set_status "error" d)))
                 (activeDownloads s1) = false).
  { cbn [id set_error set_status]. rewrite R3. apply Map_has_delete. }
  assert (Hq1 : upNext s1 = task_download k :: rest) by congruence.
  destruct (startNextDownload_state s1 now _ rest _ Hq1 R1 Hn)
    as (N1 & _ & N3 & N4 & _).
  rewrite R1, N1, N3, N4, R10. cbn [id set_error set_status] in *.
  conjuncts; try reflexivity; try assumption.
  apply (Map_has_set (id d)).
Qed.


(** The three outcomes of [resumeDownload].  An id that is not flagged as
    paused is refused and nothing changes.  A paused id that [upNext]
    does not hold is refused too, but its paused flag has been cleared by
    then.  Otherwise the first descriptor with the id in [upNext] is
    started from the beginning, like a new download: status
    ['downloading'], a new start time, a new active handle without a
    request, and a new call waiting for [fs.mkdir]; requests that are
    still under way are left as they are. *)
Theorem resumeDownload_outcomes (s : Manager) (i : string) (now : Z) :
  (i ∉ pausedDownloads s ->
   resumeDownload i now s = (Throw "Download not paused", s))
  /\ (i ∈ pausedDownloads s -> i ∉ ids s (upNext s) ->
      resumeDownload i now s
      = (Throw "Download not found",
         with_pausedDownloads (pausedDownloads s ∖ {[i]}) s))
  /\ (forall pre post r d,
        i ∈ pausedDownloads s ->
        upNext s = (pre ++ r :: post)%list ->
        heap s !! r = Some d -> id d = i -> i ∉ ids s pre ->
        let out := resumeDownload i now s in
        let s' := snd out in
        let d' := set_startedAt (Some now) (set_status "downloading" d) in
        fst out = Ok (length (tasks s))
        /\ (i ∉ pausedDownloads s')
        /\ heap s' !! r = Some d'
        /\ Map_get i (activeDownloads s')
           = Some {| download := r; request := None |}
        /\ tasks s'
           = (tasks s ++
              [{| task_download := r; task_caller := by_resumeDownload;
                  task_phase :=
                    await_mkdir (downloadPath_of (env s))
                      (path_join (downloadPath_of (env s)) (fileName_of d')) |}])%list
        /\ transfers s' = transfers s
        /\ upNext s' = upNext s
        /\ files s' = files s).
Proof.
  conjuncts.
  - intros H. unfold resumeDownload. op_unfold.
    now rewrite (bool_decide_eq_false_2 _ H).
  - intros H1 H2. unfold resumeDownload. op_unfold.
    rewrite (bool_decide_eq_true_2 _ H1). cbn [negb].
    now rewrite (find_None_Forall _ _ (has_id_absent s i _ H2)).
  - intros pre post r d H1 Hq Hd Hi Hpre. cbv zeta.
    unfold resumeDownload, startDownload, saveQueues, emit, assign, read, on_object.
    op_unfold. rewrite (bool_decide_eq_true_2 _ H1). cbn [negb].
    rewrite Hq.
    rewrite (find_first _ pre post r (has_id_absent s i pre Hpre))
      by (subst i; now apply has_id_present).
    repeat (progress
      (cbn -[getAllQueues objects Map_get Map_has Map_delete Map_set findIndex
             alter list_alter lookup list_lookup fileName_of downloadPath_of];
       rewrite ?list_lookup_alter_eq, ?Hd)).
    cbn [id set_status set_startedAt]. rewrite Hi, ?Hq.
    conjuncts; try reflexivity.
    + rewrite elem_of_difference, elem_of_singleton. tauto.
    + apply Map_get_set.
Qed.



End TransferOutcomes.

Section Removing.
Import JS Effects Collections Downloads Transfers Specs.

Lemma findIndex_None_absent (s : Manager) (i : string) (q : list ref) :
  findIndex (has_id (heap s) i) q = None -> i ∉ ids s q.
Proof.
  rewrite ids_omap. induction q as [|x q IH]; cbn [findIndex].
  - intros _ H. inversion H.
  - destruct (has_id (heap s) i x) eqn:E; [discriminate|].
    destruct (findIndex _ q); [discriminate|]. intros _.
    cbn [omap list_omap]. unfold has_id in E. apply bool_decide_eq_false_1 in E.
    destruct (id <$> heap s !! x) as [j|] eqn:G; [|now apply IH].
    intros H. apply elem_of_cons in H as [->|H]; [congruence|].
    now apply IH.
Qed.

(** Taking the first descriptor with an id out of a queue in which no id
    occurs twice takes the id out and leaves the others. *)
Lemma ids_splice_first (s : Manager) (i : string) (q : list ref) (n : nat) :
  NoDup (ids s q) ->
  findIndex (has_id (heap s) i) q = Some n ->
  (i ∉ ids s (splice n q))
  /\ forall j, j <> i -> j ∈ ids s (splice n q) <-> j ∈ ids s q.
Proof.
  rewrite !ids_omap. unfold splice. revert n.
  induction q as [|x q IH]; intros n; cbn [findIndex]; [discriminate|].
  destruct (has_id (heap s) i x) eqn:E.
  - intros Hnd [= <-]. cbn [delete list_delete omap list_omap] in *.
    unfold has_id in E. apply bool_decide_eq_true_1 in E. rewrite E in *.
    apply NoDup_cons in Hnd as [Hni _]. split; [exact Hni|].
    intros j Hj. rewrite elem_of_cons. split; [tauto|]. intros [->|H]; tauto.
  - destruct (findIndex _ q) as [m|] eqn:F; [|discriminate].
    intros Hnd [= <-]. cbn [delete list_delete omap list_omap] in *.
    unfold has_id in E. apply bool_decide_eq_false_1 in E.
    destruct (id <$> heap s !! x) as [k|] eqn:G.
    + apply NoDup_cons in Hnd as [_ Hnd].
      destruct (IH m Hnd eq_refl) as [I1 I2]. split.
      * intros H. apply elem_of_cons in H as [->|H]; [congruence|tauto].
      * intros j Hj. rewrite !elem_of_cons, (I2 j Hj). tauto.
    + exact (IH m Hnd eq_refl).
Qed.

(** Removing a download that is waiting and not being transferred: the
    call returns [true]; when no id occurs twice in a queue, the id is in
    neither [scheduled] nor [upNext] afterwards and every other id is
    where it was; no descriptor is changed and the queues are persisted. *)
Theorem removeFromQueue_removes (s : Manager) (i : string) :
  NoDup (ids s (scheduled s)) -> NoDup (ids s (upNext s)) ->
  Map_has i (activeDownloads s) = false ->
  i ∈ ids s (scheduled s ++ upNext s)%list ->
  let out := removeFromQueue i s in
  let s' := snd out in
  fst out = Ok true
  /\ (i ∉ ids s' (scheduled s'))
  /\ (i ∉ ids s' (upNext s'))
  /\ (forall j, j <> i ->
        (j ∈ ids s' (scheduled s') <-> j ∈ ids s (scheduled s))
        /\ (j ∈ ids s' (upNext s') <-> j ∈ ids s (upNext s)))
  /\ heap s' = heap s /\ complete s' = complete s
  /\ store_queues s'
     = Some {| q_scheduled := objects (heap s') (scheduled s');
               q_complete := objects (heap s') (complete s');
               q_upNext := objects (heap s') (upNext s') |}.
Proof.
  intros N1 N2 Ha Hin. cbv zeta.
  unfold removeFromQueue, saveQueues, emit. op_unfold.
  destruct (findIndex (has_id (heap s) i) (scheduled s)) as [n|] eqn:F1;
    cbn -[getAllQueues objects Map_get Map_has Map_delete findIndex];
    destruct (findIndex (has_id (heap s) i) (upNext s)) as [m|] eqn:F2;
    cbn -[getAllQueues objects Map_get Map_has Map_delete findIndex];
    rewrite Ha;
    cbn -[getAllQueues objects Map_get Map_has Map_delete findIndex].
  4:{ exfalso. rewrite ids_app in Hin. apply elem_of_app in Hin as [H|H].
      - now apply (findIndex_None_absent s i _ F1).
      - now apply (findIndex_None_absent s i _ F2). }
  all: split; [reflexivity|].
  all: try pose proof (ids_splice_first s i _ n N1 F1) as [A1 A2].
  all: try pose proof (ids_splice_first s i _ m N2 F2) as [B1 B2].
  all: try pose proof (findIndex_None_absent s i _ F1) as A3.
  all: try pose proof (findIndex_None_absent s i _ F2) as B3.
  all: unfold ids in *;
       cbn -[getAllQueues objects Map_get Map_has Map_delete findIndex].
  all: conjuncts; try assumption; try reflexivity.
  all: intros j Hj; split; first [now apply A2|now apply B2|reflexivity].
Qed.

End Removing.

Section Lookups.
Import JS Effects Collections Downloads Transfers Specs.

Lemma find_app_first {A} (p : A -> bool) (l k : list A) :
  Forall (fun x => p x = false) l ->
  Collections.find p (l ++ k) = Collections.find p k.
Proof.
  induction 1 as [|x l Hx _ IH]; cbn; [reflexivity|]. now rewrite Hx.
Qed.

Lemma has_id_after_allocation (h : list Download) (d : Download) (i : string)
    (r : ref) :
  (r < length h)%nat -> has_id (h ++ [d])%list i r = has_id h i r.
Proof. intros H. unfold has_id. now rewrite lookup_app_l. Qed.

(** A download that was just queued is found under its id, provided no
    descriptor with this id was scheduled before (the search takes the
    first match, and [scheduled] is searched first). *)
Theorem queued_download_is_found (info : DownloadInfo) (now : Z) (s : Manager)
    (d : Download) :
  fst (addToQueue info now s) = Ok d ->
  (id d ∉ ids s (scheduled s)) ->
  Forall (fun r => (r < length (heap s))%nat) (scheduled s) ->
  getDownload (id d) (snd (addToQueue info now s)) = Some d.
Proof.
  intros Hd Hfresh Hvalid.
  destruct (addToQueue_spec info now s)
    as (d' & H1 & _ & _ & _ & _ & _ & H7 & H8 & _).
  rewrite Hd in H1. injection H1 as <-.
  unfold getDownload. cbv zeta. rewrite H7, H8.
  assert (F : Forall (fun r => has_id (heap s ++ [d])%list (id d) r = false)
                (scheduled s)).
  { pose proof (has_id_absent s (id d) _ Hfresh) as A.
    rewrite Forall_forall in *. intros r Hr.
    rewrite has_id_after_allocation by now apply Hvalid. now apply A. }
  rewrite (find_app_first _ _ _ F). cbn [Collections.find].
  assert (L : (heap s ++ [d])%list !! length (heap s) = Some d).
  { rewrite lookup_app_r by lia. now rewrite Nat.sub_diag. }
  rewrite (has_id_present _ _ _ L). cbn. now rewrite L.
Qed.

End Lookups.

Section Restarting.
Import JS Effects Collections Downloads Transfers Restart Specs.

Lemma objects_seq (a l b : list Download) :
  objects (a ++ l ++ b) (seq (length a) (length l)) = l.
Proof.
  unfold objects. revert a. induction l as [|x l IH]; intros a; [reflexivity|].
  cbn [length seq omap list_omap].
  rewrite lookup_app_r by lia. rewrite Nat.sub_diag. cbn.
  f_equal. specialize (IH (a ++ [x])%list).
  rewrite length_app in IH. cbn in IH. rewrite Nat.add_1_r in IH.
  rewrite <- app_assoc in IH. exact IH.
Qed.

(** Persisting the queues and constructing a manager from the store
    brings back the three queues with the descriptors they held, field by
    field (so a descriptor persisted as ['downloading'] comes back as
    ['downloading']).  Nothing is active or paused in the new manager, and
    each entry of a queue is an object of its own. *)
Theorem save_then_restart (s : Manager) (disk : gmap string Z) :
  let s1 := snd (saveQueues s) in
  let m := loadQueues (env s1) (store_queues s1) disk in
  objects (heap m) (scheduled m) = objects (heap s) (scheduled s)
  /\ objects (heap m) (upNext m) = objects (heap s) (upNext s)
  /\ objects (heap m) (complete m) = objects (heap s) (complete s)
  /\ activeDownloads m = [] /\ pausedDownloads m = ∅
  /\ NoDup (scheduled m ++ complete m ++ upNext m)
  /\ store_queues m = store_queues s1.
Proof.
  cbv zeta. unfold saveQueues, emit, loadQueues. op_unfold.
  cbn -[objects seq]. 
  set (l1 := objects (heap s) (scheduled s)).
  set (l2 := objects (heap s) (complete s)).
  set (l3 := objects (heap s) (upNext s)).
  conjuncts; try reflexivity.
  - exact (objects_seq [] l1 (l2 ++ l3)).
  - pose proof (objects_seq (l1 ++ l2) l3 []) as H.
    rewrite length_app, app_nil_r, <- app_assoc in H. exact H.
  - pose proof (objects_seq l1 l2 l3) as H. exact H.
  - rewrite <- !seq_app. apply NoDup_seq.
Qed.

End Restarting.

Section FileNames.
Import JS Effects Collections Downloads Transfers Specs.

Lemma sanitize_char_class (c : ascii) :
  let n := code (sanitize_char c) in
  (48 <= n <= 57) \/ (65 <= n <= 90) \/ (97 <= n <= 122) \/ n = 95.
Proof.
  cbv zeta. unfold sanitize_char. cbv zeta.
  destruct (_ || _) eqn:E.
  - rewrite !orb_true_iff, !andb_true_iff, !Z.leb_le in E. lia.
  - right. right. right. reflexivity.
Qed.

Lemma sanitize_char_idem (c : ascii) :
  sanitize_char (sanitize_char c) = sanitize_char c.
Proof.
  assert (H : sanitize_char c = c \/ sanitize_char c = "_"%char).
  { unfold sanitize_char. cbv zeta. destruct (_ || _); auto. }
  destruct H as [H|H]; rewrite !H; reflexivity.
Qed.

(** The name part of the destination file: [replace(/[^a-z0-9]/gi, '_')]
    keeps the length, leaves letters and digits and turns everything else
    into [_], so the result holds letters, digits and underscores only
    (no path separator or dot), and sanitising again changes nothing. *)
Theorem sanitize_keeps_letters_and_digits (name : string) :
  String.length (sanitize name) = String.length name
  /\ Forall (fun c => let n := code c in
               (48 <= n <= 57) \/ (65 <= n <= 90) \/ (97 <= n <= 122) \/ n = 95)
       (chars (sanitize name))
  /\ sanitize (sanitize name) = sanitize name.
Proof.
  induction name as [|c name (IH1 & IH2 & IH3)]; cbn.
  - repeat split. constructor.
  - split; [now rewrite IH1|]. split.
    + constructor; [apply sanitize_char_class|exact IH2].
    + rewrite IH3. f_equal. apply sanitize_char_idem.
Qed.

(** The destination is what [path.join] makes of the directory and the
    file name: the name is not sanitised beyond its first part, so a
    version can hold separators, and a ['..'] segment of it climbs.  A
    segment such as [x-v..] is a name like any other. *)
Example destination_is_normalised :
  path_join "/home/user/Downloads" "demo-v1.0.0.zip"
  = "/home/user/Downloads/demo-v1.0.0.zip"
  /\ path_join "/home/user/Downloads/" "demo-v1.0.0.zip"
     = "/home/user/Downloads/demo-v1.0.0.zip"
  /\ path_join "/home/user/Downloads" "x-v/../../1.zip" = "/home/user/1.zip"
  /\ path_join "/home/user/Downloads" "x-v../../1.zip"
     = "/home/user/Downloads/1.zip"
  /\ path_join "Downloads" "x-v/../../../1.zip" = "../1.zip"
  /\ path_join "" "x-v1.zip" = "x-v1.zip".
Proof. vm_compute. repeat split; reflexivity. Qed.

End FileNames.

Section QueueExamples.
Import JS Effects Collections Downloads Transfers Specs Scenarios QueueScenarios.

Lemma promote_then_demote_witness :
  let s := two_waiting in
  let i := "screen-clipper" in
  let pre := [0%nat] in
  let post := @nil ref in
  let r := 1%nat in
  let d := clipper_queued in
  let out1 := moveToUpNext i s in
  let s1 := snd out1 in
  let out2 := moveToScheduled i s1 in
  let s2 := snd out2 in
  fst out1 = Ok (Some d)
  /\ scheduled s1 = (pre ++ post)%list
  /\ upNext s1 = (upNext s ++ [r])%list
  /\ fst out2 = Ok (Some d)
  /\ scheduled s2 = (pre ++ post ++ [r])%list
  /\ upNext s2 = upNext s
  /\ heap s2 = heap s /\ complete s2 = complete s
  /\ store_queues s2
     = Some {| q_scheduled := objects (heap s2) (scheduled s2);
               q_complete := objects (heap s2) (complete s2);
               q_upNext := objects (heap s2) (upNext s2) |}.
Proof.
  cbv zeta.
  apply (promote_then_demote two_waiting "screen-clipper" [0%nat] [] 1%nat clipper_queued).
  - by_evaluation.
  - by_evaluation.
  - reflexivity.
  - vm_compute. intros H. apply list_elem_of_singleton in H. discriminate H.
  - vm_compute. intros H. inversion H.
Defined.

Lemma removing_an_active_download_witness :
  let s := streaming_manager in
  let i := "demo-1000" in
  let pre := @nil ref in
  let post := @nil ref in
  let r := 0%nat in
  let d := streaming_descriptor in
  let h := streaming_handle in
  let out := removeFromQueue i s in
  let s' := snd out in
  fst out = Ok true
  /\ upNext s' = (pre ++ post)%list
  /\ scheduled s' = scheduled s
  /\ complete s' = complete s
  /\ Map_has i (activeDownloads s') = false
  /\ (i ∉ pausedDownloads s')
  /\ heap s' = heap s
  /\ emitted s' = (emitted s ++ [queues_updated (getAllQueues s')])%list
  /\ tasks s' = tasks s
  /\ files s' = files s
  /\ (forall q, request h = Some q ->
        t_destroyed <$> transfers s' !! q
        = (fun _ => true) <$> transfers s !! q)
  /\ store_queues s'
     = Some {| q_scheduled := objects (heap s') (scheduled s');
               q_complete := objects (heap s') (complete s');
               q_upNext := objects (heap s') (upNext s') |}.
Proof.
  cbv zeta.
  apply (removing_an_active_download streaming_manager "demo-1000" [] [] 0%nat streaming_descriptor streaming_handle).
  - by_evaluation.
  - by_evaluation.
  - reflexivity.
  - vm_compute. intros H. inversion H.
  - vm_compute. intros H. inversion H.
  - vm_compute. intros H. inversion H.
  - by_evaluation.
Defined.

Lemma cancelled_download_stays_queued_witness :
  let s := streaming_manager in
  let i := "demo-1000" in
  let rest := @nil ref in
  let r := 0%nat in
  let d := streaming_descriptor in
  let h := streaming_handle in
  let now := 3000 in
  let s1 := snd (cancelDownload i s) in
  let out := startNextDownload now s1 in
  let s2 := snd out in
  upNext s1 = upNext s /\ scheduled s1 = scheduled s /\ complete s1 = complete s
  /\ heap s1 !! r = Some (set_status "cancelled" d)
  /\ emitted s1
     = (emitted s ++ [download_cancelled (set_status "cancelled" d)])%list
  /\ Map_has i (activeDownloads s1) = false
  /\ store_queues s1 = store_queues s
  /\ files s1 = files s
  /\ fst out = Ok (awaiting (length (tasks s)))
  /\ (status <$> heap s2 !! r) = Some "downloading"
  /\ Map_has i (activeDownloads s2) = true
  /\ upNext s2 = upNext s.
Proof.
  cbv zeta.
  apply (cancelled_download_stays_queued streaming_manager "demo-1000" [] 0%nat streaming_descriptor streaming_handle 3000).
  - by_evaluation.
  - by_evaluation.
  - reflexivity.
  - by_evaluation.
Defined.

Lemma startNextDownload_starts_head_witness :
  let s := promoted in
  let now := 2000 in
  let r := 0%nat in
  let rest := @nil ref in
  let d := demo_queued in
  let out := startNextDownload now s in
  let s' := snd out in
  let d' := set_startedAt (Some now) (set_status "downloading" d) in
  let downloadPath := downloadPath_of (env s) in
  fst out = Ok (awaiting (length (tasks s)))
  /\ heap s' !! r = Some d'
  /\ Map_get (id d) (activeDownloads s')
     = Some {| download := r; request := None |}
  /\ upNext s' = upNext s /\ scheduled s' = scheduled s
  /\ complete s' = complete s
  /\ tasks s'
     = (tasks s ++
        [{| task_download := r; task_caller := by_startNextDownload;
            task_phase := await_mkdir downloadPath
                            (path_join downloadPath (fileName_of d')) |}])%list
  /\ files s' = files s
  /\ store_queues s'
     = Some {| q_scheduled := objects (heap s') (scheduled s');
               q_complete := objects (heap s') (complete s');
               q_upNext := objects (heap s') (upNext s') |}
  /\ (exists queues,
        emitted s'
        = (emitted s ++ [queues_updated queues; download_started d'])%list).
Proof.
  cbv zeta.
  apply (startNextDownload_starts_head promoted 2000 0%nat [] demo_queued).
  - by_evaluation.
  - by_evaluation.
  - by_evaluation.
Defined.


Lemma failed_download_is_retried_witness :
  let s := streaming_manager in
  let r := 0%nat in
  let t := streaming_transfer in
  let k := streaming_task in
  let d := streaming_descriptor in
  let filePath := demo_file in
  let message := "read ECONNRESET" in
  let rest := @nil ref in
  let now := 9000 in
  let s1 := snd (on_request_error r message s) in
  let out := startNextDownload now s1 in
  let s2 := snd out in
  (status <$> heap s1 !! task_download k) = Some "error"
  /\ (error <$> heap s1 !! task_download k) = Some (Some message)
  /\ id d ∈ errors_of s1
  /\ Map_has (id d) (activeDownloads s1) = false
  /\ (task_phase <$> tasks s1 !! t_task t) = Some (settled (Throw message))
  /\ upNext s1 = upNext s
  /\ files s1 = files s
  /\ fst out = Ok (awaiting (length (tasks s)))
  /\ (status <$> heap s2 !! task_download k) = Some "downloading"
  /\ (error <$> heap s2 !! task_download k) = Some (Some message)
  /\ Map_has (id d) (activeDownloads s2) = true.
Proof.
  cbv zeta.
  apply (failed_download_is_retried streaming_manager 0%nat streaming_transfer streaming_task streaming_descriptor demo_file "read ECONNRESET" [] 9000).
  - by_evaluation.
  - by_evaluation.
  - reflexivity.
  - by_evaluation.
  - by_evaluation.
Defined.


Lemma removeFromQueue_removes_witness :
  let s := two_waiting in
  let i := "demo-1000" in
  let out := removeFromQueue i s in
  let s' := snd out in
  fst out = Ok true
  /\ (i ∉ ids s' (scheduled s'))
  /\ (i ∉ ids s' (upNext s'))
  /\ (forall j, j <> i ->
        (j ∈ ids s' (scheduled s') <-> j ∈ ids s (scheduled s))
        /\ (j ∈ ids s' (upNext s') <-> j ∈ ids s (upNext s)))
  /\ heap s' = heap s /\ complete s' = complete s
  /\ store_queues s'
     = Some {| q_scheduled := objects (heap s') (scheduled s');
               q_complete := objects (heap s') (complete s');
               q_upNext := objects (heap s') (upNext s') |}.
Proof.
  cbv zeta.
  apply (removeFromQueue_removes two_waiting "demo-1000").
  - vm_compute. repeat constructor; intros H; repeat (apply elem_of_cons in H as [H|H]; [discriminate H|]); inversion H.
  - vm_compute. constructor.
  - by_evaluation.
  - vm_compute. apply list_elem_of_here.
Defined.

Lemma queued_download_is_found_witness :
  getDownload (id demo_queued) (snd (addToQueue demo 1000 (new_manager desktop)))
  = Some demo_queued.
Proof.
  apply (queued_download_is_found demo 1000 (new_manager desktop) demo_queued).
  - by_evaluation.
  - vm_compute. intros H. inversion H.
  - constructor.
Defined.

End QueueExamples.
